(** * deal-finder: the scan pipeline, embedded and verified

    A shallow embedding of the scan pipeline of the deal finder:
    - [JS]         the fragment of JavaScript values and coercions the code relies on;
    - [Evaluator]  src/lib/ai-evaluator.ts  ([evaluateListing]);
    - [Craigslist] src/lib/craigslist.ts    ([buildSearchUrl], [fetchCraigslistListings]);
    - [Email]      src/lib/email.ts         ([sendDealAlertEmail]);
    - [Scheduler]  src/lib/scheduler.ts     ([processSearch], [processAllSearches]).

    Everything outside the repository (the Gemini endpoint, the Playwright
    browser, the Prisma store, the Resend service, the JavaScript built-ins)
    is an explicit parameter: a record of functions saying what each external
    call answers, including whether it throws.  Theorems quantify over these
    records, so they hold for every behaviour of the outside world. *)

From Stdlib Require Import List String Ascii ZArith QArith Qround Qabs Bool Lia.
Import ListNotations.
Open Scope string_scope.

(** An awaited call either yields a value or rejects with an error. *)
Inductive outcome (A : Type) : Type :=
| Returned (a : A)
| Threw (e : string).
Arguments Returned {A} a.
Arguments Threw {A} e.

Definition succeeds {A : Type} (o : outcome A) : Prop := exists a, o = Returned a.
Definition throws {A : Type} (o : outcome A) : Prop := exists e, o = Threw e.

(* ================================================================== *)
(** ** JavaScript values *)
(* ================================================================== *)

Module JS.

(** A JavaScript number: a double is either NaN, an infinity, or a finite
    rational.  The sign of zero never matters to the code modelled here. *)
Inductive number : Type :=
| NaN
| PosInf
| NegInf
| Fin (q : Q).

(** What [JSON.parse] can produce, plus [undefined] for an absent property. *)
#[local] Set Warnings "-register-all".
Inductive value : Type :=
| Undefined
| Null
| Bool (b : bool)
| Num (n : number)
| Str (s : string)
| Arr (elems : list value)
| Obj (props : list (string * value)).

(** Built-ins of the runtime whose exact tables are not part of the
    repository.  [JSON_parse] is only ever applied to a text that starts
    with an opening brace, so a successful parse is an object: it yields
    the object's properties, and [None] stands for the SyntaxError.
    [toLowerCase] is [String.prototype.toLowerCase], which follows the
    Unicode case tables (a Kelvin sign becomes the letter k). *)
Record Builtins : Type := {
  StringToNumber : string -> number;
  NumberToString : number -> string;
  ArrayToString : list value -> string;
  JSON_parse : string -> option (list (string * value));
  trim : string -> string;
  toLowerCase : string -> string;
  URLSearchParams_toString : list (string * string) -> string
}.

(** [o.k] on a parsed object. *)
Definition get (props : list (string * value)) (k : string) : value :=
  match find (fun kv => String.eqb (fst kv) k) props with
  | Some kv => snd kv
  | None => Undefined
  end.

(** [v?.k]: property access with optional chaining. *)
Definition member (v : value) (k : string) : value :=
  match v with
  | Obj props => get props k
  | _ => Undefined
  end.

Definition is_zero (q : Q) : bool := (Qnum q =? 0)%Z.

(** Truthiness, as used by [||], [?:], [if] and [filter(Boolean)]. *)
Definition truthy (v : value) : bool :=
  match v with
  | Undefined | Null => false
  | Bool b => b
  | Num NaN => false
  | Num (Fin q) => negb (is_zero q)
  | Num _ => true
  | Str s => negb (String.eqb s "")
  | Arr _ | Obj _ => true
  end.

(** [a || b]. *)
Definition or_else (a b : value) : value := if truthy a then a else b.

Section Coercions.
Variable rt : Builtins.

Definition ToNumber (v : value) : number :=
  match v with
  | Undefined => NaN
  | Null => Fin 0
  | Bool true => Fin 1
  | Bool false => Fin 0
  | Num n => n
  | Str s => StringToNumber rt s
  | Arr l => StringToNumber rt (ArrayToString rt l)
  | Obj _ => NaN
  end.

Definition ToString (v : value) : string :=
  match v with
  | Undefined => "undefined"
  | Null => "null"
  | Bool true => "true"
  | Bool false => "false"
  | Num n => NumberToString rt n
  | Str s => s
  | Arr l => ArrayToString rt l
  | Obj _ => "[object Object]"
  end.
End Coercions.

(** [a <= b] on numbers; any comparison with NaN is false. *)
Definition num_le (a b : number) : bool :=
  match a, b with
  | NaN, _ | _, NaN => false
  | NegInf, _ => true
  | _, PosInf => true
  | PosInf, _ => false
  | _, NegInf => false
  | Fin p, Fin q => Qle_bool p q
  end.

(** [a >= b]. *)
Definition num_ge (a b : number) : bool := num_le b a.

(** [Math.round]: the nearest integer, ties towards +infinity. *)
Definition Math_round (x : number) : number :=
  match x with
  | Fin q => Fin (inject_Z (Qfloor (q + (1 # 2))))
  | other => other
  end.

(** [Math.min(a, b)] and [Math.max(a, b)]: NaN if either argument is. *)
Definition Math_min (a b : number) : number :=
  match a, b with
  | NaN, _ | _, NaN => NaN
  | _, _ => if num_le a b then a else b
  end.

Definition Math_max (a b : number) : number :=
  match a, b with
  | NaN, _ | _, NaN => NaN
  | _, _ => if num_le a b then b else a
  end.

(** *** Arithmetic in doubles *)

(** [2^e] for any integer [e]. *)
Definition pow2 (e : Z) : Q :=
  if (0 <=? e)%Z then inject_Z (2 ^ e) else 1 # Z.to_pos (2 ^ (- e)).

(** The binary exponent of a non-zero rational: [2^e <= |q| < 2^(e+1)]. *)
Definition exponent (q : Q) : Z :=
  let e := (Z.log2 (Z.abs (Qnum q)) - Z.log2 (Zpos (Qden q)))%Z in
  if Qle_bool (pow2 e) (Qabs q) then e else (e - 1)%Z.

(** The nearest integer, ties to the even one. *)
Definition round_half_even (m : Q) : Z :=
  let f := Qfloor m in
  match (m - inject_Z f ?= 1 # 2)%Q with
  | Lt => f
  | Gt => (f + 1)%Z
  | Eq => if Z.even f then f else (f + 1)%Z
  end.

(** The double nearest to a real number: 53 significant bits, exponents
    from -1022 on (below, the spacing of the subnormals), ties to even,
    and an infinity from [2^1024] on. *)
Definition to_double (q : Q) : number :=
  if is_zero q then Fin 0
  else
    let k := (Z.max (exponent q) (-1022) - 52)%Z in
    let r := Qred (inject_Z (round_half_even (q / pow2 k)) * pow2 k) in
    if Qle_bool (pow2 1024) (Qabs r)
    then (if (Qnum q <? 0)%Z then NegInf else PosInf)
    else Fin r.

(** [a * b]: the product, rounded to a double. *)
Definition times (a b : number) : number :=
  match a, b with
  | NaN, _ | _, NaN => NaN
  | Fin p, Fin q => to_double (p * q)
  | Fin p, inf | inf, Fin p =>
      if is_zero p then NaN
      else if (Qnum p <? 0)%Z
           then match inf with PosInf => NegInf | _ => PosInf end
           else inf
  | PosInf, PosInf | NegInf, NegInf => PosInf
  | _, _ => NegInf
  end.

(** *** Strings *)

(** The letter case folding of a regular expression with the flag [i]
    and without the flag [u], seen from an ASCII pattern: the 26 capitals
    are folded onto their small letters and no other character is folded
    onto an ASCII one. *)
Definition lower (c : ascii) : ascii :=
  let n := nat_of_ascii c in
  if (65 <=? n)%nat && (n <=? 90)%nat then ascii_of_nat (n + 32) else c.

Fixpoint fold_case (s : string) : string :=
  match s with
  | EmptyString => EmptyString
  | String c rest => String (lower c) (fold_case rest)
  end.

(** [parts.join(sep)] on values that have all been kept by
    [filter(Boolean)] (so none is null or undefined). *)
Fixpoint join (rt : Builtins) (sep : string) (vs : list value) : string :=
  match vs with
  | [] => ""
  | [v] => ToString rt v
  | v :: rest => ToString rt v ++ sep ++ join rt sep rest
  end.

(** [text.match(/\{[\s\S]*\}/)]: from the first opening brace to the last
    closing brace after it. *)
Fixpoint from_first_open (s : string) : option string :=
  match s with
  | EmptyString => None
  | String c rest =>
      if Ascii.eqb c "{" then Some s else from_first_open rest
  end.

Fixpoint upto_last_close (s : string) : option string :=
  match s with
  | EmptyString => None
  | String c rest =>
      match upto_last_close rest with
      | Some p => Some (String c p)
      | None => if Ascii.eqb c "}" then Some (String c EmptyString) else None
      end
  end.

Definition match_braces (text : string) : option string :=
  match from_first_open text with
  | Some s => upto_last_close s
  | None => None
  end.

(** An integer between [lo] and [hi]. *)
Definition integer_between (lo hi : Z) (n : number) : Prop :=
  exists k : Z, (lo <= k <= hi)%Z /\ n = Fin (inject_Z k).

End JS.

(* ================================================================== *)
(** ** The evaluator (src/lib/ai-evaluator.ts) *)
(* ================================================================== *)

Module Evaluator.
Import JS.

(** The assessment object.  [score] and [isGoodDeal] are assigned by the
    code; the other five fields are whatever the parsed reply holds under
    that name (the cast to the interface checks nothing at run time). *)
Record DealEvaluation : Type := {
  score : number;
  isGoodDeal : bool;
  reasoning : value;
  identifiedProduct : value;
  retailPriceRange : value;
  condition : value;
  marketComparison : value
}.

Record ListingForEvaluation : Type := {
  title : string;
  price : option number;
  description : option string;
  imageUrls : list string;
  query : string;
  preferences : option string
}.

Record InlineData : Type := { data : string; mimeType : string }.

Inductive Part : Type :=
| TextPart (text : string)
| ImagePart (inlineData : InlineData).

Record Response : Type := {
  ok : bool;
  body_base64 : string;
  content_type : option string
}.

(** The outside world of the evaluator: the prompt template once its
    placeholders are replaced, the HTTP fetch of an image, and the model
    call ([generateContent] followed by [response.text()]) for an API key
    and a list of parts. *)
Record Gemini : Type := {
  builtins : Builtins;
  prompt_for : ListingForEvaluation -> string;
  fetch : string -> outcome Response;
  generateContent : string -> list Part -> outcome string
}.

(** [Math.max(1, Math.min(100, Math.round(x)))]. *)
Definition clamp (x : number) : number :=
  Math_max (Fin 1) (Math_min (Fin 100) (Math_round x)).

Section WithGemini.
Variable ai : Gemini.

Definition fetchImageAsBase64 (url : string) : option InlineData :=
  match fetch ai url with
  | Threw _ => None
  | Returned response =>
      if negb (ok response) then None
      else Some {| data := body_base64 response;
                   mimeType := match content_type response with
                               | Some ct => if String.eqb ct "" then "image/jpeg" else ct
                               | None => "image/jpeg"
                               end |}
  end.

Fixpoint image_parts (urls : list string) : list Part :=
  match urls with
  | [] => []
  | imageUrl :: rest =>
      match fetchImageAsBase64 imageUrl with
      | Some imageData => ImagePart imageData :: image_parts rest
      | None => image_parts rest
      end
  end.

(** The object of the [catch] branch. *)
Definition fallback : DealEvaluation := {|
  score := Fin 50;
  isGoodDeal := false;
  reasoning := Str "Unable to evaluate automatically.";
  identifiedProduct := Null;
  retailPriceRange := Null;
  condition := Str "unknown";
  marketComparison := Str "Unable to compare."
|}.

(** The two assignments after [JSON.parse]; the arithmetic coerces
    [evaluation.score] to a number first. *)
Definition post_process (props : list (string * value)) : DealEvaluation :=
  let score' := clamp (ToNumber (builtins ai) (get props "score")) in
  {| score := score';
     isGoodDeal := num_ge score' (Fin 70);
     reasoning := get props "reasoning";
     identifiedProduct := get props "identifiedProduct";
     retailPriceRange := get props "retailPriceRange";
     condition := get props "condition";
     marketComparison := get props "marketComparison" |}.

(** The model call and the search for a JSON object in its reply: the
    part of the [try] block that can throw. *)
Definition parsed_reply (listing : ListingForEvaluation) (apiKey : string)
  : outcome (list (string * value)) :=
  let parts := TextPart (prompt_for ai listing)
               :: image_parts (firstn 2 (imageUrls listing)) in
  match generateContent ai apiKey parts with
  | Threw e => Threw e
  | Returned raw =>
      let text := trim (builtins ai) raw in
      match match_braces text with
      | None => Threw "No JSON in response"
      | Some jsonMatch =>
          match JSON_parse (builtins ai) jsonMatch with
          | None => Threw "SyntaxError"
          | Some props => Returned props
          end
      end
  end.

(** The body of the [try] block. *)
Definition try_evaluate (listing : ListingForEvaluation) (apiKey : string)
  : outcome DealEvaluation :=
  match parsed_reply listing apiKey with
  | Threw e => Threw e
  | Returned props => Returned (post_process props)
  end.

(** Nothing before the [try] block can throw: the client and the model
    handle are plain constructions and the prompt is built by string
    replacement. *)
Definition evaluateListing (listing : ListingForEvaluation) (apiKey : string)
  : outcome DealEvaluation :=
  match try_evaluate listing apiKey with
  | Returned evaluation => Returned evaluation
  | Threw _ => Returned fallback
  end.

End WithGemini.



End Evaluator.

(* ================================================================== *)
(** ** The acquisition adapter (src/lib/craigslist.ts) *)
(* ================================================================== *)

Module Craigslist.
Import JS.

Definition ZIP_TO_REGION : list (string * string) := [
  ("940", "sfbay"); ("941", "sfbay"); ("942", "sfbay"); ("943", "sfbay");
  ("944", "sfbay"); ("945", "sfbay"); ("946", "sfbay"); ("947", "sfbay");
  ("948", "sfbay"); ("949", "sfbay"); ("950", "sfbay"); ("951", "inlandempire");
  ("952", "inlandempire"); ("900", "losangeles"); ("901", "losangeles");
  ("902", "losangeles"); ("903", "losangeles"); ("904", "losangeles");
  ("905", "losangeles"); ("906", "losangeles"); ("907", "losangeles");
  ("908", "losangeles"); ("910", "losangeles"); ("911", "losangeles");
  ("912", "losangeles"); ("913", "losangeles"); ("914", "losangeles");
  ("915", "losangeles"); ("916", "losangeles"); ("917", "losangeles");
  ("918", "losangeles"); ("920", "sandiego"); ("921", "sandiego");
  ("922", "sandiego"); ("958", "sacramento"); ("959", "sacramento");
  ("956", "sacramento"); ("100", "newyork"); ("101", "newyork"); ("102", "newyork");
  ("103", "newyork"); ("104", "newyork"); ("110", "newyork"); ("111", "newyork");
  ("112", "newyork"); ("113", "newyork"); ("114", "newyork"); ("750", "dallas");
  ("751", "dallas"); ("752", "dallas"); ("753", "dallas"); ("770", "houston");
  ("771", "houston"); ("772", "houston"); ("773", "houston"); ("774", "houston");
  ("775", "houston"); ("787", "austin"); ("786", "austin"); ("606", "chicago");
  ("607", "chicago"); ("608", "chicago"); ("600", "chicago"); ("980", "seattle");
  ("981", "seattle"); ("982", "seattle"); ("983", "seattle"); ("984", "seattle");
  ("802", "denver"); ("803", "denver"); ("804", "denver"); ("800", "denver");
  ("801", "denver"); ("021", "boston"); ("022", "boston"); ("020", "boston");
  ("024", "boston"); ("303", "atlanta"); ("300", "atlanta"); ("301", "atlanta");
  ("302", "atlanta"); ("331", "miami"); ("330", "miami"); ("332", "miami");
  ("333", "miami"); ("850", "phoenix"); ("851", "phoenix"); ("852", "phoenix");
  ("853", "phoenix"); ("481", "detroit"); ("482", "detroit"); ("480", "detroit");
  ("483", "detroit"); ("191", "philadelphia"); ("190", "philadelphia");
  ("192", "philadelphia"); ("972", "portland"); ("970", "portland");
  ("971", "portland"); ("973", "portland"); ("554", "minneapolis");
  ("553", "minneapolis"); ("550", "minneapolis"); ("551", "minneapolis")
].

(** In the order of [Object.entries]; the key "default" is an entry too. *)
Definition CATEGORY_MAP : list (string * string) := [
  ("bicycle", "bia"); ("bike", "bia"); ("car", "cta"); ("auto", "cta");
  ("furniture", "fua"); ("electronics", "ela"); ("computer", "sya");
  ("laptop", "sya"); ("phone", "moa"); ("motorcycle", "mca"); ("default", "sss")
].

Record CraigslistListing : Type := {
  externalId : string;
  title : string;
  price : option number;
  url : string;
  description : option string;
  imageUrl : option string;
  imageUrls : list string;
  location : option string;
  postedAt : option string
}.

Definition lookup (table : list (string * string)) (k : string) : option string :=
  match find (fun kv => String.eqb (fst kv) k) table with
  | Some kv => Some (snd kv)
  | None => None
  end.

Definition getRegionFromZipcode (zipcode : string) : string :=
  let prefix3 := substring 0 3 zipcode in
  match lookup ZIP_TO_REGION prefix3 with
  | Some region => region
  | None => "sfbay"
  end.

(** [haystack.includes(needle)]. *)
Fixpoint includes (haystack needle : string) : bool :=
  if prefix needle haystack then true
  else match haystack with
       | EmptyString => false
       | String _ rest => includes rest needle
       end.

Definition getCategoryFromQuery (rt : Builtins) (query : string) : string :=
  let lowerQuery := toLowerCase rt query in
  match find (fun kv => includes lowerQuery (fst kv)) CATEGORY_MAP with
  | Some kv => snd kv
  | None => "sss"
  end.

(** The [options] argument; every field may be absent. *)
Record Options : Type := {
  minPrice : option number;
  maxPrice : option number;
  radius : option number;
  limit : option nat
}.

(** Truthiness of an optional number ([undefined], [0] and [NaN] are falsy). *)
Definition given (n : option number) : bool :=
  match n with
  | Some x => truthy (Num x)
  | None => false
  end.

(** [params.set(k, v)] of URLSearchParams. *)
Fixpoint params_set (k v : string) (params : list (string * string))
  : list (string * string) :=
  match params with
  | [] => [(k, v)]
  | (k', v') :: rest =>
      if String.eqb k' k
      then (k, v) :: filter (fun kv => negb (String.eqb (fst kv) k)) rest
      else (k', v') :: params_set k v rest
  end.

Definition has_param (k : string) (params : list (string * string)) : bool :=
  existsb (fun kv => String.eqb (fst kv) k) params.

Section WithBuiltins.
Variable rt : Builtins.

(** The URLSearchParams object of [buildSearchUrl] when it is serialised. *)
Definition searchParams (query zipcode : string) (options : option Options)
  : list (string * string) :=
  let distance := match options with
                  | Some {| radius := Some r |} =>
                      if truthy (Num r) then r else Fin 25
                  | _ => Fin 25
                  end in
  let params := [
    ("query", query);
    ("postal", zipcode);
    ("search_distance", NumberToString rt distance);
    ("sort", "date");
    ("postedToday", "1")
  ] in
  let params :=
    match options with
    | Some {| minPrice := Some lo |} =>
        if truthy (Num lo)
        then params_set "min_price" (NumberToString rt lo) params
        else params
    | _ => params
    end in
  match options with
  | Some {| maxPrice := Some hi |} =>
      if truthy (Num hi)
      then params_set "max_price" (NumberToString rt hi) params
      else params
  | _ => params
  end.

Definition buildSearchUrl (query zipcode : string) (options : option Options)
  : string :=
  let region := getRegionFromZipcode zipcode in
  let category := getCategoryFromQuery rt query in
  "https://" ++ region ++ ".craigslist.org/search/" ++ category ++ "?"
    ++ URLSearchParams_toString rt (searchParams query zipcode options).
End WithBuiltins.

(** [url.match(/\/(\d+)\.html/)]: the first slash followed by a run of
    digits and then [.html]. *)
Definition is_digit (c : ascii) : bool :=
  let n := nat_of_ascii c in (48 <=? n)%nat && (n <=? 57)%nat.

Fixpoint span_digits (s : string) : string * string :=
  match s with
  | EmptyString => (EmptyString, EmptyString)
  | String c rest =>
      if is_digit c
      then let (ds, after) := span_digits rest in (String c ds, after)
      else (EmptyString, s)
  end.

Fixpoint match_listing_id (s : string) : option string :=
  match s with
  | EmptyString => None
  | String c rest =>
      if Ascii.eqb c "/" then
        let (ds, after) := span_digits rest in
        if negb (String.eqb ds "") && prefix ".html" after
        then Some ds
        else match_listing_id rest
      else match_listing_id rest
  end.

Definition extractListingId (url : string) : string :=
  match match_listing_id url with
  | Some id => id
  | None => url
  end.

(** One row of the results page, as the callback of [$$eval] returns it.
    [price] is [None] for [null], and else what [parseInt] gave: a whole
    number, NaN (no digit among the commas) or an infinity (too many
    digits for a double). *)
Record BasicListing : Type := {
  b_url : string;
  b_title : string;
  b_price : option number;
  b_imageUrl : option string;
  b_location : option string;
  b_dateStr : option string
}.

Record Details : Type := {
  d_description : string;
  d_imageUrls : list string
}.

(** The browser: what each Playwright call answers.  [search_rows] is the
    callback of [$$eval] mapped over all the rows of the results page
    (the cut to [limit] rows is made by the caller); [posting] is the
    visit of a detail page with its two extractions. *)
Record Playwright : Type := {
  launch : outcome unit;
  browser_close : outcome unit;
  newContext : outcome unit;
  newPage : outcome unit;
  context_close : outcome unit;
  goto : string -> outcome unit;
  waitForSelector : string -> outcome unit;
  search_rows : string -> outcome (list BasicListing);
  posting : string -> outcome Details
}.

Definition nonempty (s : option string) : option string :=
  match s with
  | Some x => if String.eqb x "" then None else Some x
  | None => None
  end.

Section WithBrowser.
Variable rt : Builtins.
Variable pw : Playwright.

(** The module variable [browserInstance] is the state: [true] when a
    browser is held. *)
Definition getBrowser (browserInstance : bool) : outcome unit * bool :=
  if negb browserInstance then
    match launch pw with
    | Returned _ => (Returned tt, true)
    | Threw e => (Threw e, browserInstance)
    end
  else (Returned tt, browserInstance).

Definition closeBrowser (browserInstance : bool) : outcome unit * bool :=
  if browserInstance then
    match browser_close pw with
    | Returned _ => (Returned tt, false)
    | Threw e => (Threw e, browserInstance)
    end
  else (Returned tt, browserInstance).

Definition fetchListingDetails (listingUrl : string) : Details :=
  match posting pw listingUrl with
  | Returned details => details
  | Threw _ => {| d_description := ""; d_imageUrls := [] |}
  end.

(** The loop over the first ten rows. *)
Fixpoint collect (zipcode : string) (rows : list BasicListing)
  : list CraigslistListing :=
  match rows with
  | [] => []
  | basic :: rest =>
      if String.eqb (b_url basic) "" || String.eqb (b_title basic) ""
      then collect zipcode rest
      else
        let fullUrl :=
          if prefix "http" (b_url basic) then b_url basic
          else "https://" ++ getRegionFromZipcode zipcode
               ++ ".craigslist.org" ++ b_url basic in
        let details := fetchListingDetails fullUrl in
        {| externalId := extractListingId (b_url basic);
           title := b_title basic;
           price := match b_price basic with
                    | Some p => if truthy (Num p)
                                then Some (times p (Fin 100))
                                else None
                    | None => None
                    end;
           url := fullUrl;
           description := nonempty (Some (d_description details));
           imageUrl := match nonempty (b_imageUrl basic) with
                       | Some u => Some u
                       | None => nonempty (hd_error (d_imageUrls details))
                       end;
           imageUrls := d_imageUrls details;
           location := b_location basic;
           postedAt := nonempty (b_dateStr basic) |}
        :: collect zipcode rest
  end.

Definition results_selector : string :=
  ".cl-search-result, .result-row, li.cl-static-search-result".

(** The body of the [try] block. *)
Definition try_fetch (searchUrl zipcode : string) (limit' : nat)
  : outcome (list CraigslistListing) :=
  match goto pw searchUrl with
  | Threw e => Threw e
  | Returned _ =>
      match waitForSelector pw results_selector with
      | Threw e => Threw e
      | Returned _ =>
          match search_rows pw results_selector with
          | Threw e => Threw e
          | Returned rows =>
              let basicListings := firstn limit' rows in
              Returned
                (collect zipcode
                   (firstn (Nat.min 10 (List.length basicListings)) basicListings))
          end
      end
  end.

Definition fetchCraigslistListings (query zipcode : string)
  (options : option Options) (browserInstance : bool)
  : outcome (list CraigslistListing) * bool :=
  let searchUrl := buildSearchUrl rt query zipcode options in
  let limit' := match options with
                | Some {| limit := Some (S n) |} => S n
                | _ => 20%nat
                end in
  match getBrowser browserInstance with
  | (Threw e, b) => (Threw e, b)
  | (Returned _, b) =>
      match newContext pw with
      | Threw e => (Threw e, b)
      | Returned _ =>
          match newPage pw with
          | Threw e => (Threw e, b)
          | Returned _ =>
              let result :=
                match try_fetch searchUrl zipcode limit' with
                | Returned listings => Returned listings
                | Threw _ => Returned []
                end in
              (* finally *)
              match context_close pw with
              | Returned _ => (result, b)
              | Threw e => (Threw e, b)
              end
          end
      end
  end.
End WithBrowser.

(** A bound is absent or is [zero]. *)
Definition no_bound {A : Type} (zero : A) (bound : option A) : Prop :=
  bound = None \/ bound = Some zero.

(** The browser session can be had and released: a browser is held or can
    be launched, a context and a page can be opened, and the context can
    be closed.  These four calls are made outside the [try] block. *)
Definition session_available (pw : Playwright) (browserInstance : bool) : Prop :=
  (browserInstance = true \/ succeeds (launch pw))
  /\ succeeds (newContext pw)
  /\ succeeds (newPage pw)
  /\ succeeds (context_close pw).

(** The search page is not reached: the navigation or the wait for the
    results throws. *)
Definition search_page_unreachable (pw : Playwright) (searchUrl : string) : Prop :=
  throws (goto pw searchUrl) \/ throws (waitForSelector pw results_selector).

(** The statement that an unreachable search page gives the caller the
    empty list, and no exception. *)
Definition unreachable_page_gives_empty_list (rt : Builtins) (pw : Playwright)
  (query zipcode : string) (options : option Options) (browserInstance : bool)
  : Prop :=
  search_page_unreachable pw (buildSearchUrl rt query zipcode options) ->
  fst (fetchCraigslistListings rt pw query zipcode options browserInstance)
  = Returned [].

End Craigslist.

(* ================================================================== *)
(** ** The notifier (src/lib/email.ts) *)
(* ================================================================== *)

Module Email.
Import JS.

Record DealAlert : Type := {
  title : string;
  price : option number;
  url : string;
  dealScore : number;
  reasoning : value;
  imageUrl : option string;
  identifiedProduct : value;
  retailPriceRange : value;
  condition : value;
  marketComparison : value
}.

Record AlertEmailParams : Type := {
  recipientEmail : string;
  recipientName : option string;
  searchQuery : string;
  zipcode : string;
  deals : list DealAlert
}.

(** The mail service: the credential of the environment, and what
    [resend.emails.send] answers for a digest (its subject and HTML are
    rendered from the parameters): the [error] field of the reply, or a
    rejection. *)
Record Resend : Type := {
  RESEND_API_KEY : option string;
  send : AlertEmailParams -> outcome (option string)
}.

Definition sendDealAlertEmail (mail : Resend) (params : AlertEmailParams) : bool :=
  match RESEND_API_KEY mail with
  | None => false
  | Some apiKey =>
      if String.eqb apiKey "" then false
      else match send mail params with
           | Returned (Some error) => false
           | Returned None => true
           | Threw _ => false
           end
  end.

End Email.

(* ================================================================== *)
(** ** The store (prisma schema) *)
(* ================================================================== *)

Module User.
Record t : Type := {
  id : string;
  email : string;
  name : option string;
  createdAt : Z;
  updatedAt : Z
}.
End User.

Module Search.
(** The columns of the table, and [user] for the row that
    [include: { user: true }] joins.  [updatedAt] is kept by the store:
    no call of the repository gives it a value, and every [update] of a
    row stamps it. *)
Record t : Type := {
  id : string;
  userId : string;
  query : string;
  zipcode : string;
  maxPrice : option Z;
  minPrice : option Z;
  isActive : bool;
  lastChecked : option Z;
  preferences : option string;
  createdAt : Z;
  updatedAt : Z;
  user : User.t
}.

Definition set_lastChecked (now : Z) (s : t) : t :=
  {| id := id s; userId := userId s; query := query s; zipcode := zipcode s;
     maxPrice := maxPrice s; minPrice := minPrice s; isActive := isActive s;
     lastChecked := Some now; preferences := preferences s;
     createdAt := createdAt s; updatedAt := updatedAt s; user := user s |}.

Definition set_updatedAt (stamp : Z) (s : t) : t :=
  {| id := id s; userId := userId s; query := query s; zipcode := zipcode s;
     maxPrice := maxPrice s; minPrice := minPrice s; isActive := isActive s;
     lastChecked := lastChecked s; preferences := preferences s;
     createdAt := createdAt s; updatedAt := stamp; user := user s |}.
End Search.

Module Listing.
Import JS.

(** The columns that [create] is given; [id] is the primary key. *)
Record t : Type := {
  id : nat;
  searchId : string;
  externalId : string;
  title : string;
  price : option number;
  url : string;
  description : option string;
  imageUrl : option string;
  location : option string;
  postedAt : option string;
  dealScore : number;
  dealReason : string;
  isGoodDeal : bool;
  alertSent : bool;
  identifiedProduct : value;
  retailPriceLow : value;
  retailPriceHigh : value;
  condition : value
}.

Definition set_alertSent (b : bool) (l : t) : t :=
  {| id := id l; searchId := searchId l; externalId := externalId l;
     title := title l; price := price l; url := url l;
     description := description l; imageUrl := imageUrl l;
     location := location l; postedAt := postedAt l;
     dealScore := dealScore l; dealReason := dealReason l;
     isGoodDeal := isGoodDeal l; alertSent := b;
     identifiedProduct := identifiedProduct l;
     retailPriceLow := retailPriceLow l; retailPriceHigh := retailPriceHigh l;
     condition := condition l |}.

Definition set_id (n : nat) (l : t) : t :=
  {| id := n; searchId := searchId l; externalId := externalId l;
     title := title l; price := price l; url := url l;
     description := description l; imageUrl := imageUrl l;
     location := location l; postedAt := postedAt l;
     dealScore := dealScore l; dealReason := dealReason l;
     isGoodDeal := isGoodDeal l; alertSent := alertSent l;
     identifiedProduct := identifiedProduct l;
     retailPriceLow := retailPriceLow l; retailPriceHigh := retailPriceHigh l;
     condition := condition l |}.

(** The unique index [Listing_searchId_externalId_key]. *)
Definition key (l : t) : string * string := (searchId l, externalId l).

Definition has_key (sid ext : string) (l : t) : bool :=
  String.eqb (searchId l) sid && String.eqb (externalId l) ext.
End Listing.

(* ================================================================== *)
(** ** The scan orchestrator (src/lib/scheduler.ts) *)
(* ================================================================== *)

Module Scheduler.
Import JS.

(** The outside world of one invocation.  Every external call is numbered
    in the order the program makes it; what a call answers may depend on
    its number, so two calls with the same arguments may differ.
    [Date_now] is the clock of the program ([new Date()]) and
    [prisma_now] the clock the store stamps [updatedAt] with. *)
Record Env : Type := {
  GEMINI_API_KEY : option string;
  builtins : Builtins;
  gemini : nat -> Evaluator.Gemini;
  playwright : nat -> Craigslist.Playwright;
  resend : nat -> Email.Resend;
  prisma_fails : nat -> bool;
  Date_now : nat -> Z;
  prisma_now : nat -> Z
}.

(** The state the program reads and writes: the two tables, the browser
    singleton of craigslist.ts, the number of external calls made, and two
    traces: the keys of the listings sent to the model, and the digests
    the mail service accepted. *)
Record State : Type := {
  searches : list Search.t;
  listings : list Listing.t;
  browserInstance : bool;
  calls : nat;
  evaluated : list (string * string);
  outbox : list Email.AlertEmailParams
}.

Definition tick (st : State) : State :=
  {| searches := searches st; listings := listings st;
     browserInstance := browserInstance st; calls := S (calls st);
     evaluated := evaluated st; outbox := outbox st |}.

Definition with_searches (ss : list Search.t) (st : State) : State :=
  {| searches := ss; listings := listings st;
     browserInstance := browserInstance st; calls := calls st;
     evaluated := evaluated st; outbox := outbox st |}.

Definition with_listings (ls : list Listing.t) (st : State) : State :=
  {| searches := searches st; listings := ls;
     browserInstance := browserInstance st; calls := calls st;
     evaluated := evaluated st; outbox := outbox st |}.

Definition with_browser (b : bool) (st : State) : State :=
  {| searches := searches st; listings := listings st;
     browserInstance := b; calls := calls st;
     evaluated := evaluated st; outbox := outbox st |}.

Definition with_evaluated (k : string * string) (st : State) : State :=
  {| searches := searches st; listings := listings st;
     browserInstance := browserInstance st; calls := calls st;
     evaluated := evaluated st ++ [k]; outbox := outbox st |}.

Definition with_sent (m : Email.AlertEmailParams) (st : State) : State :=
  {| searches := searches st; listings := listings st;
     browserInstance := browserInstance st; calls := calls st;
     evaluated := evaluated st; outbox := outbox st ++ [m] |}.

Record Counts : Type := {
  newListings : nat;
  goodDeals : nat;
  alertsSent : nat
}.

Record Summary : Type := {
  searchesProcessed : nat;
  totalNewListings : nat;
  totalGoodDeals : nat;
  totalAlertsSent : nat
}.

Definition no_counts : Counts :=
  {| newListings := 0; goodDeals := 0; alertsSent := 0 |}.

(** An async function: it runs on a state and either returns or throws,
    leaving the state as it was when it stopped. *)
Definition M (A : Type) : Type := State -> outcome A * State.

Definition ret {A : Type} (a : A) : M A := fun st => (Returned a, st).

Definition bind {A B : Type} (c : M A) (k : A -> M B) : M B :=
  fun st =>
    match c st with
    | (Returned a, st') => k a st'
    | (Threw e, st') => (Threw e, st')
    end.

Notation "x <- c ;; k" := (bind c (fun x => k))
  (at level 61, c at next level, right associativity).

(** The accumulators of the loop over the candidates. *)
Record Acc : Type := {
  new_count : nat;
  good_count : nat;
  dealsToAlert : list Email.DealAlert
}.

(** [newListings = 0], [goodDeals = 0], [dealsToAlert = []]. *)
Definition start : Acc := {| new_count := 0; good_count := 0; dealsToAlert := [] |}.

(** [where: { searchId, isGoodDeal: true, alertSent: false }]. *)
Definition to_mark (sid : string) (l : Listing.t) : bool :=
  String.eqb (Listing.searchId l) sid && Listing.isGoodDeal l
  && negb (Listing.alertSent l).

Definition mark_alerted (sid : string) (l : Listing.t) : Listing.t :=
  if to_mark sid l then Listing.set_alertSent true l else l.

(** [update({ where: { id }, data: { lastChecked } })] on one row: the row
    gets the [lastChecked] it is given, and the store stamps [updatedAt]. *)
Definition touch (id : string) (now stamp : Z) (s : Search.t) : Search.t :=
  if String.eqb (Search.id s) id
  then Search.set_updatedAt stamp (Search.set_lastChecked now s)
  else s.

(** The argument of [sendDealAlertEmail]. *)
Definition digest (search : Search.t) (deals : list Email.DealAlert)
  : Email.AlertEmailParams :=
  {| Email.recipientEmail := User.email (Search.user search);
     Email.recipientName := User.name (Search.user search);
     Email.searchQuery := Search.query search;
     Email.zipcode := Search.zipcode search;
     Email.deals := deals |}.

(** [minPrice: search.minPrice ? search.minPrice / 100 : undefined]; the
    quotient is rounded to a double. *)
Definition dollars (cents : option Z) : option number :=
  match cents with
  | Some c => if (c =? 0)%Z then None else Some (to_double (inject_Z c / 100))
  | None => None
  end.

(** The options object [processSearch] gives to the adapter. *)
Definition scan_options (search : Search.t) : Craigslist.Options :=
  {| Craigslist.minPrice := dollars (Search.minPrice search);
     Craigslist.maxPrice := dollars (Search.maxPrice search);
     Craigslist.radius := None;
     Craigslist.limit := Some 15%nat |}.

Section WithEnv.
Variable env : Env.

(** *** Prisma calls.  Any of them may reject. *)

Definition prisma {A : Type} (query : State -> outcome A * State) : M A :=
  fun st =>
    if prisma_fails env (calls st)
    then (Threw "PrismaClientError", tick st)
    else query (tick st).

Definition search_findUnique (id : string) : M (option Search.t) :=
  prisma (fun st =>
    (Returned (find (fun s => String.eqb (Search.id s) id) (searches st)), st)).

Definition search_findMany_active : M (list Search.t) :=
  prisma (fun st => (Returned (filter Search.isActive (searches st)), st)).

Definition search_update_lastChecked (id : string) : M unit :=
  fun st0 =>
    prisma (fun st =>
      if existsb (fun s => String.eqb (Search.id s) id) (searches st)
      then (Returned tt,
            with_searches
              (map (touch id (Date_now env (calls st0)) (prisma_now env (calls st0)))
                 (searches st)) st)
      else (Threw "Record to update not found", st)) st0.

Definition listing_findUnique (searchId externalId : string)
  : M (option Listing.t) :=
  prisma (fun st =>
    (Returned (find (Listing.has_key searchId externalId) (listings st)), st)).

Definition listing_create (data : Listing.t) : M Listing.t :=
  prisma (fun st =>
    if existsb (Listing.has_key (Listing.searchId data) (Listing.externalId data))
         (listings st)
    then (Threw "Unique constraint failed", st)
    else
      let row := Listing.set_id (calls st) data in
      (Returned row, with_listings (listings st ++ [row]) st)).

Definition listing_updateMany_alertSent (searchId : string) : M unit :=
  prisma (fun st =>
    (Returned tt, with_listings (map (mark_alerted searchId) (listings st)) st)).

(** *** The other collaborators *)

Definition fetchCraigslistListings (query zipcode : string)
  (options : option Craigslist.Options) : M (list Craigslist.CraigslistListing) :=
  fun st =>
    let (r, b) :=
      Craigslist.fetchCraigslistListings (builtins env) (playwright env (calls st))
        query zipcode options (browserInstance st) in
    (r, with_browser b (tick st)).

Definition closeBrowser : M unit :=
  fun st =>
    let (r, b) :=
      Craigslist.closeBrowser (playwright env (calls st)) (browserInstance st) in
    (r, with_browser b (tick st)).

Definition evaluateListing (k : string * string)
  (listing : Evaluator.ListingForEvaluation) (apiKey : string)
  : M Evaluator.DealEvaluation :=
  fun st =>
    (Evaluator.evaluateListing (gemini env (calls st)) listing apiKey,
     with_evaluated k (tick st)).

Definition sendDealAlertEmail (params : Email.AlertEmailParams) : M bool :=
  fun st =>
    let emailSent := Email.sendDealAlertEmail (resend env (calls st)) params in
    (Returned emailSent,
     if emailSent then with_sent params (tick st) else tick st).

(** *** processSearch *)

Definition listing_data (search : Search.t)
  (listing : Craigslist.CraigslistListing)
  (evaluation : Evaluator.DealEvaluation) : Listing.t :=
  let dealReason :=
    join (builtins env) " "
      (filter truthy [Evaluator.reasoning evaluation;
                      Evaluator.marketComparison evaluation]) in
  {| Listing.id := 0;
     Listing.searchId := Search.id search;
     Listing.externalId := Craigslist.externalId listing;
     Listing.title := Craigslist.title listing;
     Listing.price := Craigslist.price listing;
     Listing.url := Craigslist.url listing;
     Listing.description := Craigslist.description listing;
     Listing.imageUrl := Craigslist.imageUrl listing;
     Listing.location := Craigslist.location listing;
     Listing.postedAt := Craigslist.postedAt listing;
     Listing.dealScore := Evaluator.score evaluation;
     Listing.dealReason := dealReason;
     Listing.isGoodDeal := Evaluator.isGoodDeal evaluation;
     Listing.alertSent := false;
     Listing.identifiedProduct := Evaluator.identifiedProduct evaluation;
     Listing.retailPriceLow :=
       or_else (member (Evaluator.retailPriceRange evaluation) "low") Null;
     Listing.retailPriceHigh :=
       or_else (member (Evaluator.retailPriceRange evaluation) "high") Null;
     Listing.condition := Evaluator.condition evaluation |}.

Definition deal_alert (savedListing : Listing.t)
  (evaluation : Evaluator.DealEvaluation) : Email.DealAlert :=
  {| Email.title := Listing.title savedListing;
     Email.price := Listing.price savedListing;
     Email.url := Listing.url savedListing;
     Email.dealScore := Listing.dealScore savedListing;
     Email.reasoning := Evaluator.reasoning evaluation;
     Email.imageUrl := Listing.imageUrl savedListing;
     Email.identifiedProduct := Evaluator.identifiedProduct evaluation;
     Email.retailPriceRange := Evaluator.retailPriceRange evaluation;
     Email.condition := Evaluator.condition evaluation;
     Email.marketComparison := Evaluator.marketComparison evaluation |}.

Definition for_evaluation (search : Search.t)
  (listing : Craigslist.CraigslistListing) : Evaluator.ListingForEvaluation :=
  {| Evaluator.title := Craigslist.title listing;
     Evaluator.price := Craigslist.price listing;
     Evaluator.description := Craigslist.description listing;
     Evaluator.imageUrls := Craigslist.imageUrls listing;
     Evaluator.query := Search.query search;
     Evaluator.preferences := Craigslist.nonempty (Search.preferences search) |}.

(** [newListings++], and for a good deal [goodDeals++] and the push on
    [dealsToAlert]. *)
Definition tally (acc : Acc) (savedListing : Listing.t)
  (evaluation : Evaluator.DealEvaluation) : Acc :=
  if Listing.isGoodDeal savedListing
  then {| new_count := S (new_count acc);
          good_count := S (good_count acc);
          dealsToAlert := dealsToAlert acc ++ [deal_alert savedListing evaluation] |}
  else {| new_count := S (new_count acc);
          good_count := good_count acc;
          dealsToAlert := dealsToAlert acc |}.

(** The [for] loop over the candidates (the pause after each evaluation
    has no effect on the state). *)
Fixpoint scan (search : Search.t) (apiKey : string)
  (candidates : list Craigslist.CraigslistListing) (acc : Acc) : M Acc :=
  match candidates with
  | [] => ret acc
  | listing :: rest =>
      existingListing <-
        listing_findUnique (Search.id search) (Craigslist.externalId listing) ;;
      match existingListing with
      | Some _ => scan search apiKey rest acc
      | None =>
          evaluation <-
            evaluateListing (Search.id search, Craigslist.externalId listing)
              (for_evaluation search listing) apiKey ;;
          savedListing <- listing_create (listing_data search listing evaluation) ;;
          scan search apiKey rest (tally acc savedListing evaluation)
      end
  end.

(** The part of [processSearch] after the loop. *)
Definition finish (search : Search.t) (acc : Acc) : M Counts :=
  _ <- search_update_lastChecked (Search.id search) ;;
  alertsSent' <-
    match dealsToAlert acc with
    | [] => ret 0%nat
    | _ :: _ =>
        emailSent <- sendDealAlertEmail (digest search (dealsToAlert acc)) ;;
        if (emailSent : bool) then
          _ <- listing_updateMany_alertSent (Search.id search) ;;
          ret (List.length (dealsToAlert acc))
        else ret 0%nat
    end ;;
  ret {| newListings := new_count acc;
         goodDeals := good_count acc;
         alertsSent := alertsSent' |}.

Definition processSearch (searchId : string) : M Counts :=
  found <- search_findUnique searchId ;;
  match found with
  | None => ret no_counts
  | Some search =>
      if negb (Search.isActive search) then ret no_counts
      else
        candidates <-
          fetchCraigslistListings (Search.query search) (Search.zipcode search)
            (Some (scan_options search)) ;;
        match GEMINI_API_KEY env with
        | None => ret no_counts
        | Some apiKey =>
            if String.eqb apiKey "" then ret no_counts
            else
              acc <- scan search apiKey candidates start ;;
              finish search acc
        end
  end.

(** *** processAllSearches *)

Definition add_counts (totals : Counts) (result : Counts) : Counts :=
  {| newListings := newListings totals + newListings result;
     goodDeals := goodDeals totals + goodDeals result;
     alertsSent := alertsSent totals + alertsSent result |}.

(** The loop over the active searches, with its inner [try]/[catch]
    (the pause between searches has no effect on the state). *)
Fixpoint sweep (activeSearches : list Search.t) (totals : Counts) : M Counts :=
  match activeSearches with
  | [] => ret totals
  | search :: rest =>
      fun st =>
        match processSearch (Search.id search) st with
        | (Returned result, st') => sweep rest (add_counts totals result) st'
        | (Threw _, st') => sweep rest totals st'
        end
  end.

Definition processAllSearches : M Summary :=
  activeSearches <- search_findMany_active ;;
  fun st =>
    let (body, st') := sweep activeSearches no_counts st in
    (* finally *)
    match closeBrowser st' with
    | (Threw e, st'') => (Threw e, st'')
    | (Returned _, st'') =>
        match body with
        | Threw e => (Threw e, st'')
        | Returned totals =>
            (Returned {| searchesProcessed := List.length activeSearches;
                         totalNewListings := newListings totals;
                         totalGoodDeals := goodDeals totals;
                         totalAlertsSent := alertsSent totals |}, st'')
        end
    end.

End WithEnv.

End Scheduler.

(* ================================================================== *)
(** ** The abuse-prevention layer (src/lib/security.ts) *)
(* ================================================================== *)

Module Security.

(** Counts and times in milliseconds are integers, far below 2^53. *)
Record RateLimitEntry : Type := {
count : Z;
resetTime : Z
}.

Record RateLimitConfig : Type := {
maxRequests : Z;
windowMs : Z
}.

Record RateLimitResult : Type := {
allowed : bool;
remaining : Z;
resetIn : Z
}.

(** The Map [rateLimitStore], with its keys in insertion order. *)
Definition Store : Type := list (string * RateLimitEntry).

Fixpoint Map_get (store : Store) (k : string) : option RateLimitEntry :=
match store with
| [] => None
| (k', v) :: rest => if String.eqb k' k then Some v else Map_get rest k
end.

Fixpoint Map_set (store : Store) (k : string) (v : RateLimitEntry) : Store :=
match store with
| [] => [(k, v)]
| (k', v') :: rest =>
    if String.eqb k' k then (k, v) :: rest else (k', v') :: Map_set rest k v
end.

(** [Math.ceil(x / 1000)] for an integer [x]. *)
Definition ceil_seconds (x : Z) : Z := (- ((- x) / 1000))%Z.

(** [checkRateLimit] at the time [now] ([Date.now()]).  The increment
  [entry.count++] updates the entry held by the Map. *)
Definition checkRateLimit (now : Z) (identifier : string) (config : RateLimitConfig)
(store : Store) : RateLimitResult * Store :=
let first_of_window :=
  ({| allowed := true;
      remaining := (maxRequests config - 1)%Z;
      resetIn := ceil_seconds (windowMs config) |},
   Map_set store identifier
     {| count := 1; resetTime := (now + windowMs config)%Z |}) in
match Map_get store identifier with
| None => first_of_window
| Some entry =>
    if (resetTime entry <? now)%Z then first_of_window
    else if (maxRequests config <=? count entry)%Z then
      ({| allowed := false;
          remaining := 0;
          resetIn := ceil_seconds (resetTime entry - now) |}, store)
    else
      let entry' := {| count := (count entry + 1)%Z; resetTime := resetTime entry |} in
      ({| allowed := true;
          remaining := (maxRequests config - count entry')%Z;
          resetIn := ceil_seconds (resetTime entry' - now) |},
       Map_set store identifier entry')
end.

(** The callback of [setInterval]: entries whose window is over are deleted. *)
Definition cleanup (now : Z) (store : Store) : Store :=
filter (fun kv => negb (resetTime (snd kv) <? now)%Z) store.

Definition RATE_LIMITS_chat : RateLimitConfig :=
{| maxRequests := 30; windowMs := 60 * 1000 |}.
Definition RATE_LIMITS_scan : RateLimitConfig :=
{| maxRequests := 5; windowMs := 60 * 60 * 1000 |}.
Definition RATE_LIMITS_createAlert : RateLimitConfig :=
{| maxRequests := 10; windowMs := 60 * 60 * 1000 |}.
Definition RATE_LIMITS_search : RateLimitConfig :=
{| maxRequests := 60; windowMs := 60 * 1000 |}.

(** [/^\d{5}(-\d{4})?$/.test(zipcode)]. *)
Fixpoint digits_only (s : string) : bool :=
match s with
| EmptyString => true
| String c rest => Craigslist.is_digit c && digits_only rest
end.

Definition isValidZipcode (zipcode : string) : bool :=
let five := substring 0 5 zipcode in
let rest := substring 5 (String.length zipcode - 5) zipcode in
(String.length five =? 5)%nat && digits_only five
&& (String.eqb rest ""
    || (prefix "-" rest && (String.length rest =? 5)%nat
        && digits_only (substring 1 4 rest))).

(** The patterns of [isSuspiciousRequest]; each is matched without regard
  to (ASCII) case. *)
Definition botPatterns : list string :=
["bot"; "spider"; "crawler"; "scraper"; "curl"; "wget"; "python-requests"].

(** [isSuspiciousRequest], on the value of the user-agent header. *)
Definition isSuspiciousRequest (user_agent : option string) : bool :=
let userAgent := match user_agent with Some ua => ua | None => "" end in
if String.eqb userAgent "" || (String.length userAgent <? 10)%nat then true
else if existsb (fun p => Craigslist.includes (JS.fold_case userAgent) p)
          botPatterns
        && negb (Craigslist.includes userAgent "Googlebot")
     then true
     else false.

End Security.

(* ================================================================== *)
(** ** The cron endpoint (src/app/api/cron/route.ts) *)
(* ================================================================== *)

Module Cron.
Import Scheduler.

(** The two headers the handler reads ([null] when absent). *)
Record Request : Type := {
authorization : option string;
x_vercel_cron : option string
}.

(** The environment variables the handler reads. *)
Record Vars : Type := {
CRON_SECRET : option string;
NODE_ENV : option string
}.

(** The JSON responses, by status: 401, 200 with the summary of the sweep,
  500 with the error. *)
Inductive Response : Type :=
| Unauthorized
| Success (result : Summary)
| ScanFailed (message : string).

Definition set (v : option string) : bool :=
match v with
| Some s => negb (String.eqb s "")
| None => false
end.

Definition GET (vars : Vars) (env : Env) (request : Request) : M Response :=
let authHeader := authorization request in
let cronSecret := CRON_SECRET vars in
if set cronSecret
   && negb match authHeader, cronSecret with
           | Some h, Some secret => String.eqb h ("Bearer " ++ secret)
           | _, _ => false
           end
then ret Unauthorized
else
  let vercelCronHeader := x_vercel_cron request in
  if negb (set cronSecret) && negb (set vercelCronHeader)
     && match NODE_ENV vars with
        | Some mode => String.eqb mode "production"
        | None => false
        end
  then ret Unauthorized
  else
    fun st =>
      match processAllSearches env st with
      | (Returned result, st') => (Returned (Success result), st')
      | (Threw error, st') => (Returned (ScanFailed error), st')
      end.

(** [POST] calls [GET]. *)
Definition POST (vars : Vars) (env : Env) (request : Request) : M Response :=
GET vars env request.

End Cron.

(* ================================================================== *)
(** ** What a scan does to the state, and the statements examined *)
(* ================================================================== *)

Module Spec.
Import Scheduler.

(** What [evaluateListing] returns: the processed reply, or the fallback. *)
Definition assessment (ai : Evaluator.Gemini)
  (listing : Evaluator.ListingForEvaluation) (apiKey : string)
  : Evaluator.DealEvaluation :=
  match Evaluator.parsed_reply ai listing apiKey with
  | Returned props => Evaluator.post_process ai props
  | Threw _ => Evaluator.fallback
  end.

Definition keys (st : State) : list (string * string) :=
  map Listing.key (listings st).

(** The state after a call, and what the call gave. *)
Definition after {A : Type} (c : M A) (st : State) : State := snd (c st).
Definition result {A : Type} (c : M A) (st : State) : outcome A := fst (c st).

(** [st'] comes from [st] by inserting the rows [created], all of search
    [sid] and unsent, after sending the keys [sent] to the model; nothing
    else moved.  Every key sent was absent from the table and was sent
    once; the rows created are those evaluated, in order, except perhaps
    the last evaluation (when the insertion that follows it throws). *)
Definition grows (sid : string) (st st' : State)
  (created : list Listing.t) (sent : list (string * string)) : Prop :=
  listings st' = (listings st ++ created)%list
  /\ evaluated st' = (evaluated st ++ sent)%list
  /\ searches st' = searches st
  /\ outbox st' = outbox st
  /\ browserInstance st' = browserInstance st
  /\ Forall (fun l => Listing.searchId l = sid /\ Listing.alertSent l = false) created
  /\ NoDup sent
  /\ (forall k, In k sent -> fst k = sid /\ ~ In k (keys st))
  /\ (exists last, sent = (map Listing.key created ++ last)%list).

(** One invocation of [processSearch] on [st], which gave [r] and left
    [st']: it inserted the rows [created] after sending the keys [sent] to
    the model, and then either left the alert flags alone or ran the bulk
    update.  When it returned, its counts are those of the rows created. *)
Definition scanned (sid : string) (st : State) (r : outcome Counts) (st' : State)
  (created : list Listing.t) (sent : list (string * string)) : Prop :=
  (listings st' = (listings st ++ created)%list
   \/ listings st' = map (mark_alerted sid) (listings st ++ created))
  /\ evaluated st' = (evaluated st ++ sent)%list
  /\ Forall (fun l => Listing.searchId l = sid /\ Listing.alertSent l = false) created
  /\ NoDup sent
  /\ (forall k, In k sent -> fst k = sid /\ ~ In k (keys st))
  /\ (exists last, sent = (map Listing.key created ++ last)%list)
  /\ (forall counts,
        r = Returned counts ->
        sent = map Listing.key created
        /\ newListings counts = List.length created
        /\ goodDeals counts = List.length (filter Listing.isGoodDeal created)
        /\ (alertsSent counts = 0%nat
            \/ alertsSent counts = List.length (filter Listing.isGoodDeal created))
        /\ (alertsSent counts <> 0%nat ->
            listings st' = map (mark_alerted sid) (listings st ++ created))).

(** The accumulators after the loop, from those before it and the rows it
    created. *)
Definition accumulates (acc acc' : Acc) (created : list Listing.t) : Prop :=
  new_count acc' = (new_count acc + List.length created)%nat
  /\ good_count acc' = (good_count acc + List.length (filter Listing.isGoodDeal created))%nat
  /\ List.length (dealsToAlert acc')
     = (List.length (dealsToAlert acc) + List.length (filter Listing.isGoodDeal created))%nat.

(** The counts returned after the loop, with [sent] alerts. *)
Definition counted (acc : Acc) (sent : nat) : Counts :=
  {| newListings := new_count acc; goodDeals := good_count acc; alertsSent := sent |}.

(** The row of the search [sid] in the table, if any. *)
Definition search_row (sid : string) (st : State) : option Search.t :=
  find (fun s => String.eqb (Search.id s) sid) (searches st).

(** Every active search is attempted, in order, each from the state its
    predecessor left, whether or not an earlier attempt threw. *)
Fixpoint attempts (env : Env) (ids : list string) (st : State)
  : list (outcome Counts) * State :=
  match ids with
  | [] => ([], st)
  | id :: rest =>
      let (r, st1) := processSearch env id st in
      let (rs, st2) := attempts env rest st1 in
      (r :: rs, st2)
  end.

(** What an attempt adds to the totals: nothing when it threw. *)
Definition contribution (r : outcome Counts) : Counts :=
  match r with
  | Returned counts => counts
  | Threw _ => no_counts
  end.

Definition total (rs : list (outcome Counts)) : Counts :=
  fold_left add_counts (map contribution rs) no_counts.


(** The statement on the checkpoint as given: after any scan of an
    existing active search, its [lastChecked] holds a time read during
    the scan. *)
Definition lastChecked_updated (env : Env) (sid : string) (st st' : State) : Prop :=
  exists search' n,
    search_row sid st' = Some search'
    /\ (calls st <= n < calls st')%nat
    /\ Search.lastChecked search' = Some (Date_now env n).

Definition lastChecked_always_updated (env : Env) (sid : string) (st : State) : Prop :=
  forall search,
    search_row sid st = Some search ->
    Search.isActive search = true ->
    lastChecked_updated env sid st (after (processSearch env sid) st).

(** The credential is set (a non-empty string). *)
Definition has_credential (env : Env) : Prop :=
  exists apiKey, GEMINI_API_KEY env = Some apiKey /\ apiKey <> "".

End Spec.

(* ================================================================== *)
(** ** Notions used to state further properties *)
(* ================================================================== *)

Module Notions.
Import JS.

(** The character [c] occurs in [s]. *)
Fixpoint occurs (c : ascii) (s : string) : bool :=
match s with
| EmptyString => false
| String c' rest => Ascii.eqb c' c || occurs c rest
end.

(** Every character of [s] is a decimal digit. *)
Fixpoint all_digits (s : string) : bool :=
match s with
| EmptyString => true
| String c rest => Craigslist.is_digit c && all_digits rest
end.

(** No slash of [s] is directly followed by a digit. *)
Fixpoint no_slash_digit (s : string) : bool :=
match s with
| EmptyString => true
| String c rest =>
    match rest with
    | String d _ =>
        negb (Ascii.eqb c "/" && Craigslist.is_digit d) && no_slash_digit rest
    | EmptyString => true
    end
end.

(** An image as [evaluateListing] attaches it: downloaded with an ok
  status from one of the first two image URLs of the listing. *)
Definition attached_image (ai : Evaluator.Gemini)
(listing : Evaluator.ListingForEvaluation) (part : Evaluator.Part) : Prop :=
exists url response,
  In url (firstn 2 (Evaluator.imageUrls listing))
  /\ Evaluator.fetch ai url = Returned response
  /\ Evaluator.ok response = true
  /\ part = Evaluator.ImagePart
              {| Evaluator.data := Evaluator.body_base64 response;
                 Evaluator.mimeType :=
                   match Evaluator.content_type response with
                   | Some ct => if String.eqb ct "" then "image/jpeg" else ct
                   | None => "image/jpeg"
                   end |}.

(** A request made of the prompt for the listing and then at most two
  attached images. *)
Definition prompt_and_two_images (ai : Evaluator.Gemini)
(listing : Evaluator.ListingForEvaluation) (request : list Evaluator.Part) : Prop :=
exists images,
  request = Evaluator.TextPart (Evaluator.prompt_for ai listing) :: images
  /\ (List.length images <= 2)%nat
  /\ forall part, In part images -> attached_image ai listing part.

(** The download of [url] fails: it throws, or its status is not ok. *)
Definition download_fails (ai : Evaluator.Gemini) (url : string) : Prop :=
throws (Evaluator.fetch ai url)
\/ exists response,
     Evaluator.fetch ai url = Returned response /\ Evaluator.ok response = false.

(** The world [ai] with another model endpoint, and with another image
  host. *)
Definition with_endpoint
(endpoint : string -> list Evaluator.Part -> outcome string)
(ai : Evaluator.Gemini) : Evaluator.Gemini := {|
Evaluator.builtins := Evaluator.builtins ai;
Evaluator.prompt_for := Evaluator.prompt_for ai;
Evaluator.fetch := Evaluator.fetch ai;
Evaluator.generateContent := endpoint
|}.

Definition with_host (host : string -> outcome Evaluator.Response)
(ai : Evaluator.Gemini) : Evaluator.Gemini := {|
Evaluator.builtins := Evaluator.builtins ai;
Evaluator.prompt_for := Evaluator.prompt_for ai;
Evaluator.fetch := host;
Evaluator.generateContent := Evaluator.generateContent ai
|}.

(** What a listing holds from the results page alone. *)
Definition from_results_page (l : Craigslist.CraigslistListing)
: string * string * option number * string * option string * option string :=
(Craigslist.externalId l, Craigslist.title l, Craigslist.price l,
 Craigslist.url l, Craigslist.location l, Craigslist.postedAt l).

(** The price stored for the price [scraped] of a row: null for a row
  without a price or with a price of 0 or NaN; and for a whole number of
  dollars whose cents a double still holds exactly (up to
  90,071,992,547,409 dollars) that number of cents. *)
Definition priced (scraped stored : option number) : Prop :=
(stored = None
 <-> scraped = None \/ scraped = Some NaN
     \/ exists q, scraped = Some (Fin q) /\ (q == 0)%Q)
/\ (forall dollars : Z,
      scraped = Some (Fin (inject_Z dollars)) ->
      dollars <> 0%Z -> (Z.abs dollars <= 90071992547409)%Z ->
      stored = Some (Fin (inject_Z (dollars * 100)))).

(** Two browsers that differ at most in what the detail pages answer. *)
Definition same_results_page (pw pw' : Craigslist.Playwright) : Prop :=
Craigslist.launch pw = Craigslist.launch pw'
/\ Craigslist.newContext pw = Craigslist.newContext pw'
/\ Craigslist.newPage pw = Craigslist.newPage pw'
/\ Craigslist.context_close pw = Craigslist.context_close pw'
/\ (forall u, Craigslist.goto pw u = Craigslist.goto pw' u)
/\ (forall s, Craigslist.waitForSelector pw s = Craigslist.waitForSelector pw' s)
/\ (forall s, Craigslist.search_rows pw s = Craigslist.search_rows pw' s).

(** The browser [pw], except that launching it fails. *)
Definition unable_to_launch (pw : Craigslist.Playwright) : Craigslist.Playwright := {|
Craigslist.launch := Threw "browserType.launch: Executable does not exist";
Craigslist.browser_close := Craigslist.browser_close pw;
Craigslist.newContext := Craigslist.newContext pw;
Craigslist.newPage := Craigslist.newPage pw;
Craigslist.context_close := Craigslist.context_close pw;
Craigslist.goto := Craigslist.goto pw;
Craigslist.waitForSelector := Craigslist.waitForSelector pw;
Craigslist.search_rows := Craigslist.search_rows pw;
Craigslist.posting := Craigslist.posting pw
|}.

Definition outcome_map {A B : Type} (f : A -> B) (o : outcome A) : outcome B :=
match o with
| Returned a => Returned (f a)
| Threw e => Threw e
end.

(** A stored row is flagged as a good deal exactly when its score is an
  integer of [70,100]. *)
Definition flag_matches_score (l : Listing.t) : Prop :=
Listing.isGoodDeal l = true <-> integer_between 70 100 (Listing.dealScore l).

(** An outcome that, if it is a return, reports no alert. *)
Definition outcome_is_zero (r : outcome Scheduler.Counts) : Prop :=
match r with
| Returned counts => Scheduler.alertsSent counts = 0%nat
| Threw _ => True
end.

(** A run of requests of one identifier, at the given times: which were
  allowed, and the store they leave. *)
Fixpoint requests (config : Security.RateLimitConfig) (identifier : string)
(times : list Z) (store : Security.Store) : list bool * Security.Store :=
match times with
| [] => ([], store)
| now :: rest =>
    let (r, store1) := Security.checkRateLimit now identifier config store in
    let (rs, store2) := requests config identifier rest store1 in
    (Security.allowed r :: rs, store2)
end.

(** The identifier has no open window at the time [now]. *)
Definition no_open_window (store : Security.Store) (identifier : string) (now : Z)
: Prop :=
match Security.Map_get store identifier with
| None => True
| Some entry => (Security.resetTime entry < now)%Z
end.

(** What [GET] of the cron endpoint answers once a request has passed the
  checks on its headers. *)
Definition sweep_response (env : Scheduler.Env) (st : Scheduler.State)
: outcome Cron.Response * Scheduler.State :=
match Scheduler.processAllSearches env st with
| (Returned result, st') => (Returned (Cron.Success result), st')
| (Threw error, st') => (Returned (Cron.ScanFailed error), st')
end.

End Notions.

(* ================================================================== *)
(** ** Concrete worlds, used to run the code on examples *)
(* ================================================================== *)

Module Scenario.
Import JS.

Definition quote : string := String (ascii_of_nat 34) EmptyString.

(** [{"k": v}] and [{"k1": v1, "k2": v2}] as texts. *)
Definition json1 (k v : string) : string :=
  "{" ++ quote ++ k ++ quote ++ ": " ++ v ++ "}".

Definition json2 (k1 v1 k2 v2 : string) : string :=
  "{" ++ quote ++ k1 ++ quote ++ ": " ++ v1 ++ ", "
      ++ quote ++ k2 ++ quote ++ ": " ++ v2 ++ "}".

Definition quoted (s : string) : string := quote ++ s ++ quote.

(** Replies of the model used below. *)
Definition reply_score_60_flag_true : string := json2 "score" "60" "isGoodDeal" "true".
Definition reply_score_150 : string := json1 "score" "150".
Definition reply_score_0 : string := json1 "score" "0".
Definition reply_score_85 : string := json1 "score" "85".
Definition reply_score_40 : string := json1 "score" "40".
Definition reply_no_score : string := json1 "isGoodDeal" "true".
Definition reply_like_new : string :=
  json2 "score" "80" "condition" (quoted "like new").

(** [JSON.parse] on the replies above; every other text is a SyntaxError. *)
Definition parse (s : string) : option (list (string * value)) :=
  if String.eqb s reply_score_60_flag_true
  then Some [("score", Num (Fin 60)); ("isGoodDeal", Bool true)]
  else if String.eqb s reply_score_150 then Some [("score", Num (Fin 150))]
  else if String.eqb s reply_score_0 then Some [("score", Num (Fin 0))]
  else if String.eqb s reply_score_85 then Some [("score", Num (Fin 85))]
  else if String.eqb s reply_score_40 then Some [("score", Num (Fin 40))]
  else if String.eqb s reply_no_score then Some [("isGoodDeal", Bool true)]
  else if String.eqb s reply_like_new
  then Some [("score", Num (Fin 80)); ("condition", Str "like new")]
  else None.

(** Built-ins for ASCII texts without surrounding white space; the
    conversions between numbers and strings are not exercised by the
    examples. *)
Definition rt : Builtins := {|
  StringToNumber := fun _ => NaN;
  NumberToString := fun _ => "n";
  ArrayToString := fun _ => "";
  JSON_parse := parse;
  trim := fun s => s;
  toLowerCase := fold_case;
  URLSearchParams_toString := fun _ => ""
|}.

(** A model that answers [reply], possibly with prose around it. *)
Definition answering (reply : string) : Evaluator.Gemini := {|
  Evaluator.builtins := rt;
  Evaluator.prompt_for := fun _ => "prompt";
  Evaluator.fetch := fun _ => Threw "offline";
  Evaluator.generateContent := fun _ _ => Returned reply
|}.

(** A model endpoint that rejects every call. *)
Definition unreachable : Evaluator.Gemini := {|
  Evaluator.builtins := rt;
  Evaluator.prompt_for := fun _ => "prompt";
  Evaluator.fetch := fun _ => Threw "offline";
  Evaluator.generateContent := fun _ _ => Threw "503"
|}.

Definition bike : Evaluator.ListingForEvaluation := {|
  Evaluator.title := "Trek road bike";
  Evaluator.price := Some (Fin 45000);
  Evaluator.description := Some "Barely used";
  Evaluator.imageUrls := [];
  Evaluator.query := "road bike";
  Evaluator.preferences := None
|}.

(** *** The browser *)

Definition row (path name : string) (dollars : Z) : Craigslist.BasicListing := {|
  Craigslist.b_url := path;
  Craigslist.b_title := name;
  Craigslist.b_price := Some (Fin (inject_Z dollars));
  Craigslist.b_imageUrl := None;
  Craigslist.b_location := Some "mission district";
  Craigslist.b_dateStr := None
|}.

(** A browser that shows [rows] on the results page and whose detail
    pages all load. *)
Definition showing (rows : list Craigslist.BasicListing) : Craigslist.Playwright := {|
  Craigslist.launch := Returned tt;
  Craigslist.browser_close := Returned tt;
  Craigslist.newContext := Returned tt;
  Craigslist.newPage := Returned tt;
  Craigslist.context_close := Returned tt;
  Craigslist.goto := fun _ => Returned tt;
  Craigslist.waitForSelector := fun _ => Returned tt;
  Craigslist.search_rows := fun _ => Returned rows;
  Craigslist.posting := fun _ =>
    Returned {| Craigslist.d_description := "As new"; Craigslist.d_imageUrls := [] |}
|}.

(** A browser whose navigation to the results page times out. *)
Definition timing_out : Craigslist.Playwright := {|
  Craigslist.launch := Returned tt;
  Craigslist.browser_close := Returned tt;
  Craigslist.newContext := Returned tt;
  Craigslist.newPage := Returned tt;
  Craigslist.context_close := Returned tt;
  Craigslist.goto := fun _ => Threw "page.goto: Timeout 30000ms exceeded";
  Craigslist.waitForSelector := fun _ => Returned tt;
  Craigslist.search_rows := fun _ => Returned [row "/bik/d/trek/7701.html" "Trek" 450];
  Craigslist.posting := fun _ => Threw "unreachable"
|}.

(** A browser that reaches a page on which no result ever appears. *)
Definition no_results_selector : Craigslist.Playwright := {|
  Craigslist.launch := Returned tt;
  Craigslist.browser_close := Returned tt;
  Craigslist.newContext := Returned tt;
  Craigslist.newPage := Returned tt;
  Craigslist.context_close := Returned tt;
  Craigslist.goto := fun _ => Returned tt;
  Craigslist.waitForSelector := fun _ => Threw "page.waitForSelector: Timeout 10000ms exceeded";
  Craigslist.search_rows := fun _ => Returned [];
  Craigslist.posting := fun _ => Threw "unreachable"
|}.

(** A browser whose navigation times out and whose context then fails to
    close. *)
Definition timing_out_and_stuck : Craigslist.Playwright := {|
  Craigslist.launch := Returned tt;
  Craigslist.browser_close := Returned tt;
  Craigslist.newContext := Returned tt;
  Craigslist.newPage := Returned tt;
  Craigslist.context_close := Threw "browserContext.close: Target closed";
  Craigslist.goto := fun _ => Threw "page.goto: Timeout 30000ms exceeded";
  Craigslist.waitForSelector := fun _ => Returned tt;
  Craigslist.search_rows := fun _ => Returned [];
  Craigslist.posting := fun _ => Threw "unreachable"
|}.

Definition alice : User.t :=
  {| User.id := "u1"; User.email := "alice@example.com"; User.name := Some "Alice";
     User.createdAt := 1767139200000%Z; User.updatedAt := 1767139200000%Z |}.

Definition search_for (id query : string) (lo hi : option Z) (active : bool)
  : Search.t := {|
  Search.id := id;
  Search.userId := "u1";
  Search.query := query;
  Search.zipcode := "94110";
  Search.maxPrice := hi;
  Search.minPrice := lo;
  Search.isActive := active;
  Search.lastChecked := None;
  Search.preferences := None;
  Search.createdAt := 1767139200000%Z;
  Search.updatedAt := 1767139200000%Z;
  Search.user := alice
|}.

(** *** Worlds for whole scans *)

(** A model that scores a listing from its title: [reply_of title]. *)
Definition scoring (reply_of : string -> string) : Evaluator.Gemini := {|
  Evaluator.builtins := rt;
  Evaluator.prompt_for := Evaluator.title;
  Evaluator.fetch := fun _ => Threw "offline";
  Evaluator.generateContent := fun _ parts =>
    match parts with
    | Evaluator.TextPart t :: _ => Returned (reply_of t)
    | _ => Threw "no prompt"
    end
|}.

(** A Trek is a good deal (85); anything else is not (40). *)
Definition trek_is_good (t : string) : string :=
  if String.eqb t "Trek" then reply_score_85 else reply_score_40.

Definition mail_works : Email.Resend :=
  {| Email.RESEND_API_KEY := Some "re_key"; Email.send := fun _ => Returned None |}.

Definition mail_unconfigured : Email.Resend :=
  {| Email.RESEND_API_KEY := None; Email.send := fun _ => Returned None |}.

Definition trek : Craigslist.BasicListing := row "/bik/d/trek/7701.html" "Trek" 450.
Definition giant : Craigslist.BasicListing := row "/bik/d/giant/7702.html" "Giant" 300.
Definition fuji : Craigslist.BasicListing := row "/bik/d/fuji/7703.html" "Fuji" 900.

(** A world with the credential [key], the rows [rows] on the results
    page, the mail service [mail], and a store that rejects exactly the
    calls numbered in [faults]. *)
Definition world (key : option string) (rows : list Craigslist.BasicListing)
  (reply_of : string -> string) (mail : Email.Resend) (faults : list nat)
  : Scheduler.Env := {|
  Scheduler.GEMINI_API_KEY := key;
  Scheduler.builtins := rt;
  Scheduler.gemini := fun _ => scoring reply_of;
  Scheduler.playwright := fun _ => showing rows;
  Scheduler.resend := fun _ => mail;
  Scheduler.prisma_fails := fun n => existsb (Nat.eqb n) faults;
  Scheduler.Date_now := fun n => (1767225600000 + Z.of_nat n)%Z;
  Scheduler.prisma_now := fun n => (1767225600002 + Z.of_nat n)%Z
|}.

Definition s1 : Search.t := search_for "s1" "road bike" None (Some 0%Z) true.
Definition s2 : Search.t := search_for "s2" "gravel bike" None None true.
Definition s3 : Search.t := search_for "s3" "mountain bike" (Some 10000%Z) None true.

Definition store (ss : list Search.t) : Scheduler.State := {|
  Scheduler.searches := ss;
  Scheduler.listings := [];
  Scheduler.browserInstance := false;
  Scheduler.calls := 0;
  Scheduler.evaluated := [];
  Scheduler.outbox := []
|}.

Definition everything_is_good (t : string) : string := reply_score_85.

(** A first scan finds the Trek, a good deal, while the mail service is
    not configured: the listing is stored and stays unsent. *)
Definition first_scan : Scheduler.Env :=
  world (Some "key") [trek] trek_is_good mail_unconfigured [].

Definition after_first_scan : Scheduler.State :=
  snd (Scheduler.processSearch first_scan "s1" (store [s1])).

(** A later scan finds the Trek again and a second good deal, and its
    digest is sent. *)
Definition later_scan : Scheduler.Env :=
  world (Some "key") [giant; trek] everything_is_good mail_works [].

(** The same result set as [later_scan], in the other order. *)
Definition later_scan_reordered : Scheduler.Env :=
  world (Some "key") [trek; giant] everything_is_good mail_works [].

(** A scan without the AI credential. *)
Definition no_credential : Scheduler.Env :=
  world None [trek] trek_is_good mail_works [].

(** A scan whose second insertion is rejected by the store (the calls are
    numbered from 0: find the search, fetch, then find, evaluate and create
    for each candidate). *)
Definition second_insert_fails : Scheduler.Env :=
  world (Some "key") [trek; giant] trek_is_good mail_works [7%nat].

(** A sweep over three searches in which the store rejects the first
    call made for the second one (call 0 lists the active searches, calls
    1 to 11 belong to the first search). *)
Definition sweep_with_a_failure : Scheduler.Env :=
  world (Some "key") [trek; giant] trek_is_good mail_works [12%nat].

End Scenario.

(* ================================================================== *)
(** ** More concrete worlds *)
(* ================================================================== *)

Module ScenarioMore.
Import JS.

(** A browser that shows [rows] on the results page while every detail
  page fails to load. *)
Definition details_failing (rows : list Craigslist.BasicListing)
: Craigslist.Playwright := {|
Craigslist.launch := Returned tt;
Craigslist.browser_close := Returned tt;
Craigslist.newContext := Returned tt;
Craigslist.newPage := Returned tt;
Craigslist.context_close := Returned tt;
Craigslist.goto := fun _ => Returned tt;
Craigslist.waitForSelector := fun _ => Returned tt;
Craigslist.search_rows := fun _ => Returned rows;
Craigslist.posting := fun _ => Threw "page.goto: Timeout 15000ms exceeded"
|}.

(** A world whose image host serves every URL and whose model finds every
  listing a good deal. *)
Definition with_pictures : Evaluator.Gemini := {|
Evaluator.builtins := Scenario.rt;
Evaluator.prompt_for := fun _ => "prompt";
Evaluator.fetch := fun url =>
  Returned {| Evaluator.ok := true;
              Evaluator.body_base64 := url;
              Evaluator.content_type := Some "image/png" |};
Evaluator.generateContent := fun _ _ => Returned Scenario.reply_score_85
|}.

(** An endpoint that rejects a request of more than three parts. *)
Definition strict (apiKey : string) (request : list Evaluator.Part)
: outcome string :=
if (List.length request <=? 3)%nat then Returned Scenario.reply_score_85
else Threw "400 Bad Request".

(** An image host on which only the first two pictures of the bike exist. *)
Definition two_pictures (url : string) : outcome Evaluator.Response :=
if String.eqb url "a.jpg" || String.eqb url "b.jpg"
then Returned {| Evaluator.ok := true;
                 Evaluator.body_base64 := url;
                 Evaluator.content_type := Some "image/png" |}
else Threw "404".

(** A listing with three pictures. *)
Definition bike_with_pictures : Evaluator.ListingForEvaluation := {|
Evaluator.title := "Trek road bike";
Evaluator.price := Some (Fin 45000);
Evaluator.description := Some "Barely used";
Evaluator.imageUrls := ["a.jpg"; "b.jpg"; "c.jpg"];
Evaluator.query := "road bike";
Evaluator.preferences := None
|}.

(** A query whose third letter is a Kelvin sign (the bytes 226, 132, 170
  in UTF-8), and built-ins that lower-case it the way the Unicode tables
  do. *)
Definition kelvin_bike : string :=
"BI" ++ String (ascii_of_nat 226) (String (ascii_of_nat 132)
                  (String (ascii_of_nat 170) "E")).

Definition unicode_rt : Builtins := {|
StringToNumber := StringToNumber Scenario.rt;
NumberToString := NumberToString Scenario.rt;
ArrayToString := ArrayToString Scenario.rt;
JSON_parse := JSON_parse Scenario.rt;
trim := trim Scenario.rt;
toLowerCase := fun s => if String.eqb s kelvin_bike then "bike" else fold_case s;
URLSearchParams_toString := URLSearchParams_toString Scenario.rt
|}.

(** A search that its user has paused. *)
Definition paused : Search.t :=
Scenario.search_for "s9" "road bike" None None false.

(** The candidates that the adapter returns for the Giant and the Trek. *)
Definition candidate (id name : string) : Craigslist.CraigslistListing := {|
Craigslist.externalId := id;
Craigslist.title := name;
Craigslist.price := Some (Fin 45000);
Craigslist.url := "https://sfbay.craigslist.org/bik/d/x/" ++ id ++ ".html";
Craigslist.description := Some "As new";
Craigslist.imageUrl := None;
Craigslist.imageUrls := [];
Craigslist.location := None;
Craigslist.postedAt := None
|}.

Definition first_pass : list Craigslist.CraigslistListing :=
[candidate "7701" "Trek"; candidate "7702" "Giant"].

Definition second_pass : list Craigslist.CraigslistListing :=
[candidate "7702" "Giant"; candidate "7701" "Trek"; candidate "7702" "Giant"].

(** A deployment with a cron secret. *)
Definition with_secret : Cron.Vars :=
{| Cron.CRON_SECRET := Some "s3cret"; Cron.NODE_ENV := Some "production" |}.

Definition forged : Cron.Request :=
{| Cron.authorization := Some "Bearer guess"; Cron.x_vercel_cron := Some "1" |}.

Definition scheduled : Cron.Request :=
{| Cron.authorization := Some "Bearer s3cret"; Cron.x_vercel_cron := None |}.

End ScenarioMore.

(* ================================================================== *)
(** ** Facts about numbers *)
(* ================================================================== *)

Module NumberFacts.
Import JS.
Import Evaluator.

Lemma leb_inject_Z (a b : Z) :
  Qle_bool (inject_Z a) (inject_Z b) = (a <=? b)%Z.
Proof.
  unfold Qle_bool; simpl. now rewrite !Z.mul_1_r.
Qed.

Lemma clamp_NaN : clamp NaN = NaN.
Proof. reflexivity. Qed.

Lemma clamp_PosInf : clamp PosInf = Fin 100.
Proof. reflexivity. Qed.

Lemma clamp_NegInf : clamp NegInf = Fin 1.
Proof. reflexivity. Qed.

Lemma clamp_Fin (q : Q) :
  clamp (Fin q) = Fin (inject_Z (Z.max 1 (Z.min 100 (Qfloor (q + (1 # 2)))))).
Proof.
  unfold clamp, Math_round.
  set (z := Qfloor (q + (1 # 2))).
  change (Fin 100) with (Fin (inject_Z 100)).
  change (Fin 1) with (Fin (inject_Z 1)).
  unfold Math_min, num_le. rewrite leb_inject_Z.
  destruct (Z.leb_spec 100 z) as [Hz | Hz].
  - unfold Math_max, num_le. rewrite leb_inject_Z. simpl.
    rewrite Z.min_l by lia. reflexivity.
  - unfold Math_max, num_le. rewrite leb_inject_Z.
    rewrite (Z.min_r 100 z) by lia.
    destruct (Z.leb_spec 1 z) as [Hz1 | Hz1].
    + rewrite Z.max_r by lia. reflexivity.
    + rewrite Z.max_l by lia. reflexivity.
Qed.

(** Whatever is not NaN is clamped to an integer of [1,100]. *)
Lemma clamp_in_range (n : number) :
  n <> NaN -> integer_between 1 100 (clamp n).
Proof.
  intros Hn. destruct n as [ | | | q].
  - contradiction.
  - exists 100%Z. split; [lia | reflexivity].
  - exists 1%Z. split; [lia | reflexivity].
  - rewrite clamp_Fin. eexists. split; [ | reflexivity]. lia.
Qed.

Lemma NaN_not_integer (lo hi : Z) : ~ integer_between lo hi NaN.
Proof. intros [k [_ Hk]]. discriminate Hk. Qed.

Lemma clamp_is_NaN_iff (n : number) : clamp n = NaN <-> n = NaN.
Proof.
  split.
  - intros H. destruct n as [ | | | q]; try reflexivity; try discriminate H.
    rewrite clamp_Fin in H. discriminate H.
  - intros ->. reflexivity.
Qed.

(** Rounding to the nearest integer reaches 70 from 69.5 on. *)
Lemma round_reaches_70 (q : Q) :
  (70 <= Qfloor (q + (1 # 2)))%Z <-> (139 # 2 <= q)%Q.
Proof.
  split.
  - intros H.
    assert (H1 : (inject_Z 70 <= q + (1 # 2))%Q).
    { apply Qle_trans with (inject_Z (Qfloor (q + (1 # 2)))).
      - rewrite <- Zle_Qle. exact H.
      - apply Qfloor_le. }
    apply (Qplus_le_l _ _ (1 # 2)).
    apply Qle_trans with (inject_Z 70); [ | exact H1].
    unfold Qle. simpl. lia.
  - intros H.
    rewrite <- (Qfloor_Z 70). apply Qfloor_resp_le.
    apply Qle_trans with ((139 # 2) + (1 # 2))%Q.
    + unfold Qle. simpl. lia.
    + apply Qplus_le_l. exact H.
Qed.

Example clamp_150 : clamp (Fin 150) = Fin 100.
Proof. reflexivity. Qed.

Example clamp_0 : clamp (Fin 0) = Fin 1.
Proof. reflexivity. Qed.

Example clamp_half : clamp (Fin (139 # 2)) = Fin 70.
Proof. reflexivity. Qed.

End NumberFacts.

(* ================================================================== *)
(** ** The evaluator *)
(* ================================================================== *)

Module EvaluatorFacts.
Import JS.
Import Evaluator.
Import NumberFacts.

(** [evaluateListing] never throws: the [catch] turns every failure of the
    [try] block into the fallback object. *)
Lemma evaluateListing_returns ai listing apiKey :
  evaluateListing ai listing apiKey
  = Returned match parsed_reply ai listing apiKey with
             | Returned props => post_process ai props
             | Threw _ => fallback
             end.
Proof.
  unfold evaluateListing, try_evaluate.
  destruct (parsed_reply ai listing apiKey); reflexivity.
Qed.

(** When the score property coerces to a number, the stored score is an
    integer of [1,100]. *)
Lemma score_in_range_when_numeric ai props :
  ToNumber (builtins ai) (get props "score") <> NaN ->
  integer_between 1 100 (score (post_process ai props)).
Proof. intros H. simpl. now apply clamp_in_range. Qed.

(** The stored score is an integer of [1,100] exactly when the score
    property coerces to something else than NaN. *)
Lemma score_in_range_iff_numeric ai props :
  integer_between 1 100 (score (post_process ai props))
  <-> ToNumber (builtins ai) (get props "score") <> NaN.
Proof.
  split; [ | apply score_in_range_when_numeric].
  intros Hin Hnan. simpl in Hin. rewrite Hnan in Hin.
  exact (NaN_not_integer _ _ Hin).
Qed.

(** C2. Whenever a JSON object is parsed from the reply of the model,
    [evaluateListing] returns an assessment whose score and flag are
    computed from the score property alone: for a score property that
    coerces to the number [q], the score is [q] rounded to the nearest
    integer (halves upwards) and brought into [1,100], and [isGoodDeal] is
    the test (that integer >= 70), which holds exactly from [q = 69.5] on;
    an infinite score gives 100 (a good deal) or 1 (not one), and a score
    that is not a number is not a good deal.  The boolean that the model reported plays no part.
    In particular a reply with score 60 gives score 60 and
    [isGoodDeal = false], also when the model said [isGoodDeal = true]. *)
Theorem good_deal_flag_is_derived_from_clamped_score :
  forall ai listing apiKey props,
    parsed_reply ai listing apiKey = Returned props ->
    exists evaluation,
      evaluateListing ai listing apiKey = Returned evaluation
      /\ match ToNumber (builtins ai) (get props "score") with
         | Fin q =>
             let clamped := Z.max 1 (Z.min 100 (Qfloor (q + (1 # 2)))) in
             score evaluation = Fin (inject_Z clamped)
             /\ isGoodDeal evaluation = (70 <=? clamped)%Z
             /\ (isGoodDeal evaluation = true <-> (139 # 2 <= q)%Q)
         | PosInf => score evaluation = Fin 100 /\ isGoodDeal evaluation = true
         | NegInf => score evaluation = Fin 1 /\ isGoodDeal evaluation = false
         | NaN => isGoodDeal evaluation = false
         end
      /\ (get props "score" = Num (Fin 60) ->
          score evaluation = Fin 60 /\ isGoodDeal evaluation = false).
Proof.
  intros ai listing apiKey props Hparsed.
  exists (post_process ai props).
  rewrite evaluateListing_returns, Hparsed.
  split; [reflexivity | ]. split.
  - cbn [score isGoodDeal post_process].
    destruct (ToNumber (builtins ai) (get props "score")) as [ | | | q].
    + reflexivity.
    + split; reflexivity.
    + split; reflexivity.
    + cbv zeta. rewrite clamp_Fin.
      set (f := Qfloor (q + (1 # 2))).
      assert (Hflag : num_ge (Fin (inject_Z (Z.max 1 (Z.min 100 f)))) (Fin 70)
                      = (70 <=? Z.max 1 (Z.min 100 f))%Z).
      { unfold num_ge, num_le. change 70%Q with (inject_Z 70).
        apply leb_inject_Z. }
      split; [reflexivity | ]. split; [exact Hflag | ].
      rewrite Hflag, Z.leb_le, <- round_reaches_70. fold f. lia.
  - intros H60. cbn [score isGoodDeal post_process]. rewrite H60.
    split; reflexivity.
Qed.

(** The reply [{"score": 60, "isGoodDeal": true}]. *)
Lemma good_deal_flag_witness :
  parsed_reply (Scenario.answering Scenario.reply_score_60_flag_true)
    Scenario.bike "key"
  = Returned [("score", Num (Fin 60)); ("isGoodDeal", Bool true)]
  /\ exists evaluation,
       evaluateListing (Scenario.answering Scenario.reply_score_60_flag_true)
         Scenario.bike "key" = Returned evaluation
       /\ score evaluation = Fin 60
       /\ isGoodDeal evaluation = false.
Proof.
  split; [reflexivity | ].
  destruct (good_deal_flag_is_derived_from_clamped_score
              (Scenario.answering Scenario.reply_score_60_flag_true)
              Scenario.bike "key"
              [("score", Num (Fin 60)); ("isGoodDeal", Bool true)]
              eq_refl) as [evaluation [Hev [_ H60]]].
  exists evaluation. split; [exact Hev | ].
  apply H60. reflexivity.
Defined.

(** C3. A reply of the model whose JSON object has no score property
    passes the parse, and [evaluateListing] returns NaN as the score:
    [Math.round], [Math.min] and [Math.max] all propagate NaN, so the
    clamp does not bring it into [1,100]. *)
Theorem missing_score_is_not_clamped :
  exists evaluation,
    evaluateListing (Scenario.answering Scenario.reply_no_score)
      Scenario.bike "key" = Returned evaluation
    /\ score evaluation = NaN
    /\ ~ integer_between 1 100 (score evaluation).
Proof.
  eexists. split; [reflexivity | ]. split; [reflexivity | ].
  apply NaN_not_integer.
Qed.

(** The raw scores 150 and 0 are clamped, to 100 and to 1. *)
Example score_150_is_clamped :
  evaluateListing (Scenario.answering Scenario.reply_score_150) Scenario.bike "key"
  = Returned (post_process (Scenario.answering Scenario.reply_score_150)
                [("score", Num (Fin 150))])
  /\ score (post_process (Scenario.answering Scenario.reply_score_150)
              [("score", Num (Fin 150))]) = Fin 100.
Proof. split; reflexivity. Qed.

Example score_0_is_clamped :
  score (post_process (Scenario.answering Scenario.reply_score_0)
           [("score", Num (Fin 0))]) = Fin 1.
Proof. reflexivity. Qed.

(** C4. If the model call throws, or its reply holds no text between
    braces, or that text does not parse, [evaluateListing] returns
    (it does not throw) exactly the neutral fallback: score 50, not a good
    deal, condition "unknown", no product and no retail price range. *)
Theorem fallback_on_model_failure :
  forall ai listing apiKey,
    let parts := TextPart (prompt_for ai listing)
                 :: image_parts ai (firstn 2 (imageUrls listing)) in
    (   (exists e, generateContent ai apiKey parts = Threw e)
     \/ (exists raw, generateContent ai apiKey parts = Returned raw
                     /\ match_braces (trim (builtins ai) raw) = None)
     \/ (exists raw jsonMatch,
           generateContent ai apiKey parts = Returned raw
           /\ match_braces (trim (builtins ai) raw) = Some jsonMatch
           /\ JSON_parse (builtins ai) jsonMatch = None)) ->
    evaluateListing ai listing apiKey = Returned fallback
    /\ score fallback = Fin 50
    /\ isGoodDeal fallback = false
    /\ condition fallback = Str "unknown"
    /\ identifiedProduct fallback = Null
    /\ retailPriceRange fallback = Null.
Proof.
  intros ai listing apiKey parts Hfail.
  split; [ | repeat split].
  rewrite evaluateListing_returns. unfold parsed_reply. fold parts.
  destruct Hfail as [[e He] | [[raw [Hraw Hnone]] | [raw [m [Hraw [Hm Hp]]]]]].
  - now rewrite He.
  - now rewrite Hraw, Hnone.
  - now rewrite Hraw, Hm, Hp.
Qed.

(** An endpoint that rejects the call, a reply without braces, and a
    reply whose braces do not hold JSON. *)
Lemma fallback_on_model_failure_witness :
  evaluateListing Scenario.unreachable Scenario.bike "key" = Returned fallback
  /\ evaluateListing (Scenario.answering "Sorry, I cannot help with that.")
       Scenario.bike "key" = Returned fallback
  /\ evaluateListing (Scenario.answering "{score: high}")
       Scenario.bike "key" = Returned fallback.
Proof.
  split; [ | split].
  - apply (fallback_on_model_failure Scenario.unreachable Scenario.bike "key").
    left. exists "503". reflexivity.
  - apply (fallback_on_model_failure
             (Scenario.answering "Sorry, I cannot help with that.")
             Scenario.bike "key").
    right; left. eexists. split; reflexivity.
  - apply (fallback_on_model_failure (Scenario.answering "{score: high}")
             Scenario.bike "key").
    right; right. eexists. eexists. split; [reflexivity | ].
    split; reflexivity.
Defined.



End EvaluatorFacts.

(* ================================================================== *)
(** ** The acquisition adapter *)
(* ================================================================== *)

Module CraigslistFacts.
Import JS.
Import Craigslist.

Lemma has_param_set_other (k k' v : string) (params : list (string * string)) :
  String.eqb k' k = false ->
  has_param k (params_set k' v params) = has_param k params.
Proof.
  intros Hk. induction params as [ | [k0 v0] rest IH]; simpl.
  - rewrite Hk. reflexivity.
  - destruct (String.eqb k0 k') eqn:E0; simpl.
    + apply String.eqb_eq in E0. subst k0. rewrite Hk. simpl.
      clear IH. induction rest as [ | [k1 v1] rest IH]; simpl; [reflexivity | ].
      destruct (String.eqb k1 k') eqn:E1; simpl.
      * apply String.eqb_eq in E1. subst k1. rewrite Hk. exact IH.
      * rewrite IH. reflexivity.
    + rewrite IH. reflexivity.
Qed.

Lemma has_param_set_same (k v : string) (params : list (string * string)) :
  has_param k (params_set k v params) = true.
Proof.
  induction params as [ | [k0 v0] rest IH]; simpl.
  - now rewrite String.eqb_refl.
  - destruct (String.eqb k0 k) eqn:E0; simpl.
    + now rewrite String.eqb_refl.
    + rewrite E0. exact IH.
Qed.

(** Which price parameters the search URL carries. *)
Lemma min_price_param rt query zipcode options :
  has_param "min_price" (searchParams rt query zipcode options)
  = match options with
    | Some o => given (minPrice o)
    | None => false
    end.
Proof.
  unfold searchParams.
  destruct options as [[lo hi r lim] | ]; [ | reflexivity].
  cbv beta iota zeta. unfold given, minPrice, maxPrice.
  destruct hi as [hi | ].
  - destruct (truthy (Num hi)).
    + rewrite has_param_set_other by reflexivity.
      destruct lo as [lo | ]; [ | reflexivity].
      destruct (truthy (Num lo)); reflexivity.
    + destruct lo as [lo | ]; [ | reflexivity].
      destruct (truthy (Num lo)); reflexivity.
  - destruct lo as [lo | ]; [ | reflexivity].
    destruct (truthy (Num lo)); reflexivity.
Qed.

Lemma max_price_param rt query zipcode options :
  has_param "max_price" (searchParams rt query zipcode options)
  = match options with
    | Some o => given (maxPrice o)
    | None => false
    end.
Proof.
  unfold searchParams.
  destruct options as [[lo hi r lim] | ]; [ | reflexivity].
  cbv beta iota zeta. unfold given, minPrice, maxPrice.
  destruct hi as [hi | ].
  - destruct (truthy (Num hi)).
    + apply has_param_set_same.
    + destruct lo as [lo | ]; [ | reflexivity].
      destruct (truthy (Num lo)); reflexivity.
  - destruct lo as [lo | ]; [ | reflexivity].
    destruct (truthy (Num lo)); reflexivity.
Qed.

(** C10. A price bound of 0 counts as absent all along: [processSearch]
    hands [undefined] to the adapter for a bound that is 0 (or null) in
    the search, [buildSearchUrl] leaves out [min_price] (resp.
    [max_price]) whenever the bound it is given is 0 or undefined, and so
    the URL of a scan carries no parameter for such a bound. *)
Theorem zero_price_bound_is_absent :
  forall rt (search : Search.t) query zipcode (options : option Options),
    (no_bound 0%Z (Search.minPrice search) ->
       minPrice (Scheduler.scan_options search) = None
       /\ has_param "min_price"
            (searchParams rt (Search.query search) (Search.zipcode search)
               (Some (Scheduler.scan_options search))) = false)
    /\ (no_bound 0%Z (Search.maxPrice search) ->
       maxPrice (Scheduler.scan_options search) = None
       /\ has_param "max_price"
            (searchParams rt (Search.query search) (Search.zipcode search)
               (Some (Scheduler.scan_options search))) = false)
    /\ ((options = None \/ exists o, options = Some o /\ no_bound (Fin 0) (minPrice o)) ->
        has_param "min_price" (searchParams rt query zipcode options) = false)
    /\ ((options = None \/ exists o, options = Some o /\ no_bound (Fin 0) (maxPrice o)) ->
        has_param "max_price" (searchParams rt query zipcode options) = false).
Proof.
  intros rt search query zipcode options.
  split; [ | split; [ | split]].
  - intros H. rewrite min_price_param. simpl.
    destruct H as [-> | ->]; split; reflexivity.
  - intros H. rewrite max_price_param. simpl.
    destruct H as [-> | ->]; split; reflexivity.
  - intros H. rewrite min_price_param.
    destruct H as [-> | [o [-> [-> | ->]]]]; reflexivity.
  - intros H. rewrite max_price_param.
    destruct H as [-> | [o [-> [-> | ->]]]]; reflexivity.
Qed.

(** A search whose two bounds are 0, and a call without options. *)
Lemma zero_price_bound_witness :
  has_param "min_price"
    (searchParams Scenario.rt "road bike" "94110"
       (Some (Scheduler.scan_options
                (Scenario.search_for "s1" "road bike" (Some 0%Z) (Some 0%Z) true))))
  = false
  /\ has_param "max_price"
       (searchParams Scenario.rt "road bike" "94110"
          (Some (Scheduler.scan_options
                   (Scenario.search_for "s1" "road bike" (Some 0%Z) (Some 0%Z) true))))
     = false
  /\ has_param "min_price" (searchParams Scenario.rt "road bike" "94110" None) = false
  /\ has_param "max_price" (searchParams Scenario.rt "road bike" "94110" None) = false.
Proof.
  pose proof (zero_price_bound_is_absent Scenario.rt
                (Scenario.search_for "s1" "road bike" (Some 0%Z) (Some 0%Z) true)
                "road bike" "94110" None) as [Hmin [Hmax [Hmin' Hmax']]].
  split; [ | split; [ | split]].
  - apply Hmin. right. reflexivity.
  - apply Hmax. right. reflexivity.
  - apply Hmin'. left. reflexivity.
  - apply Hmax'. left. reflexivity.
Defined.

(** A bound that is not zero does reach the URL. *)
Example nonzero_bound_is_sent :
  searchParams Scenario.rt "road bike" "94110"
    (Some (Scheduler.scan_options
             (Scenario.search_for "s1" "road bike" None (Some 50000%Z) true)))
  = [("query", "road bike"); ("postal", "94110"); ("search_distance", "n");
     ("sort", "date"); ("postedToday", "1"); ("max_price", "n")].
Proof. reflexivity. Qed.

(** What the caller of [fetchCraigslistListings] gets in every world:
    the four session calls are the only ones whose failure reaches it. *)
Lemma fetch_outcome rt pw query zipcode options browserInstance :
  session_available pw browserInstance ->
  fst (fetchCraigslistListings rt pw query zipcode options browserInstance)
  = match try_fetch pw (buildSearchUrl rt query zipcode options) zipcode
            match options with
            | Some {| limit := Some (S n) |} => S n
            | _ => 20%nat
            end with
    | Returned listings => Returned listings
    | Threw _ => Returned []
    end.
Proof.
  intros [Hb [[c Hc] [[p Hp] [x Hx]]]].
  unfold fetchCraigslistListings, getBrowser.
  destruct Hb as [-> | [l Hl]].
  - simpl. rewrite Hc, Hp, Hx. reflexivity.
  - destruct browserInstance; simpl.
    + rewrite Hc, Hp, Hx. reflexivity.
    + rewrite Hl, Hc, Hp, Hx. reflexivity.
Qed.

(** C8, as the claim states it, fails: the context is closed in the
    [finally] block, after the [catch] has chosen the empty list, and an
    exception there replaces the result.  With a navigation that times out
    and a context that then fails to close, the caller gets the exception;
    so does the caller when the browser cannot be launched, which happens
    before the [try] block is entered. *)
Lemma empty_list_counterexample :
  ~ unreachable_page_gives_empty_list Scenario.rt Scenario.timing_out_and_stuck
      "road bike" "94110" None false.
Proof.
  intros H.
  assert (Hu : search_page_unreachable Scenario.timing_out_and_stuck
                 (buildSearchUrl Scenario.rt "road bike" "94110" None)).
  { left. eexists. reflexivity. }
  specialize (H Hu). vm_compute in H. discriminate H.
Qed.

Example session_failures_reach_the_caller :
  fst (fetchCraigslistListings Scenario.rt Scenario.timing_out_and_stuck
         "road bike" "94110" None false)
  = Threw "browserContext.close: Target closed"
  /\ fst (fetchCraigslistListings Scenario.rt
            (Notions.unable_to_launch Scenario.timing_out)
            "road bike" "94110" None false)
     = Threw "browserType.launch: Executable does not exist".
Proof. split; reflexivity. Qed.

(** C8, amended. Whatever the query, the zipcode and the options: once
    the browser session is there (a browser is held or launches, a context
    and a page open) and as long as the context closes, when the search
    page is not reached (the navigation times out, or the results selector
    never appears) [fetchCraigslistListings] returns the empty list to its
    caller and does not throw. *)
Theorem empty_list_when_search_page_unreachable :
  forall rt pw query zipcode options browserInstance,
    session_available pw browserInstance ->
    search_page_unreachable pw (buildSearchUrl rt query zipcode options) ->
    fst (fetchCraigslistListings rt pw query zipcode options browserInstance)
    = Returned [].
Proof.
  intros rt pw query zipcode options browserInstance Hs Hu.
  rewrite fetch_outcome by exact Hs.
  unfold try_fetch.
  destruct Hu as [[e He] | [e He]].
  - rewrite He. reflexivity.
  - destruct (goto pw _); [ | reflexivity]. rewrite He. reflexivity.
Qed.

(** A navigation that times out with no browser held yet, and a results
    selector that never appears with a browser already held. *)
Lemma empty_list_witness :
  fst (fetchCraigslistListings Scenario.rt Scenario.timing_out
         "road bike" "94110" None false) = Returned []
  /\ fst (fetchCraigslistListings Scenario.rt Scenario.no_results_selector
            "road bike" "94110" None true) = Returned [].
Proof.
  split.
  - apply empty_list_when_search_page_unreachable.
    + split; [right; exists tt; reflexivity | ].
      repeat split; exists tt; reflexivity.
    + left. eexists. reflexivity.
  - apply empty_list_when_search_page_unreachable.
    + split; [left; reflexivity | ].
      repeat split; exists tt; reflexivity.
    + right. eexists. reflexivity.
Defined.

(** When the page is reached the rows do come back. *)
Example rows_are_fetched :
  fst (fetchCraigslistListings Scenario.rt
         (Scenario.showing [Scenario.row "/bik/d/trek/7701.html" "Trek" 450])
         "road bike" "94110" None false)
  = Returned [ {| externalId := "7701"; title := "Trek"; price := Some (Fin 45000);
                  url := "https://sfbay.craigslist.org/bik/d/trek/7701.html";
                  description := Some "As new"; imageUrl := None; imageUrls := [];
                  location := Some "mission district"; postedAt := None |} ].
Proof. reflexivity. Qed.

End CraigslistFacts.

(* ================================================================== *)
(** ** The scan orchestrator *)
(* ================================================================== *)

Module SchedulerFacts.
Import JS.
Import Scheduler.
Import Spec.
#[local] Open Scope list_scope.

(** *** The table and its unique index *)

Lemma key_absent (sid ext : string) (ls : list Listing.t) :
  find (Listing.has_key sid ext) ls = None ->
  ~ In (sid, ext) (map Listing.key ls).
Proof.
  induction ls as [ | l ls IH]; simpl; intros Hfind Hin; [exact Hin | ].
  destruct (Listing.has_key sid ext l) eqn:Hk; [discriminate Hfind | ].
  destruct Hin as [Hl | Hin]; [ | exact (IH Hfind Hin)].
  unfold Listing.key in Hl. injection Hl as Hs He.
  unfold Listing.has_key in Hk. rewrite Hs, He, !String.eqb_refl in Hk.
  discriminate Hk.
Qed.

Lemma existsb_find {A : Type} (f : A -> bool) (l : list A) :
  find f l = None -> existsb f l = false.
Proof.
  induction l as [ | a l IH]; simpl; [reflexivity | ].
  destruct (f a); [discriminate | exact IH].
Qed.

Lemma mark_alerted_key (sid : string) (l : Listing.t) :
  Listing.key (mark_alerted sid l) = Listing.key l.
Proof. unfold mark_alerted. destruct (to_mark sid l); reflexivity. Qed.

Lemma keys_mark_alerted (sid : string) (ls : list Listing.t) :
  map Listing.key (map (mark_alerted sid) ls) = map Listing.key ls.
Proof.
  rewrite map_map. apply map_ext. intros l. apply mark_alerted_key.
Qed.

(** *** One turn of the loop over the candidates *)

Lemma scan_nil env search apiKey acc st :
  scan env search apiKey [] acc st = (Returned acc, st).
Proof. reflexivity. Qed.

Lemma scan_cons env search apiKey listing rest acc st :
  scan env search apiKey (listing :: rest) acc st
  = if prisma_fails env (calls st)
    then (Threw "PrismaClientError", tick st)
    else
      match find (Listing.has_key (Search.id search) (Craigslist.externalId listing))
              (listings st) with
      | Some _ => scan env search apiKey rest acc (tick st)
      | None =>
          let evaluation :=
            assessment (gemini env (S (calls st))) (for_evaluation search listing)
              apiKey in
          let st1 :=
            with_evaluated (Search.id search, Craigslist.externalId listing)
              (tick (tick st)) in
          if prisma_fails env (calls st1)
          then (Threw "PrismaClientError", tick st1)
          else
            let row := Listing.set_id (calls (tick st1))
                         (listing_data env search listing evaluation) in
            scan env search apiKey rest (tally acc row evaluation)
              (with_listings (listings st ++ [row]) (tick st1))
      end.
Proof.
  cbn [scan]. unfold bind at 1. unfold listing_findUnique, prisma.
  destruct (prisma_fails env (calls st)) eqn:F1; [reflexivity | ].
  cbn [listings tick].
  destruct (find _ (listings st)) as [existingListing | ] eqn:Hfind; [reflexivity | ].
  unfold bind at 1. unfold evaluateListing.
  rewrite EvaluatorFacts.evaluateListing_returns.
  cbn [calls tick]. fold (assessment (gemini env (S (calls st)))
                            (for_evaluation search listing) apiKey).
  unfold bind at 1. unfold listing_create, prisma.
  cbv zeta. cbn [calls tick with_evaluated].
  destruct (prisma_fails env (S (S (calls st)))) eqn:F2; [reflexivity | ].
  cbn [listings tick with_evaluated Listing.searchId Listing.externalId listing_data].
  rewrite (existsb_find _ _ Hfind). reflexivity.
Qed.

(** *** The loop over the candidates *)

Lemma grows_refl sid st : grows sid st st [] [].
Proof.
  unfold grows. rewrite !app_nil_r.
  repeat (split; [reflexivity | ]).
  split; [constructor | ].
  split; [constructor | ].
  split; [intros k [] | exists []; reflexivity].
Qed.

Lemma grows_tick sid st st' created sent :
  grows sid (tick st) st' created sent -> grows sid st st' created sent.
Proof. exact (fun H => H). Qed.

Lemma accumulates_tally acc acc' row evaluation created :
  accumulates (tally acc row evaluation) acc' created ->
  accumulates acc acc' (row :: created).
Proof.
  unfold accumulates, tally. cbn [filter List.length].
  destruct (Listing.isGoodDeal row); cbn [new_count good_count dealsToAlert List.length];
    rewrite ?length_app; cbn [List.length]; intros [H1 [H2 H3]]; repeat split; lia.
Qed.

Lemma scan_grows env search apiKey candidates :
  forall acc st,
  exists created sent,
    grows (Search.id search) st (after (scan env search apiKey candidates acc) st)
      created sent
    /\ (forall acc',
          result (scan env search apiKey candidates acc) st = Returned acc' ->
          sent = map Listing.key created /\ accumulates acc acc' created).
Proof.
  unfold after, result.
  induction candidates as [ | listing rest IH]; intros acc st.
  - exists [], []. rewrite scan_nil. split; [apply grows_refl | ].
    intros acc' H. injection H as <-. split; [reflexivity | ].
    unfold accumulates. cbn. repeat split; lia.
  - rewrite scan_cons.
    destruct (prisma_fails env (calls st)) eqn:F1.
    { exists [], []. split; [apply grows_tick, grows_refl | ].
      intros acc' H. discriminate H. }
    destruct (find _ (listings st)) as [existingListing | ] eqn:Hfind.
    { destruct (IH acc (tick st)) as [created [sent [Hg Hr]]].
      exists created, sent. split; [exact Hg | exact Hr]. }
    cbv zeta.
    set (k := (Search.id search, Craigslist.externalId listing)).
    set (evaluation := assessment _ _ _).
    set (st1 := with_evaluated k (tick (tick st))).
    destruct (prisma_fails env (calls st1)) eqn:F2.
    { exists [], [k]. split; [ | intros acc' H; discriminate H].
      unfold grows. cbn. rewrite app_nil_r.
      repeat (split; [reflexivity | ]).
      split; [constructor | ].
      split; [constructor; [intros [] | constructor] | ].
      split; [ | exists [k]; reflexivity].
      intros k' [<- | []]. split; [reflexivity | ].
      apply key_absent. exact Hfind. }
    set (row := Listing.set_id _ _).
    set (st2 := with_listings _ _).
    destruct (IH (tally acc row evaluation) st2) as [created [sent [Hg Hr]]].
    assert (Hrow : Listing.key row = k) by reflexivity.
    destruct Hg as [Hl [He [Hs [Ho [Hb [Hc [Hn [Hk [last Hp]]]]]]]]].
    exists (row :: created), (k :: sent). split.
    + unfold grows. rewrite Hl, He, Hs, Ho, Hb. cbn.
      rewrite <- !app_assoc. cbn.
      repeat (split; [reflexivity | ]).
      split; [constructor; [split; reflexivity | exact Hc] | ].
      split.
      { constructor; [ | exact Hn].
        intros Hin. apply Hk in Hin as [_ Hin]. apply Hin.
        unfold keys, st2. cbn. rewrite map_app, in_app_iff. right. left. exact Hrow. }
      split; [ | exists last; rewrite Hp; cbn; rewrite Hrow; reflexivity].
      intros k' [<- | Hin].
      { split; [reflexivity | apply key_absent; exact Hfind]. }
      apply Hk in Hin as [Hfst Hin]. split; [exact Hfst | ].
      intros Hin'. apply Hin.
      unfold keys, st2. cbn. rewrite map_app, in_app_iff. left. exact Hin'.
    + intros acc' H. apply Hr in H as [H1 H2]. split.
      * cbn. rewrite Hrow, H1. reflexivity.
      * eapply accumulates_tally. exact H2.
Qed.

(** *** After the loop *)

Lemma finish_run env search acc st :
  finish env search acc st
  = if prisma_fails env (calls st) then (Threw "PrismaClientError", tick st)
    else if existsb (fun s => String.eqb (Search.id s) (Search.id search)) (searches st)
    then
      let st1 := with_searches
                   (map (touch (Search.id search) (Date_now env (calls st)) (prisma_now env (calls st))) (searches st))
                   (tick st) in
      match dealsToAlert acc with
      | [] => (Returned (counted acc 0), st1)
      | _ :: _ =>
          let params := digest search (dealsToAlert acc) in
          if Email.sendDealAlertEmail (resend env (calls st1)) params
          then
            let st2 := with_sent params (tick st1) in
            if prisma_fails env (calls st2)
            then (Threw "PrismaClientError", tick st2)
            else (Returned (counted acc (List.length (dealsToAlert acc))),
                  with_listings
                    (map (mark_alerted (Search.id search)) (listings st2)) (tick st2))
          else (Returned (counted acc 0), tick st1)
      end
    else (Threw "Record to update not found", tick st).
Proof.
  unfold finish. unfold bind at 1. unfold search_update_lastChecked, prisma.
  destruct (prisma_fails env (calls st)) eqn:F1; [reflexivity | ].
  cbn [searches tick].
  destruct (existsb _ (searches st)) eqn:Hex; [ | reflexivity].
  cbv zeta. unfold bind at 1.
  destruct (dealsToAlert acc) as [ | deal deals] eqn:Hdeals; [reflexivity | ].
  unfold bind at 1. unfold sendDealAlertEmail.
  destruct (Email.sendDealAlertEmail _ _) eqn:Hsent; [ | reflexivity].
  unfold bind at 1. unfold listing_updateMany_alertSent, prisma.
  cbn [calls tick with_sent with_searches].
  destruct (prisma_fails env (S (S (calls st)))) eqn:F2; reflexivity.
Qed.

Lemma finish_effect env search acc st :
  evaluated (after (finish env search acc) st) = evaluated st
  /\ (listings (after (finish env search acc) st) = listings st
      \/ listings (after (finish env search acc) st)
         = map (mark_alerted (Search.id search)) (listings st))
  /\ (forall counts,
        result (finish env search acc) st = Returned counts ->
        newListings counts = new_count acc
        /\ goodDeals counts = good_count acc
        /\ (alertsSent counts = 0%nat
            \/ alertsSent counts = List.length (dealsToAlert acc))
        /\ (alertsSent counts <> 0%nat ->
            listings (after (finish env search acc) st)
            = map (mark_alerted (Search.id search)) (listings st))
        /\ searches (after (finish env search acc) st)
           = map (touch (Search.id search) (Date_now env (calls st)) (prisma_now env (calls st))) (searches st)
        /\ (calls st < calls (after (finish env search acc) st))%nat).
Proof.
  unfold after, result. rewrite finish_run.
  destruct (prisma_fails env (calls st)) eqn:F1.
  { cbn. split; [reflexivity | ]. split; [left; reflexivity | ].
    intros counts H; discriminate H. }
  destruct (existsb _ (searches st)) eqn:Hex.
  2:{ cbn. split; [reflexivity | ]. split; [left; reflexivity | ].
      intros counts H; discriminate H. }
  cbv zeta.
  destruct (dealsToAlert acc) as [ | deal deals] eqn:Hdeals.
  { cbn. split; [reflexivity | ]. split; [left; reflexivity | ].
    intros counts H. injection H as <-. cbn.
    repeat (split; [reflexivity || (left; reflexivity) || lia || (intros Hn; now elim Hn) | ]).
    lia. }
  destruct (Email.sendDealAlertEmail _ _) eqn:Hsent.
  2:{ cbn. split; [reflexivity | ]. split; [left; reflexivity | ].
      intros counts H. injection H as <-. cbn.
      repeat (split; [reflexivity || (left; reflexivity) || lia || (intros Hn; now elim Hn) | ]).
      lia. }
  cbv zeta. cbn [calls tick with_sent with_searches].
  destruct (prisma_fails env (S (S (calls st)))) eqn:F2.
  { cbn. split; [reflexivity | ]. split; [left; reflexivity | ].
    intros counts H; discriminate H. }
  cbn. split; [reflexivity | ]. split; [right; reflexivity | ].
  intros counts H. injection H as <-. cbn.
  split; [reflexivity | ]. split; [reflexivity | ].
  split; [right; reflexivity | ].
  split; [reflexivity | ]. split; [reflexivity | lia].
Qed.

Lemma scan_calls env search apiKey candidates :
  forall acc st,
    (calls st <= calls (after (scan env search apiKey candidates acc) st))%nat.
Proof.
  unfold after.
  induction candidates as [ | listing rest IH]; intros acc st.
  - rewrite scan_nil. cbn. lia.
  - rewrite scan_cons.
    destruct (prisma_fails env (calls st)); [cbn; lia | ].
    destruct (find _ (listings st)).
    { etransitivity; [ | apply IH]. cbn. lia. }
    cbv zeta.
    destruct (prisma_fails env _); [cbn; lia | ].
    etransitivity; [ | apply IH]. cbn. lia.
Qed.

(** *** processSearch *)

Lemma processSearch_run env sid st :
  processSearch env sid st
  = if prisma_fails env (calls st) then (Threw "PrismaClientError", tick st)
    else
      match search_row sid st with
      | None => (Returned no_counts, tick st)
      | Some search =>
          if negb (Search.isActive search) then (Returned no_counts, tick st)
          else
            match fetchCraigslistListings env (Search.query search)
                    (Search.zipcode search) (Some (scan_options search)) (tick st) with
            | (Threw e, st1) => (Threw e, st1)
            | (Returned candidates, st1) =>
                match GEMINI_API_KEY env with
                | None => (Returned no_counts, st1)
                | Some apiKey =>
                    if String.eqb apiKey "" then (Returned no_counts, st1)
                    else
                      match scan env search apiKey candidates start st1 with
                      | (Returned acc, st2) => finish env search acc st2
                      | (Threw e, st2) => (Threw e, st2)
                      end
                end
            end
      end.
Proof.
  unfold processSearch. unfold bind at 1. unfold search_findUnique, prisma.
  destruct (prisma_fails env (calls st)); [reflexivity | ].
  unfold search_row. cbn [searches tick].
  destruct (find _ (searches st)) as [search | ]; [ | reflexivity].
  destruct (negb (Search.isActive search)); [reflexivity | ].
  unfold bind at 1.
  destruct (fetchCraigslistListings _ _ _ _ _) as [[candidates | e] st1];
    [ | reflexivity].
  destruct (GEMINI_API_KEY env) as [apiKey | ]; [ | reflexivity].
  destruct (String.eqb apiKey ""); reflexivity.
Qed.

Lemma search_row_id sid st search :
  search_row sid st = Some search -> Search.id search = sid.
Proof.
  unfold search_row. intros H. apply find_some in H as [_ H].
  now apply String.eqb_eq.
Qed.

(** The adapter moves nothing but the browser singleton and the counter. *)
Lemma fetch_frame env query zipcode options st :
  let st1 := after (fetchCraigslistListings env query zipcode options) st in
  listings st1 = listings st /\ searches st1 = searches st
  /\ evaluated st1 = evaluated st /\ outbox st1 = outbox st
  /\ calls st1 = S (calls st).
Proof.
  unfold after, fetchCraigslistListings.
  destruct (Craigslist.fetchCraigslistListings _ _ _ _ _ _) as [r b].
  cbn. repeat split.
Qed.

Lemma scanned_nothing sid st r st' :
  listings st' = listings st ->
  evaluated st' = evaluated st ->
  (forall counts, r = Returned counts -> counts = no_counts) ->
  scanned sid st r st' [] [].
Proof.
  intros Hl He Hr. unfold scanned. rewrite !app_nil_r.
  split; [left; exact Hl | ].
  split; [exact He | ].
  split; [constructor | ].
  split; [constructor | ].
  split; [intros k [] | ].
  split; [exists []; reflexivity | ].
  intros counts H. apply Hr in H. subst counts. cbn.
  split; [reflexivity | ]. split; [reflexivity | ]. split; [reflexivity | ].
  split; [left; reflexivity | ]. intros Hn. now elim Hn.
Qed.

Lemma processSearch_scanned env sid st :
  exists created sent,
    scanned sid st (result (processSearch env sid) st)
      (after (processSearch env sid) st) created sent.
Proof.
  unfold after, result. rewrite processSearch_run.
  destruct (prisma_fails env (calls st)) eqn:F1.
  { exists [], []. apply scanned_nothing; try reflexivity. intros c H; discriminate H. }
  destruct (search_row sid st) as [search | ] eqn:Hrow.
  2:{ exists [], []. apply scanned_nothing; try reflexivity.
      intros c H; now injection H. }
  destruct (negb (Search.isActive search)).
  { exists [], []. apply scanned_nothing; try reflexivity.
    intros c H; now injection H. }
  pose proof (fetch_frame env (Search.query search) (Search.zipcode search)
                (Some (scan_options search)) (tick st)) as Hf.
  unfold after in Hf.
  destruct (fetchCraigslistListings _ _ _ _ _) as [[candidates | e] st1].
  2:{ cbn in Hf. destruct Hf as [Hl [_ [He _]]].
      exists [], []. apply scanned_nothing; try assumption.
      intros c H; discriminate H. }
  cbn in Hf. destruct Hf as [Hl1 [Hs1 [He1 [Ho1 Hc1]]]].
  destruct (GEMINI_API_KEY env) as [apiKey | ].
  2:{ exists [], []. apply scanned_nothing; try assumption.
      intros c H; now injection H. }
  destruct (String.eqb apiKey "").
  { exists [], []. apply scanned_nothing; try assumption.
    intros c H; now injection H. }
  apply search_row_id in Hrow.
  destruct (scan_grows env search apiKey candidates start st1)
    as [created [sent [Hg Hr]]].
  unfold after, result in Hg, Hr.
  destruct (scan env search apiKey candidates start st1) as [[acc | e] st2].
  2:{ cbn [fst snd] in Hg, Hr |- *.
      destruct Hg as [Hl [He [_ [_ [_ [Hc [Hn [Hk Hp]]]]]]]].
      exists created, sent. unfold scanned. rewrite Hrow in *.
      split; [left; rewrite Hl, Hl1; reflexivity | ].
      split; [rewrite He, He1; reflexivity | ].
      split; [exact Hc | ]. split; [exact Hn | ].
      split; [ | split; [exact Hp | intros c H; discriminate H]].
      intros k Hin. apply Hk in Hin. unfold keys in *. now rewrite <- Hl1. }
  cbn [fst snd] in Hg, Hr.
  destruct Hg as [Hl [He [_ [_ [_ [Hc [Hn [Hk Hp]]]]]]]].
  destruct (Hr acc eq_refl) as [Hsent [Hnew [Hgood Hdeals]]].
  cbn in Hnew, Hgood, Hdeals.
  destruct (finish_effect env search acc st2) as [Fe [Fl Fr]].
  unfold after, result in Fe, Fl, Fr.
  exists created, sent. unfold scanned. rewrite Hrow in *.
  split.
  { destruct Fl as [Fl | Fl]; [left | right]; rewrite Fl, Hl, Hl1; reflexivity. }
  split; [rewrite Fe, He, He1; reflexivity | ].
  split; [exact Hc | ]. split; [exact Hn | ].
  split.
  { intros k Hin. apply Hk in Hin. unfold keys in *. now rewrite <- Hl1. }
  split; [exact Hp | ].
  intros counts H. apply Fr in H as [H1 [H2 [H3 [H4 _]]]].
  split; [exact Hsent | ].
  split; [rewrite H1; exact Hnew | ].
  split; [rewrite H2; exact Hgood | ].
  split; [rewrite <- Hdeals; exact H3 | ].
  intros Hn0. rewrite (H4 Hn0), Hl, Hl1. reflexivity.
Qed.

Lemma scanned_keys sid st r st' created sent :
  scanned sid st r st' created sent ->
  keys st' = keys st ++ map Listing.key created.
Proof.
  intros [[Hl | Hl] _]; unfold keys; rewrite Hl.
  - apply map_app.
  - rewrite keys_mark_alerted. apply map_app.
Qed.

Lemma scanned_inserted sid st r st' created sent :
  scanned sid st r st' created sent ->
  NoDup (map Listing.key created)
  /\ (forall k, In k (map Listing.key created) -> In k sent).
Proof.
  intros [_ [_ [_ [Hn [_ [[last Hp] _]]]]]]. subst sent. split.
  - eapply NoDup_app_remove_r. exact Hn.
  - intros k Hin. apply in_or_app. left. exact Hin.
Qed.

(** C1. Run the scan of a search twice, in any two worlds (so with the
    same acquisition result set in any order, or with another one): the
    keys (searchId, externalId) inserted by the two runs together are
    pairwise distinct and none of them was in the table before, so each
    external id is inserted at most once in total.  A candidate whose key
    is already in the table when a run starts is neither sent to the
    model nor inserted by that run. *)
Theorem dedup_across_two_runs :
  forall env1 env2 sid st0,
    let st1 := after (processSearch env1 sid) st0 in
    let st2 := after (processSearch env2 sid) st1 in
    exists inserted1 inserted2 sent1 sent2,
      keys st1 = keys st0 ++ inserted1
      /\ keys st2 = keys st1 ++ inserted2
      /\ NoDup (inserted1 ++ inserted2)
      /\ (forall k, In k (inserted1 ++ inserted2) ->
                    fst k = sid /\ ~ In k (keys st0))
      /\ evaluated st1 = evaluated st0 ++ sent1
      /\ evaluated st2 = evaluated st1 ++ sent2
      /\ (forall k, In k (keys st0) -> ~ In k sent1 /\ ~ In k inserted1)
      /\ (forall k, In k (keys st1) -> ~ In k sent2 /\ ~ In k inserted2).
Proof.
  intros env1 env2 sid st0 st1 st2.
  destruct (processSearch_scanned env1 sid st0) as [created1 [sent1 H1]].
  destruct (processSearch_scanned env2 sid st1) as [created2 [sent2 H2]].
  fold st1 in H1. fold st2 in H2.
  pose proof (scanned_keys _ _ _ _ _ _ H1) as K1.
  pose proof (scanned_keys _ _ _ _ _ _ H2) as K2.
  destruct (scanned_inserted _ _ _ _ _ _ H1) as [N1 I1].
  destruct (scanned_inserted _ _ _ _ _ _ H2) as [N2 I2].
  destruct H1 as [_ [E1 [_ [_ [S1 _]]]]].
  destruct H2 as [_ [E2 [_ [_ [S2 _]]]]].
  exists (map Listing.key created1), (map Listing.key created2), sent1, sent2.
  split; [exact K1 | ]. split; [exact K2 | ].
  split.
  { apply NoDup_app; [exact N1 | exact N2 | ].
    intros k Hin1 Hin2. apply I2, S2 in Hin2 as [_ Hin2]. apply Hin2.
    rewrite K1. apply in_or_app. right. exact Hin1. }
  split.
  { intros k Hin. apply in_app_or in Hin as [Hin | Hin].
    - apply I1, S1 in Hin. exact Hin.
    - apply I2, S2 in Hin as [Hf Hin]. split; [exact Hf | ].
      intros Hin0. apply Hin. rewrite K1. apply in_or_app. left. exact Hin0. }
  split; [exact E1 | ]. split; [exact E2 | ].
  split.
  - intros k Hin. split.
    + intros Hs. apply S1 in Hs as [_ Hs]. exact (Hs Hin).
    + intros Hs. apply I1, S1 in Hs as [_ Hs]. exact (Hs Hin).
  - intros k Hin. split.
    + intros Hs. apply S2 in Hs as [_ Hs]. exact (Hs Hin).
    + intros Hs. apply I2, S2 in Hs as [_ Hs]. exact (Hs Hin).
Qed.

(** The unique index on (searchId, externalId) is kept by a scan. *)
Lemma unique_index_kept env sid st :
  NoDup (keys st) -> NoDup (keys (after (processSearch env sid) st)).
Proof.
  intros Hn.
  destruct (processSearch_scanned env sid st) as [created [sent H]].
  rewrite (scanned_keys _ _ _ _ _ _ H).
  destruct (scanned_inserted _ _ _ _ _ _ H) as [N I].
  destruct H as [_ [_ [_ [_ [S _]]]]].
  apply NoDup_app; [exact Hn | exact N | ].
  intros k Hin Hin'. apply I, S in Hin' as [_ Hin']. exact (Hin' Hin).
Qed.

(** Two runs on the same two candidates, returned in the two orders: two
    rows after the first run, none added and nothing sent to the model by
    the second. *)
Example second_run_inserts_nothing :
  let run1 := processSearch Scenario.later_scan "s1" (Scenario.store [Scenario.s1]) in
  let run2 := processSearch Scenario.later_scan_reordered "s1" (snd run1) in
  fst run1 = Returned {| newListings := 2; goodDeals := 2; alertsSent := 2 |}
  /\ fst run2 = Returned {| newListings := 0; goodDeals := 0; alertsSent := 0 |}
  /\ keys (snd run1) = [("s1", "7702"); ("s1", "7701")]
  /\ keys (snd run2) = keys (snd run1)
  /\ evaluated (snd run2) = evaluated (snd run1).
Proof. vm_compute. repeat split. Qed.

(** *** The alert flags *)




(** The tables of that run: the Trek of the first scan was not among the
    alerts of the later scan (it sent one, for the Giant), yet both rows
    end with [alertSent = true]. *)
Example alert_scope_tables :
  map (fun l => (Listing.externalId l, Listing.isGoodDeal l, Listing.alertSent l))
    (listings Scenario.after_first_scan)
  = [("7701", true, false)]
  /\ map (fun p => map Email.title (Email.deals p))
       (outbox (snd (processSearch Scenario.later_scan "s1"
                       Scenario.after_first_scan)))
     = [["Giant"]]
  /\ map (fun l => (Listing.externalId l, Listing.isGoodDeal l, Listing.alertSent l))
       (listings (snd (processSearch Scenario.later_scan "s1"
                         Scenario.after_first_scan)))
     = [("7701", true, true); ("7702", true, true)].
Proof. vm_compute. repeat split. Qed.



(** *** The checkpoint *)

Lemma find_touch sid now stamp ss :
  find (fun s => String.eqb (Search.id s) sid) (map (touch sid now stamp) ss)
  = option_map (fun s => Search.set_updatedAt stamp (Search.set_lastChecked now s))
      (find (fun s => String.eqb (Search.id s) sid) ss).
Proof.
  induction ss as [ | s ss IH]; [reflexivity | ].
  cbn [map find].
  destruct (String.eqb (Search.id s) sid) eqn:E.
  - assert (Ht : touch sid now stamp s
                 = Search.set_updatedAt stamp (Search.set_lastChecked now s))
      by (unfold touch; rewrite E; reflexivity).
    rewrite Ht. cbn. rewrite E. reflexivity.
  - assert (Ht : touch sid now stamp s = s)
      by (unfold touch; rewrite E; reflexivity).
    rewrite Ht, E. exact IH.
Qed.

(** C6, as the claim states it, fails twice: without the AI credential
    the scan returns before the update, and when an insertion throws in
    the middle of the loop the update is never reached; [lastChecked]
    stays null in both runs. *)
Lemma lastChecked_counterexample :
  ~ lastChecked_always_updated Scenario.no_credential "s1"
      (Scenario.store [Scenario.s1])
  /\ ~ lastChecked_always_updated Scenario.second_insert_fails "s1"
        (Scenario.store [Scenario.s1]).
Proof.
  split; intros H.
  - destruct (H Scenario.s1 eq_refl eq_refl) as [search' [n [Hrow [_ Hlc]]]].
    vm_compute in Hrow. injection Hrow as <-. discriminate Hlc.
  - destruct (H Scenario.s1 eq_refl eq_refl) as [search' [n [Hrow [_ Hlc]]]].
    vm_compute in Hrow. injection Hrow as <-. discriminate Hlc.
Qed.

Example lastChecked_runs :
  processSearch Scenario.no_credential "s1" (Scenario.store [Scenario.s1])
  = (Returned no_counts,
     with_browser true (tick (tick (Scenario.store [Scenario.s1]))))
  /\ fst (processSearch Scenario.second_insert_fails "s1"
            (Scenario.store [Scenario.s1]))
     = Threw "PrismaClientError"
  /\ map Search.lastChecked
       (searches (snd (processSearch Scenario.second_insert_fails "s1"
                         (Scenario.store [Scenario.s1]))))
     = [None].
Proof. vm_compute. repeat split. Qed.

(** C6, amended. For a scan of an existing active search: when the AI
    credential is set and the scan returns (nothing threw on the way),
    [lastChecked] holds a time read during that scan, whatever the counts
    and whether or not the notification succeeded; when the credential is
    missing the scan leaves the Search table as it was, and the counts it
    returns are zero. *)
Theorem lastChecked_updated_when_scan_completes :
  forall env sid st search,
    search_row sid st = Some search ->
    Search.isActive search = true ->
    (has_credential env ->
     forall counts st',
       processSearch env sid st = (Returned counts, st') ->
       lastChecked_updated env sid st st')
    /\ (~ has_credential env ->
        searches (after (processSearch env sid) st) = searches st
        /\ forall counts,
             result (processSearch env sid) st = Returned counts ->
             counts = no_counts).
Proof.
  intros env sid st search Hrow Hactive.
  pose proof (search_row_id _ _ _ Hrow) as Hid.
  unfold after, result. rewrite processSearch_run, Hrow, Hactive. cbn [negb].
  pose proof (fetch_frame env (Search.query search) (Search.zipcode search)
                (Some (scan_options search)) (tick st)) as Hf.
  unfold after in Hf.
  destruct (fetchCraigslistListings _ _ _ _ _) as [[candidates | e] st1];
    cbn in Hf; destruct Hf as [Hl1 [Hs1 [He1 [Ho1 Hc1]]]].
  2:{ destruct (prisma_fails env (calls st)); split;
        try (intros _ counts st' H; discriminate H);
        intros _; (split; [cbn; try exact Hs1; reflexivity | intros c H; discriminate H]). }
  destruct (prisma_fails env (calls st)) eqn:F1.
  { split; [intros _ counts st' H; discriminate H | ].
    intros _. split; [reflexivity | intros c H; discriminate H]. }
  split.
  - intros [apiKey [Hkey Hne]] counts st'. rewrite Hkey.
    apply String.eqb_neq in Hne. rewrite Hne.
    destruct (scan_grows env search apiKey candidates start st1)
      as [created [sent [Hg _]]].
    pose proof (scan_calls env search apiKey candidates start st1) as Hcalls.
    unfold after in Hg, Hcalls.
    destruct (scan env search apiKey candidates start st1) as [[acc | e] st2];
      [ | intros H; discriminate H].
    cbn [snd] in Hg, Hcalls.
    destruct Hg as [_ [_ [Hs2 _]]].
    intros Hfin.
    destruct (finish_effect env search acc st2) as [_ [_ Fr]].
    unfold after, result in Fr. rewrite Hfin in Fr. cbn [fst snd] in Fr.
    destruct (Fr counts eq_refl) as [_ [_ [_ [_ [Hs' Hc']]]]].
    exists (Search.set_updatedAt (prisma_now env (calls st2))
              (Search.set_lastChecked (Date_now env (calls st2)) search)), (calls st2).
    split; [ | split; [lia | reflexivity]].
    unfold search_row in *. rewrite Hs', Hid, find_touch, Hs2, Hs1.
    cbn [searches tick]. rewrite Hrow. reflexivity.
  - intros Hno.
    destruct (GEMINI_API_KEY env) as [apiKey | ] eqn:Hkey.
    + destruct (String.eqb apiKey "") eqn:Hempty.
      * split; [exact Hs1 | intros c H; now injection H].
      * elim Hno. exists apiKey. split; [exact Hkey | ].
        now apply String.eqb_neq.
    + split; [exact Hs1 | intros c H; now injection H].
Qed.

(** A scan that completes while its notification fails, and a scan
    without the credential. *)
Lemma lastChecked_witness :
  lastChecked_updated Scenario.first_scan "s1" (Scenario.store [Scenario.s1])
    Scenario.after_first_scan
  /\ searches (after (processSearch Scenario.no_credential "s1")
                 (Scenario.store [Scenario.s1]))
     = [Scenario.s1].
Proof.
  destruct (lastChecked_updated_when_scan_completes Scenario.first_scan "s1"
              (Scenario.store [Scenario.s1]) Scenario.s1 eq_refl eq_refl)
    as [Hyes _].
  destruct (lastChecked_updated_when_scan_completes Scenario.no_credential "s1"
              (Scenario.store [Scenario.s1]) Scenario.s1 eq_refl eq_refl)
    as [_ Hno].
  assert (Hrun : processSearch Scenario.first_scan "s1" (Scenario.store [Scenario.s1])
                 = (Returned {| newListings := 1; goodDeals := 1; alertsSent := 0 |},
                    Scenario.after_first_scan))
    by (vm_compute; reflexivity).
  assert (Hcred : has_credential Scenario.first_scan).
  { exists "key". split; [reflexivity | discriminate]. }
  split.
  - exact (Hyes Hcred _ _ Hrun).
  - apply Hno. intros [apiKey [Hkey _]]. discriminate Hkey.
Defined.

(** *** The sweep over all the active searches *)

(** The loop of [processAllSearches] never throws: it makes every attempt
    and adds up what the attempts that returned have counted. *)
Lemma sweep_attempts env activeSearches :
  forall totals st,
    sweep env activeSearches totals st
    = (Returned (fold_left add_counts
                   (map contribution
                      (fst (attempts env (map Search.id activeSearches) st)))
                   totals),
       snd (attempts env (map Search.id activeSearches) st)).
Proof.
  induction activeSearches as [ | search rest IH]; intros totals st.
  - reflexivity.
  - cbn [sweep map attempts].
    destruct (processSearch env (Search.id search) st) as [[counts | e] st1].
    + rewrite IH.
      destruct (attempts env (map Search.id rest) st1) as [rs st2]. reflexivity.
    + rewrite IH.
      destruct (attempts env (map Search.id rest) st1) as [rs st2]. cbn.
      assert (Hz : add_counts totals no_counts = totals).
      { destruct totals as [a b c]. unfold add_counts. cbn.
        now rewrite !Nat.add_0_r. }
      rewrite Hz. reflexivity.
Qed.

Lemma attempts_length env ids :
  forall st, List.length (fst (attempts env ids st)) = List.length ids.
Proof.
  induction ids as [ | id rest IH]; intros st; [reflexivity | ].
  cbn [attempts].
  destruct (processSearch env id st) as [r st1].
  specialize (IH st1).
  destruct (attempts env rest st1) as [rs st2]. cbn in *. now rewrite IH.
Qed.

(** C7. In a sweep over all the active searches (the list of them having
    been read, and the browser closing normally at the end) an attempt
    that throws does not stop the sweep: every active search is attempted,
    in order, each from the state its predecessor left; the totals are the
    sums over the attempts that returned, a throwing attempt adding
    nothing; and [searchesProcessed] is the number of active searches. *)
Theorem batch_isolation :
  forall env st,
    prisma_fails env (calls st) = false ->
    (forall n, succeeds (Craigslist.browser_close (playwright env n))) ->
    let active := filter Search.isActive (searches st) in
    let runs := attempts env (map Search.id active) (tick st) in
    exists summary st',
      processAllSearches env st = (Returned summary, st')
      /\ List.length (fst runs) = List.length active
      /\ searchesProcessed summary = List.length active
      /\ totalNewListings summary = newListings (total (fst runs))
      /\ totalGoodDeals summary = goodDeals (total (fst runs))
      /\ totalAlertsSent summary = alertsSent (total (fst runs))
      /\ listings st' = listings (snd runs)
      /\ searches st' = searches (snd runs)
      /\ evaluated st' = evaluated (snd runs)
      /\ outbox st' = outbox (snd runs).
Proof.
  intros env st Hread Hclose active runs.
  unfold processAllSearches. unfold bind at 1.
  unfold search_findMany_active, prisma. rewrite Hread.
  cbn [searches tick]. fold active.
  rewrite sweep_attempts. fold runs.
  unfold closeBrowser, Craigslist.closeBrowser.
  destruct (browserInstance (snd runs)).
  - destruct (Hclose (calls (snd runs))) as [u Hu]. rewrite Hu.
    eexists. eexists. split; [reflexivity | ].
    split; [unfold runs; rewrite attempts_length, length_map; reflexivity | ].
    cbn. repeat split.
  - eexists. eexists. split; [reflexivity | ].
    split; [unfold runs; rewrite attempts_length, length_map; reflexivity | ].
    cbn. repeat split.
Qed.

(** Three active searches; the attempt on the second one throws. *)
Lemma batch_isolation_witness :
  fst (attempts Scenario.sweep_with_a_failure ["s1"; "s2"; "s3"]
         (tick (Scenario.store [Scenario.s1; Scenario.s2; Scenario.s3])))
  = [Returned {| newListings := 2; goodDeals := 1; alertsSent := 1 |};
     Threw "PrismaClientError";
     Returned {| newListings := 2; goodDeals := 1; alertsSent := 1 |}]
  /\ exists st',
       processAllSearches Scenario.sweep_with_a_failure
         (Scenario.store [Scenario.s1; Scenario.s2; Scenario.s3])
       = (Returned {| searchesProcessed := 3; totalNewListings := 4;
                      totalGoodDeals := 2; totalAlertsSent := 2 |}, st').
Proof.
  split; [vm_compute; reflexivity | ].
  destruct (batch_isolation Scenario.sweep_with_a_failure
              (Scenario.store [Scenario.s1; Scenario.s2; Scenario.s3])
              eq_refl (fun n => ex_intro _ tt eq_refl))
    as [summary [st' [Hrun [_ [Hn [Hnew [Hgood [Hsent _]]]]]]]].
  exists st'. rewrite Hrun. f_equal. f_equal.
  destruct summary as [n a b c].
  cbn [searchesProcessed totalNewListings totalGoodDeals totalAlertsSent]
    in Hn, Hnew, Hgood, Hsent.
  subst n a b c. vm_compute. reflexivity.
Defined.

End SchedulerFacts.

(* ================================================================== *)
(** ** Arithmetic in doubles *)
(* ================================================================== *)

Module DoubleFacts.
Import JS.
#[local] Open Scope Z_scope.

Lemma Qred_inject_Z (z : Z) : Qred (inject_Z z) = inject_Z z.
Proof.
unfold Qred, inject_Z.
generalize (Z.ggcd_gcd z 1) (Z.ggcd_correct_divisors z 1).
destruct (Z.ggcd z 1) as [g [r1 r2]]. simpl.
intros Hg [H1 H2]. rewrite Z.gcd_1_r in Hg. subst g.
rewrite Z.mul_1_l in H1, H2. subst r1 r2. reflexivity.
Qed.

Lemma pow2_nonpos (j : Z) :
0 <= j -> (pow2 (- j) * inject_Z (2 ^ j) == 1)%Q.
Proof.
intros Hj. unfold pow2.
destruct (Z.leb_spec 0 (- j)) as [H | H].
- assert (j = 0) by lia. subst j. reflexivity.
- rewrite Z.opp_involutive.
  assert (Hpos : 0 < 2 ^ j) by (apply Z.pow_pos_nonneg; lia).
  unfold Qeq, Qmult, inject_Z. cbn [Qnum Qden].
  rewrite Pos.mul_1_r, Z2Pos.id by exact Hpos. lia.
Qed.

Lemma pow2_nonzero (k : Z) : ~ (pow2 k == 0)%Q.
Proof.
unfold pow2. destruct (Z.leb_spec 0 k) as [H | H].
- unfold Qeq, inject_Z. simpl.
  assert (0 < 2 ^ k) by (apply Z.pow_pos_nonneg; lia). lia.
- unfold Qeq. simpl. lia.
Qed.

(** A real that is an integer is its own rounding. *)
Lemma round_half_even_integer (m : Q) (n : Z) :
(m == inject_Z n)%Q -> round_half_even m = n.
Proof.
intros Hm. unfold round_half_even.
rewrite (Qfloor_comp _ _ Hm), Qfloor_Z.
assert (H0 : (m - inject_Z n == 0)%Q) by (rewrite Hm; ring).
rewrite (Qcompare_comp _ _ H0 _ _ (Qeq_refl (1 # 2))). reflexivity.
Qed.

Lemma exponent_le (z : Z) : exponent (inject_Z z) <= Z.log2 (Z.abs z).
Proof.
unfold exponent. cbn [Qnum Qden inject_Z].
change (Z.log2 1) with 0. rewrite Z.sub_0_r.
destruct (Qle_bool _ _); lia.
Qed.

(** The integers below [2^53] in absolute value are doubles. *)
Lemma to_double_exact (z : Z) :
Z.abs z < 2 ^ 53 -> to_double (inject_Z z) = Fin (inject_Z z).
Proof.
intros Hz. unfold to_double.
unfold is_zero. cbn [Qnum inject_Z].
destruct (Z.eqb_spec z 0) as [-> | Hnz]; [reflexivity | ].
set (k := Z.max (exponent (inject_Z z)) (-1022) - 52).
assert (Hk : k <= 0).
{ pose proof (exponent_le z) as He.
  assert (Z.log2 (Z.abs z) < 53) by (apply Z.log2_lt_pow2; lia).
  unfold k. lia. }
set (j := - k).
assert (Hp : (pow2 k * inject_Z (2 ^ j) == 1)%Q).
{ replace k with (- j) by (unfold j; lia). apply pow2_nonpos. unfold j. lia. }
assert (Hm : (inject_Z z / pow2 k == inject_Z (z * 2 ^ j))%Q).
{ apply (Qmult_inj_r _ _ (pow2 k) (pow2_nonzero k)).
  rewrite Qmult_comm, Qmult_div_r by apply pow2_nonzero.
  rewrite inject_Z_mult, <- Qmult_assoc, (Qmult_comm (inject_Z (2 ^ j))), Hp.
  ring. }
rewrite (round_half_even_integer _ _ Hm).
assert (Hr : (inject_Z (z * 2 ^ j) * pow2 k == inject_Z z)%Q).
{ rewrite inject_Z_mult, <- Qmult_assoc, (Qmult_comm (inject_Z (2 ^ j))), Hp.
  ring. }
rewrite (Qred_complete _ _ Hr), Qred_inject_Z.
change (Qabs (inject_Z z)) with (inject_Z (Z.abs z)).
change (pow2 1024) with (inject_Z (2 ^ 1024)).
rewrite NumberFacts.leb_inject_Z.
assert (2 ^ 53 < 2 ^ 1024) by (apply Z.pow_lt_mono_r; lia).
destruct (Z.leb_spec (2 ^ 1024) (Z.abs z)); [lia | reflexivity].
Qed.

(** Whole dollars are turned into cents exactly as long as the cents stay
  below [2^53]. *)
Lemma times_100_exact (dollars : Z) :
Z.abs dollars <= 90071992547409 ->
times (Fin (inject_Z dollars)) (Fin 100) = Fin (inject_Z (dollars * 100)).
Proof.
intros Hn. cbn [times].
change (inject_Z dollars * 100)%Q with (inject_Z (dollars * 100)).
apply to_double_exact.
change (2 ^ 53) with 9007199254740992. lia.
Qed.

(** Beyond, the product is rounded: 9007199254740994 dollars are not
  stored as 900719925474099400 cents. *)
Example times_100_rounds :
times (Fin 9007199254740994) (Fin 100) = Fin 900719925474099456.
Proof. vm_compute. reflexivity. Qed.

Lemma truthy_number (p : number) :
truthy (Num p) = false <-> p = NaN \/ exists q, p = Fin q /\ (q == 0)%Q.
Proof.
destruct p as [ | | | q]; cbn [truthy].
- split; [intros _; left; reflexivity | reflexivity].
- split; [discriminate | ]. intros [H | [q [H _]]]; discriminate H.
- split; [discriminate | ]. intros [H | [q [H _]]]; discriminate H.
- unfold is_zero. rewrite negb_false_iff, Z.eqb_eq. split.
  + intros H. right. exists q. split; [reflexivity | ].
    unfold Qeq. rewrite H. reflexivity.
  + intros [H | [q' [H Hq]]]; [discriminate H | ].
    injection H as <-. unfold Qeq in Hq. simpl in Hq. lia.
Qed.

End DoubleFacts.

(* ================================================================== *)
(** ** Further properties of the evaluator *)
(* ================================================================== *)

Module EvaluatorMore.
Import JS.
Import Evaluator.
Import NumberFacts.
Import Notions.

Lemma inject_Z_inj (a b : Z) : Fin (inject_Z a) = Fin (inject_Z b) -> a = b.
Proof. intros H. now injection H. Qed.

(** The threshold on a clamped score. *)
Lemma clamp_ge_70 (n : number) :
num_ge (clamp n) (Fin 70) = true <-> integer_between 70 100 (clamp n).
Proof.
destruct n as [ | | | q].
- rewrite clamp_NaN. split; [discriminate | ].
  intros H. now apply NaN_not_integer in H.
- rewrite clamp_PosInf. split; [ | reflexivity].
  intros _. exists 100%Z. split; [lia | reflexivity].
- rewrite clamp_NegInf. split; [discriminate | ].
  intros [k [Hk Hn]]. change (Fin 1) with (Fin (inject_Z 1)) in Hn.
  apply inject_Z_inj in Hn. lia.
- rewrite clamp_Fin. set (k := Z.max 1 (Z.min 100 (Qfloor (q + (1 # 2))))).
  unfold num_ge, num_le. change 70 with (inject_Z 70). rewrite leb_inject_Z.
  split.
  + intros H. apply Z.leb_le in H. exists k. split; [lia | reflexivity].
  + intros [k' [Hk Hn]]. apply inject_Z_inj in Hn. apply Z.leb_le. lia.
Qed.

Lemma assessment_flag ai listing apiKey :
isGoodDeal (Spec.assessment ai listing apiKey) = true
<-> integer_between 70 100 (score (Spec.assessment ai listing apiKey)).
Proof.
unfold Spec.assessment.
destruct (parsed_reply ai listing apiKey) as [props | e].
- cbn [isGoodDeal score post_process]. apply clamp_ge_70.
- cbn. split; [discriminate | ].
  intros [k [Hk Hn]]. change (Fin 50) with (Fin (inject_Z 50)) in Hn.
  apply inject_Z_inj in Hn. lia.
Qed.

(** X1. Whatever the model answers, the assessment returned by
  [evaluateListing] is flagged as a good deal exactly when its score is an
  integer between 70 and 100; a score of NaN or the fallback score 50
  never carries the flag. *)
Theorem good_deal_iff_score_70_to_100 :
forall ai listing apiKey evaluation,
  evaluateListing ai listing apiKey = Returned evaluation ->
  (isGoodDeal evaluation = true <-> integer_between 70 100 (score evaluation)).
Proof.
intros ai listing apiKey evaluation H.
rewrite EvaluatorFacts.evaluateListing_returns in H. injection H as <-.
destruct (parsed_reply ai listing apiKey) as [props | e].
- cbn [isGoodDeal score post_process]. apply clamp_ge_70.
- cbn. split; [discriminate | ].
  intros [k [Hk Hn]]. change (Fin 50) with (Fin (inject_Z 50)) in Hn.
  apply inject_Z_inj in Hn. lia.
Qed.

(** A reply with score 85, and the fallback. *)
Lemma good_deal_iff_score_witness :
(isGoodDeal (post_process (Scenario.answering Scenario.reply_score_85)
               [("score", Num (Fin 85))]) = true
 <-> integer_between 70 100
       (score (post_process (Scenario.answering Scenario.reply_score_85)
                 [("score", Num (Fin 85))])))
/\ (isGoodDeal fallback = true <-> integer_between 70 100 (score fallback)).
Proof.
split.
- exact (good_deal_iff_score_70_to_100
           (Scenario.answering Scenario.reply_score_85) Scenario.bike "key" _ eq_refl).
- exact (good_deal_iff_score_70_to_100
           Scenario.unreachable Scenario.bike "key" _ eq_refl).
Defined.

Lemma image_parts_length ai urls :
(List.length (image_parts ai urls) <= List.length urls)%nat.
Proof.
induction urls as [ | u urls IH]; cbn [image_parts List.length]; [lia | ].
destruct (fetchImageAsBase64 ai u); cbn [List.length]; lia.
Qed.

Lemma image_parts_origin ai urls part :
In part (image_parts ai urls) ->
exists url response,
  In url urls /\ fetch ai url = Returned response /\ ok response = true
  /\ part = ImagePart
              {| data := body_base64 response;
                 mimeType := match content_type response with
                             | Some ct => if String.eqb ct "" then "image/jpeg" else ct
                             | None => "image/jpeg"
                             end |}.
Proof.
induction urls as [ | u urls IH]; cbn [image_parts]; [intros [] | ].
destruct (fetchImageAsBase64 ai u) as [imageData | ] eqn:Hf.
- intros [<- | Hin].
  + unfold fetchImageAsBase64 in Hf.
    destruct (fetch ai u) as [response | e] eqn:Hfetch; [ | discriminate Hf].
    destruct (ok response) eqn:Hok; cbn [negb] in Hf; [ | discriminate Hf].
    injection Hf as <-. exists u, response.
    split; [left; reflexivity | ]. split; [exact Hfetch | ].
    split; [exact Hok | reflexivity].
  + destruct (IH Hin) as [url [response [Hu H]]].
    exists url, response. split; [right; exact Hu | exact H].
- intros Hin. destruct (IH Hin) as [url [response [Hu H]]].
  exists url, response. split; [right; exact Hu | exact H].
Qed.

Lemma image_parts_same_host ai ai' urls :
(forall url, In url urls -> fetch ai' url = fetch ai url) ->
image_parts ai' urls = image_parts ai urls.
Proof.
induction urls as [ | u urls IH]; cbn [image_parts]; [reflexivity | ].
intros H. unfold fetchImageAsBase64.
rewrite (H u (or_introl eq_refl)), IH; [reflexivity | ].
intros url Hin. apply H. now right.
Qed.

Lemma image_parts_none ai urls :
(forall url, In url urls -> download_fails ai url) ->
image_parts ai urls = [].
Proof.
intros Hall.
destruct (image_parts ai urls) as [ | part parts] eqn:Hparts; [reflexivity | ].
destruct (image_parts_origin ai urls part) as [url [r [Hu [Hf [Hok _]]]]].
{ rewrite Hparts. left. reflexivity. }
destruct (Hall url Hu) as [[e He] | [r' [Hr' Hok']]].
- rewrite He in Hf. discriminate Hf.
- rewrite Hr' in Hf. injection Hf as ->. rewrite Hok in Hok'. discriminate Hok'.
Qed.

(** The assessment only depends on what the endpoint answers to the one
  request made. *)
Lemma evaluateListing_same_request ai ai' listing apiKey :
builtins ai' = builtins ai ->
generateContent ai' apiKey
  (TextPart (prompt_for ai' listing)
   :: image_parts ai' (firstn 2 (imageUrls listing)))
= generateContent ai apiKey
    (TextPart (prompt_for ai listing)
     :: image_parts ai (firstn 2 (imageUrls listing))) ->
evaluateListing ai' listing apiKey = evaluateListing ai listing apiKey.
Proof.
intros Hb Hg.
unfold evaluateListing, try_evaluate, parsed_reply, post_process.
rewrite Hg, Hb. reflexivity.
Qed.

(** X2. The model is sent the text prompt and then at most two images,
  however many image URLs the listing has, each downloaded with an ok
  status from one of the first two URLs: the assessment is the same for
  any endpoint that answers alike the requests of that shape, whatever
  it would answer to a request with more images or with others.  Only
  the first two URLs are downloaded: the assessment is the same for any
  image host that answers alike on these two.  And a download that fails
  does not fail the evaluation: when both do, the assessment only depends
  on what the endpoint answers to the prompt alone. *)
Theorem at_most_two_images_are_attached :
forall ai listing apiKey,
  (forall endpoint,
     (forall request,
        prompt_and_two_images ai listing request ->
        endpoint apiKey request = generateContent ai apiKey request) ->
     evaluateListing (with_endpoint endpoint ai) listing apiKey
     = evaluateListing ai listing apiKey)
  /\ (forall host,
        (forall url, In url (firstn 2 (imageUrls listing)) ->
                     host url = fetch ai url) ->
        evaluateListing (with_host host ai) listing apiKey
        = evaluateListing ai listing apiKey)
  /\ ((forall url, In url (firstn 2 (imageUrls listing)) -> download_fails ai url) ->
      forall endpoint,
        endpoint apiKey [TextPart (prompt_for ai listing)]
        = generateContent ai apiKey [TextPart (prompt_for ai listing)] ->
        evaluateListing (with_endpoint endpoint ai) listing apiKey
        = evaluateListing ai listing apiKey).
Proof.
intros ai listing apiKey. split; [ | split].
- intros endpoint Hsame.
  apply evaluateListing_same_request; [reflexivity | ].
  cbn [with_endpoint generateContent prompt_for].
  rewrite (image_parts_same_host ai (with_endpoint endpoint ai))
    by reflexivity.
  apply Hsame.
  exists (image_parts ai (firstn 2 (imageUrls listing))).
  split; [reflexivity | ]. split.
  + etransitivity; [apply image_parts_length | ].
    rewrite length_firstn. apply Nat.le_min_l.
  + intros part Hin. apply image_parts_origin. exact Hin.
- intros host Hsame.
  apply evaluateListing_same_request; [reflexivity | ].
  cbn [with_host generateContent prompt_for].
  rewrite (image_parts_same_host ai (with_host host ai)); [reflexivity | ].
  exact Hsame.
- intros Hfail endpoint Hsame.
  apply evaluateListing_same_request; [reflexivity | ].
  cbn [with_endpoint generateContent prompt_for].
  rewrite (image_parts_same_host ai (with_endpoint endpoint ai))
    by reflexivity.
  rewrite (image_parts_none ai _ Hfail). exact Hsame.
Qed.

(** A listing with three pictures: an endpoint that rejects more than two
  images gives the same assessment, and so does an image host on which
  the third picture is missing; and a listing whose pictures cannot be
  downloaded is still assessed by a model that is sent the prompt. *)
Lemma at_most_two_images_witness :
evaluateListing (with_endpoint ScenarioMore.strict ScenarioMore.with_pictures)
  ScenarioMore.bike_with_pictures "key"
= evaluateListing ScenarioMore.with_pictures ScenarioMore.bike_with_pictures "key"
/\ evaluateListing (with_host ScenarioMore.two_pictures ScenarioMore.with_pictures)
     ScenarioMore.bike_with_pictures "key"
   = evaluateListing ScenarioMore.with_pictures ScenarioMore.bike_with_pictures "key"
/\ evaluateListing
     (with_endpoint ScenarioMore.strict (Scenario.answering Scenario.reply_score_85))
     ScenarioMore.bike_with_pictures "key"
   = evaluateListing (Scenario.answering Scenario.reply_score_85)
       ScenarioMore.bike_with_pictures "key".
Proof.
destruct (at_most_two_images_are_attached ScenarioMore.with_pictures
            ScenarioMore.bike_with_pictures "key") as [Hendpoint [Hhost _]].
destruct (at_most_two_images_are_attached
            (Scenario.answering Scenario.reply_score_85)
            ScenarioMore.bike_with_pictures "key") as [_ [_ Halone]].
split; [ | split].
- apply Hendpoint.
  intros request [images [-> [Hlen _]]].
  unfold ScenarioMore.strict. cbn [List.length].
  destruct images as [ | a [ | b [ | c images]]];
    [reflexivity | reflexivity | reflexivity | cbn in Hlen; lia].
- apply Hhost.
  intros url Hin. cbn in Hin. destruct Hin as [<- | [<- | []]]; reflexivity.
- apply Halone.
  + intros url _. left. exists "offline". reflexivity.
  + reflexivity.
Defined.

(** With three pictures on the host the endpoint is sent two of them. *)
Example two_of_three_pictures :
image_parts ScenarioMore.with_pictures
  (firstn 2 (imageUrls ScenarioMore.bike_with_pictures))
= [ ImagePart {| data := "a.jpg"; mimeType := "image/png" |};
    ImagePart {| data := "b.jpg"; mimeType := "image/png" |} ]
/\ evaluateListing
     (with_endpoint (fun _ request =>
                       if (List.length request <=? 2)%nat
                       then Returned Scenario.reply_score_85
                       else Threw "400 Bad Request")
        ScenarioMore.with_pictures)
     ScenarioMore.bike_with_pictures "key"
   = Returned fallback.
Proof. split; reflexivity. Qed.

(** *** The search for a JSON object in the reply *)

Lemma from_first_open_skips (pre rest : string) :
occurs "{" pre = false ->
from_first_open (pre ++ String "{" rest) = Some (String "{" rest).
Proof.
induction pre as [ | c pre IH]; cbn [occurs String.append from_first_open].
- intros _. reflexivity.
- destruct (Ascii.eqb c "{"); cbn [orb]; [discriminate | exact IH].
Qed.

Lemma from_first_open_none (s : string) :
occurs "{" s = false -> from_first_open s = None.
Proof.
induction s as [ | c s IH]; cbn [occurs from_first_open]; [reflexivity | ].
destruct (Ascii.eqb c "{"); cbn [orb]; [discriminate | exact IH].
Qed.

Lemma upto_last_close_none (s : string) :
occurs "}" s = false -> upto_last_close s = None.
Proof.
induction s as [ | c s IH]; cbn [occurs upto_last_close]; [reflexivity | ].
destruct (Ascii.eqb c "}"); cbn [orb]; [discriminate | ].
intros H. rewrite (IH H). reflexivity.
Qed.

Lemma upto_last_close_keeps (s post : string) :
occurs "}" post = false ->
upto_last_close (s ++ String "}" post) = Some (s ++ "}").
Proof.
intros Hpost. induction s as [ | c s IH]; cbn [String.append upto_last_close].
- rewrite (upto_last_close_none post Hpost). reflexivity.
- rewrite IH. reflexivity.
Qed.

(** X3. A JSON object wrapped in prose is cut out exactly: when the reply
  is [pre ++ "{" ++ body ++ "}" ++ post], with no opening brace in [pre]
  and no closing brace in [post], the text handed to [JSON.parse] is
  ["{" ++ body ++ "}"] (from the first opening brace to the last closing
  one, so two objects in one reply are taken as one text).  A reply
  without an opening brace, or without a closing brace, has no match. *)
Theorem json_object_is_cut_out_of_prose :
forall pre body post : string,
  (occurs "{" pre = false -> occurs "}" post = false ->
   match_braces (pre ++ "{" ++ body ++ "}" ++ post) = Some ("{" ++ body ++ "}"))
  /\ (occurs "{" pre = false -> match_braces pre = None)
  /\ (occurs "}" pre = false -> match_braces pre = None).
Proof.
intros pre body post. split; [ | split].
- intros Hpre Hpost. unfold match_braces.
  change ("{" ++ body ++ "}" ++ post) with (String "{" (body ++ String "}" post)).
  rewrite (from_first_open_skips pre _ Hpre).
  change (String "{" (body ++ String "}" post))
    with (String "{" body ++ String "}" post).
  rewrite (upto_last_close_keeps _ post Hpost). reflexivity.
- intros Hpre. unfold match_braces. now rewrite from_first_open_none.
- intros Hpre. unfold match_braces.
  destruct (from_first_open pre) as [s | ] eqn:Hs; [ | reflexivity].
  apply upto_last_close_none.
  clear body post. revert s Hs.
  induction pre as [ | c pre IH]; cbn [from_first_open]; [discriminate | ].
  cbn [occurs] in Hpre. apply orb_false_iff in Hpre as [Hc Hp].
  destruct (Ascii.eqb c "{").
  + intros s Hs. injection Hs as <-. cbn [occurs]. now rewrite Hc, Hp.
  + intros s Hs. exact (IH Hp s Hs).
Qed.

(** A reply with prose on both sides, a reply without JSON, and two
  objects in one reply. *)
Lemma json_object_witness :
match_braces ("Here is my assessment: " ++ "{" ++ "score: 85" ++ "}" ++ " Hope it helps.")
= Some "{score: 85}"
/\ match_braces "I cannot evaluate this listing." = None
/\ match_braces ("" ++ "{" ++ "a} and {b" ++ "}" ++ "") = Some "{a} and {b}".
Proof.
split; [ | split].
- apply (json_object_is_cut_out_of_prose "Here is my assessment: " "score: 85"
           " Hope it helps."); reflexivity.
- apply (json_object_is_cut_out_of_prose "I cannot evaluate this listing." "" "").
  reflexivity.
- apply (json_object_is_cut_out_of_prose "" "a} and {b" ""); reflexivity.
Defined.

End EvaluatorMore.

(* ================================================================== *)
(** ** Further properties of the acquisition adapter *)
(* ================================================================== *)

Module CraigslistMore.
Import JS.
Import Craigslist.
Import Notions.

(** *** Strings *)

Lemma prefix_spec (p s : string) :
prefix p s = true <-> exists rest, s = p ++ rest.
Proof.
revert p. induction s as [ | d s IH]; intros p; destruct p as [ | c p]; cbn [prefix].
- split; [intros _; exists ""; reflexivity | reflexivity].
- split; [discriminate | intros [rest H]; discriminate H].
- split; [intros _; exists (String d s); reflexivity | reflexivity].
- destruct (ascii_dec c d) as [<- | Hne].
  + rewrite IH. split; intros [rest H]; exists rest.
    * cbn. now rewrite H.
    * cbn in H. now injection H.
  + split; [discriminate | ].
    intros [rest H]. cbn in H. injection H as H1 _. now elim Hne.
Qed.

(** [includes] is the search for a substring. *)
Lemma includes_spec (haystack needle : string) :
includes haystack needle = true
<-> exists before rest, haystack = before ++ needle ++ rest.
Proof.
induction haystack as [ | c h IH]; cbn [includes].
- destruct (prefix needle "") eqn:Hp.
  + split; [intros _ | reflexivity].
    apply prefix_spec in Hp as [rest H]. exists "", rest. exact H.
  + split; [discriminate | ].
    intros [before [rest H]].
    destruct before; cbn in H.
    * assert (prefix needle "" = true) by (apply prefix_spec; now exists rest).
      congruence.
    * discriminate H.
- destruct (prefix needle (String c h)) eqn:Hp.
  + split; [intros _ | reflexivity].
    apply prefix_spec in Hp as [rest H]. exists "", rest. exact H.
  + rewrite IH. split.
    * intros [before [rest H]]. exists (String c before), rest. cbn. now rewrite H.
    * intros [before [rest H]]. destruct before as [ | b before]; cbn in H.
      -- assert (prefix needle (String c h) = true)
           by (apply prefix_spec; now exists rest).
         congruence.
      -- injection H as _ H. now exists before, rest.
Qed.

Lemma substring_0_append (p rest : string) :
substring 0 (String.length p) (p ++ rest) = p.
Proof.
induction p as [ | c p IH]; cbn.
- destruct rest; reflexivity.
- now rewrite IH.
Qed.

Lemma substring_0_length (n : nat) (s : string) :
String.length (substring 0 n s) = Nat.min n (String.length s).
Proof.
revert s. induction n as [ | n IH]; intros s.
- destruct s; reflexivity.
- destruct s as [ | c s]; cbn; [reflexivity | now rewrite IH].
Qed.

(** *** The region of a zipcode *)

Lemma lookup_In (table : list (string * string)) (k v : string) :
lookup table k = Some v -> In (k, v) table.
Proof.
unfold lookup. destruct (find _ table) as [[k' v'] | ] eqn:Hfind; [ | discriminate].
intros H. injection H as <-.
apply find_some in Hfind as [Hin Hk]. cbn in Hk.
apply String.eqb_eq in Hk. now subst k'.
Qed.

Lemma region_keys_have_three_characters :
forall kv, In kv ZIP_TO_REGION -> String.length (fst kv) = 3%nat.
Proof.
assert (H : forallb (fun kv => (String.length (fst kv) =? 3)%nat) ZIP_TO_REGION = true)
  by (vm_compute; reflexivity).
rewrite forallb_forall in H.
intros kv Hin. apply Nat.eqb_eq. now apply H.
Qed.

(** X4. The region of a zipcode is always one of the regions of the table
  (San Francisco Bay when the prefix is not listed); it is decided by the
  first three characters alone, so whatever follows them (the last two
  digits, a ZIP+4 suffix) is irrelevant; and a zipcode shorter than three
  characters gets the default region. *)
Theorem region_of_zipcode :
forall zipcode : string,
  In (getRegionFromZipcode zipcode) (map snd ZIP_TO_REGION)
  /\ (forall prefix3 rest,
        String.length prefix3 = 3%nat ->
        getRegionFromZipcode (prefix3 ++ rest) = getRegionFromZipcode prefix3)
  /\ ((String.length zipcode < 3)%nat -> getRegionFromZipcode zipcode = "sfbay").
Proof.
intros zipcode. split; [ | split].
- unfold getRegionFromZipcode.
  destruct (lookup ZIP_TO_REGION _) as [region | ] eqn:Hl.
  + apply lookup_In in Hl. apply in_map_iff. exists (substring 0 3 zipcode, region).
    split; [reflexivity | exact Hl].
  + apply in_map_iff. exists ("940", "sfbay"). split; [reflexivity | left; reflexivity].
- intros prefix3 rest Hlen. unfold getRegionFromZipcode.
  rewrite <- Hlen at 1. rewrite substring_0_append.
  replace (substring 0 3 prefix3) with prefix3; [reflexivity | ].
  rewrite <- Hlen. symmetry.
  replace prefix3 with (prefix3 ++ "") at 2.
  + apply substring_0_append.
  + clear. induction prefix3 as [ | c p IH]; cbn; [reflexivity | now rewrite IH].
- intros Hshort. unfold getRegionFromZipcode.
  destruct (lookup ZIP_TO_REGION _) as [region | ] eqn:Hl; [ | reflexivity].
  apply lookup_In, region_keys_have_three_characters in Hl. cbn in Hl.
  rewrite substring_0_length in Hl. lia.
Qed.

(** The zipcodes 94110 and 94110-1234, and the zipcode 94. *)
Lemma region_of_zipcode_witness :
getRegionFromZipcode ("941" ++ "10-1234") = getRegionFromZipcode "941"
/\ getRegionFromZipcode "94" = "sfbay".
Proof.
destruct (region_of_zipcode "94") as [_ [Hprefix Hshort]].
split.
- apply Hprefix. reflexivity.
- apply Hshort. cbn. lia.
Defined.

(** *** The category of a query *)

(** X5. A query that mentions a bicycle goes to the bicycle category
  whatever else it mentions: when the lower-cased query contains
  "bicycle" or "bike", the category is "bia", also when it contains the
  keyword of another category (the table is searched in order and the
  bicycle keywords come first). *)
Theorem bicycle_keywords_come_first :
forall rt (query : string),
  includes (toLowerCase rt query) "bicycle" = true
  \/ includes (toLowerCase rt query) "bike" = true ->
  getCategoryFromQuery rt query = "bia".
Proof.
intros rt query H. unfold getCategoryFromQuery.
cbn [CATEGORY_MAP find fst snd].
destruct (includes (toLowerCase rt query) "bicycle"); [reflexivity | ].
destruct H as [H | H]; [discriminate H | ].
rewrite H. reflexivity.
Qed.

(** A rack that carries bikes on a car. *)
Lemma bicycle_keywords_witness :
getCategoryFromQuery Scenario.rt "Car rack for Mountain BIKE" = "bia".
Proof.
apply bicycle_keywords_come_first. right. reflexivity.
Defined.

#[local] Ltac no_keyword H kv :=
let E := fresh "E" in
assert (E := H kv ltac:(cbn; intuition discriminate) ltac:(cbn; discriminate));
cbn [fst] in E; rewrite E; clear E.

(** X6. The category falls back to "sss" (all for sale) exactly when none
  of the ten keywords of the table occurs in the query as the runtime
  lower-cases it, whatever its case tables are; so a keyword inside a
  longer word (the "car" of "carpet") is enough to leave the fallback, and
  so is a letter that only the lower-casing turns into one of a keyword. *)
Theorem fallback_category_iff_no_keyword :
forall rt (query : string),
  getCategoryFromQuery rt query = "sss"
  <-> (forall kv, In kv CATEGORY_MAP -> fst kv <> "default" ->
                  includes (toLowerCase rt query) (fst kv) = false).
Proof.
intros rt query. unfold getCategoryFromQuery.
cbn [CATEGORY_MAP find fst snd].
set (l := toLowerCase rt query).
split.
- intros H kv Hin Hne.
  destruct (includes l "bicycle") eqn:B1; [discriminate H | ].
  destruct (includes l "bike") eqn:B2; [discriminate H | ].
  destruct (includes l "car") eqn:B3; [discriminate H | ].
  destruct (includes l "auto") eqn:B4; [discriminate H | ].
  destruct (includes l "furniture") eqn:B5; [discriminate H | ].
  destruct (includes l "electronics") eqn:B6; [discriminate H | ].
  destruct (includes l "computer") eqn:B7; [discriminate H | ].
  destruct (includes l "laptop") eqn:B8; [discriminate H | ].
  destruct (includes l "phone") eqn:B9; [discriminate H | ].
  destruct (includes l "motorcycle") eqn:B10; [discriminate H | ].
  cbn in Hin.
  repeat (destruct Hin as [<- | Hin]; [cbn [fst] in *; try assumption; now elim Hne | ]).
  destruct Hin.
- intros H.
  no_keyword H ("bicycle", "bia"). no_keyword H ("bike", "bia").
  no_keyword H ("car", "cta"). no_keyword H ("auto", "cta").
  no_keyword H ("furniture", "fua"). no_keyword H ("electronics", "ela").
  no_keyword H ("computer", "sya"). no_keyword H ("laptop", "sya").
  no_keyword H ("phone", "moa"). no_keyword H ("motorcycle", "mca").
  destruct (includes l "default"); reflexivity.
Qed.

Example antique_lamp_falls_back :
getCategoryFromQuery Scenario.rt "Antique lamp" = "sss".
Proof. reflexivity. Qed.

Example kelvin_bike_is_a_bicycle :
getCategoryFromQuery ScenarioMore.unicode_rt ScenarioMore.kelvin_bike = "bia".
Proof. reflexivity. Qed.

Example carpet_is_a_car :
getCategoryFromQuery Scenario.rt "Persian carpet" = "cta".
Proof. reflexivity. Qed.

(** *** The external id of a posting *)

Lemma span_digits_spec (s : string) :
all_digits (fst (span_digits s)) = true
/\ s = fst (span_digits s) ++ snd (span_digits s).
Proof.
induction s as [ | c s [IH1 IH2]]; cbn [span_digits]; [split; reflexivity | ].
destruct (is_digit c) eqn:Hc.
- destruct (span_digits s) as [ds after]. cbn in *.
  rewrite Hc, IH1. split; [reflexivity | now rewrite IH2 at 1].
- split; reflexivity.
Qed.

Lemma span_digits_stops (ds rest : string) :
all_digits ds = true ->
match rest with
| EmptyString => True
| String c _ => is_digit c = false
end ->
span_digits (ds ++ rest) = (ds, rest).
Proof.
intros Hds Hrest. induction ds as [ | c ds IH]; cbn [String.append].
- destruct rest as [ | c r]; [reflexivity | ].
  cbn [span_digits]. now rewrite Hrest.
- cbn [all_digits] in Hds. apply andb_true_iff in Hds as [Hc Hds].
  cbn [span_digits]. rewrite Hc, (IH Hds). reflexivity.
Qed.

Lemma match_listing_id_digits (s id : string) :
match_listing_id s = Some id -> id <> "" /\ all_digits id = true.
Proof.
induction s as [ | c s IH]; cbn [match_listing_id]; [discriminate | ].
destruct (Ascii.eqb c "/"); [ | exact IH].
pose proof (span_digits_spec s) as [Hd _].
destruct (span_digits s) as [ds after]. cbn [fst] in Hd.
destruct (negb (String.eqb ds "") && prefix ".html" after) eqn:Hm; [ | exact IH].
intros H. injection H as <-.
apply andb_true_iff in Hm as [Hne _]. apply negb_true_iff in Hne.
apply String.eqb_neq in Hne. split; assumption.
Qed.

(** X7. The external id taken from a posting URL is either a non-empty
  string of decimal digits (the number before [.html]) or, when the URL
  holds no such number, the URL itself: never an empty or partial id. *)
Theorem external_id_is_digits_or_the_url :
forall url : string,
  extractListingId url = url
  \/ (extractListingId url <> "" /\ all_digits (extractListingId url) = true).
Proof.
intros url. unfold extractListingId.
destruct (match_listing_id url) as [id | ] eqn:Hm; [right | left; reflexivity].
exact (match_listing_id_digits url id Hm).
Qed.

Lemma match_listing_id_slash (rest : string) :
match_listing_id (String "/" rest)
= let (ds, after) := span_digits rest in
  if negb (String.eqb ds "") && prefix ".html" after
  then Some ds
  else match_listing_id rest.
Proof. reflexivity. Qed.

Lemma match_listing_id_found (dir id rest : string) :
no_slash_digit (dir ++ "/") = true ->
id <> "" -> all_digits id = true ->
match_listing_id (dir ++ "/" ++ id ++ ".html" ++ rest) = Some id.
Proof.
intros Hdir Hne Hid.
assert (Hbase : match_listing_id ("/" ++ id ++ ".html" ++ rest) = Some id).
{ change ("/" ++ id ++ ".html" ++ rest) with (String "/" (id ++ ".html" ++ rest)).
  rewrite match_listing_id_slash.
  rewrite (span_digits_stops id (".html" ++ rest) Hid) by reflexivity.
  apply String.eqb_neq in Hne. rewrite Hne.
  assert (Hp : prefix ".html" (".html" ++ rest) = true)
    by (apply prefix_spec; exists rest; reflexivity).
  rewrite Hp. reflexivity. }
induction dir as [ | c dir IH]; [exact Hbase | ].
change (String c dir ++ "/" ++ id ++ ".html" ++ rest)
  with (String c (dir ++ "/" ++ id ++ ".html" ++ rest)).
cbn [match_listing_id].
cbn [String.append] in Hdir. cbn [no_slash_digit] in Hdir.
assert (Hnext : exists d tail, (dir ++ "/")%string = String d tail).
{ destruct dir as [ | d dir]; cbn; eauto. }
destruct Hnext as [d [tail Htail]]. rewrite Htail in Hdir.
apply andb_true_iff in Hdir as [Hc Hrest]. rewrite <- Htail in Hrest.
destruct (Ascii.eqb c "/") eqn:Hslash; [ | exact (IH Hrest)].
cbn [andb] in Hc. apply negb_true_iff in Hc.
assert (Hspan : span_digits (dir ++ "/" ++ id ++ ".html" ++ rest)
                = (EmptyString, dir ++ "/" ++ id ++ ".html" ++ rest)).
{ assert (Hd : exists tail', (dir ++ "/" ++ id ++ ".html" ++ rest)%string
                             = String d tail').
  { destruct dir as [ | d' dir]; cbn in Htail |- *.
    - injection Htail as <- _. eauto.
    - injection Htail as <- _. eauto. }
  destruct Hd as [tail' Hd]. rewrite Hd. cbn [span_digits]. now rewrite Hc. }
rewrite Hspan. cbn [String.eqb negb andb]. exact (IH Hrest).
Qed.

(** X8. For a posting URL of the usual form, a path, a slash, a number and
  [.html], the external id is that number: when no slash of the path is
  directly followed by a digit, [extractListingId] of
  [dir ++ "/" ++ id ++ ".html" ++ rest] is [id], for a relative path as for
  an absolute URL. *)
Theorem external_id_of_a_posting_url :
forall dir id rest : string,
  no_slash_digit (dir ++ "/") = true ->
  id <> "" -> all_digits id = true ->
  extractListingId (dir ++ "/" ++ id ++ ".html" ++ rest) = id.
Proof.
intros dir id rest Hdir Hne Hid. unfold extractListingId.
now rewrite (match_listing_id_found dir id rest Hdir Hne Hid).
Qed.

(** A relative and an absolute posting URL. *)
Lemma external_id_witness :
extractListingId ("/sfc/bik/d/trek-domane" ++ "/" ++ "7701234567" ++ ".html" ++ "")
= "7701234567"
/\ extractListingId ("https://sfbay.craigslist.org/sfc/bik/d/trek" ++ "/" ++ "7701"
                       ++ ".html" ++ "#gallery")
   = "7701".
Proof.
split.
- apply external_id_of_a_posting_url; [reflexivity | discriminate | reflexivity].
- apply external_id_of_a_posting_url; [reflexivity | discriminate | reflexivity].
Defined.

Example url_without_a_number_is_its_own_id :
extractListingId "https://example.org/about" = "https://example.org/about".
Proof. reflexivity. Qed.

(** *** What a fetch returns *)

(** The rows a fetch works on: the first [limit] rows of the page, and of
  these the first ten. *)
Lemma fetch_returns rt pw query zipcode options browserInstance listings :
fst (fetchCraigslistListings rt pw query zipcode options browserInstance)
= Returned listings ->
listings = []
\/ exists rows,
     search_rows pw results_selector = Returned rows
     /\ listings
        = collect pw zipcode
            (firstn (Nat.min 10
                       (List.length
                          (firstn match options with
                                  | Some {| limit := Some (S n) |} => S n
                                  | _ => 20%nat
                                  end rows)))
               (firstn match options with
                       | Some {| limit := Some (S n) |} => S n
                       | _ => 20%nat
                       end rows)).
Proof.
unfold fetchCraigslistListings.
destruct (getBrowser pw browserInstance) as [[u | e] b]; [ | discriminate].
destruct (newContext pw); [ | discriminate].
destruct (newPage pw); [ | discriminate].
destruct (context_close pw); [ | discriminate].
unfold try_fetch.
destruct (goto pw _); [ | intros H; injection H as <-; now left].
destruct (waitForSelector pw _); [ | intros H; injection H as <-; now left].
destruct (search_rows pw results_selector) as [rows | e];
  [ | intros H; injection H as <-; now left].
cbn [fst]. intros H. injection H as <-. right. exists rows. split; reflexivity.
Qed.

Lemma collect_length pw zipcode rows :
(List.length (collect pw zipcode rows) <= List.length rows)%nat.
Proof.
induction rows as [ | basic rows IH]; cbn [collect List.length]; [lia | ].
destruct (String.eqb (b_url basic) "" || String.eqb (b_title basic) "");
  cbn [List.length]; lia.
Qed.

Lemma fetched_at_most_ten rt pw query zipcode options browserInstance listings :
fst (fetchCraigslistListings rt pw query zipcode options browserInstance)
= Returned listings ->
(List.length listings <= 10)%nat.
Proof.
intros H. apply fetch_returns in H as [-> | [rows [_ ->]]]; [cbn; lia | ].
etransitivity; [apply collect_length | ]. rewrite length_firstn. lia.
Qed.

(** X9. A fetch returns at most ten listings, whatever limit it is asked
  for and however many rows the results page shows (only the first ten
  rows get their detail page visited, the others are dropped); and never
  more than a positive limit given in the options. *)
Theorem at_most_ten_listings :
forall rt pw query zipcode options browserInstance listings,
  fst (fetchCraigslistListings rt pw query zipcode options browserInstance)
  = Returned listings ->
  (List.length listings <= 10)%nat
  /\ (forall o n, options = Some o -> limit o = Some (S n) ->
                  (List.length listings <= S n)%nat).
Proof.
intros rt pw query zipcode options browserInstance listings H.
apply fetch_returns in H as [-> | [rows [_ ->]]].
- split; [cbn; lia | intros; cbn; lia].
- split.
  + etransitivity; [apply collect_length | ].
    rewrite length_firstn. lia.
  + intros o n -> Hl. destruct o as [lo hi r lim]. cbn in Hl. subst lim.
    etransitivity; [apply collect_length | ].
    rewrite !length_firstn. lia.
Qed.

(** Twelve rows on the page and a limit of 15, as [processSearch] asks. *)
Lemma at_most_ten_listings_witness :
(List.length
   (collect
      (Scenario.showing (repeat Scenario.trek 12)) "94110"
      (firstn (Nat.min 10 (List.length (firstn 15 (repeat Scenario.trek 12))))
         (firstn 15 (repeat Scenario.trek 12)))) <= 10)%nat.
Proof.
apply (at_most_ten_listings Scenario.rt (Scenario.showing (repeat Scenario.trek 12))
         "road bike" "94110"
         (Some {| minPrice := None; maxPrice := None; radius := None;
                  limit := Some 15%nat |})
         false).
reflexivity.
Defined.

Lemma In_firstn {A : Type} (n : nat) (l : list A) (x : A) :
In x (firstn n l) -> In x l.
Proof.
revert l. induction n as [ | n IH]; intros [ | a l]; cbn; try tauto.
intros [H | H]; [now left | right; now apply IH].
Qed.

Lemma nonempty_not_empty (s : option string) : nonempty s <> Some "".
Proof.
unfold nonempty. destruct s as [x | ]; [ | discriminate].
destruct (String.eqb x "") eqn:Hx; [discriminate | ].
intros H. injection H as ->. discriminate Hx.
Qed.

Lemma collect_priced (scraped : option number) :
priced scraped
  match scraped with
  | Some p => if truthy (Num p) then Some (times p (Fin 100)) else None
  | None => None
  end.
Proof.
split.
- destruct scraped as [p | ].
  + pose proof (DoubleFacts.truthy_number p) as Ht.
    destruct (truthy (Num p)).
    * split; [discriminate | ].
      intros [H | [H | [q [H Hq]]]]; [discriminate H | | ].
      -- injection H as ->.
         assert (true = false) by (apply Ht; left; reflexivity). discriminate.
      -- injection H as ->.
         assert (true = false) by (apply Ht; right; exists q; split; auto).
         discriminate.
    * split; [ | reflexivity]. intros _.
      destruct (proj1 Ht eq_refl) as [-> | [q [-> Hq]]].
      -- right; left; reflexivity.
      -- right; right. exists q. split; [reflexivity | exact Hq].
  + split; [intros _; left; reflexivity | reflexivity].
- intros dollars -> Hnz Hsmall.
  assert (Ht : truthy (Num (Fin (inject_Z dollars))) = true).
  { cbn [truthy]. unfold is_zero. cbn [Qnum inject_Z].
    apply negb_true_iff, Z.eqb_neq. exact Hnz. }
  rewrite Ht, DoubleFacts.times_100_exact by exact Hsmall. reflexivity.
Qed.

Lemma collect_wellformed pw zipcode rows l :
In l (collect pw zipcode rows) ->
title l <> ""
/\ prefix "http" (url l) = true
/\ description l <> Some ""
/\ imageUrl l <> Some ""
/\ exists basic, In basic rows /\ b_url basic <> ""
                 /\ externalId l = extractListingId (b_url basic)
                 /\ title l = b_title basic
                 /\ priced (b_price basic) (price l).
Proof.
induction rows as [ | basic rows IH]; cbn [collect]; [intros [] | ].
destruct (String.eqb (b_url basic) "") eqn:Hu; cbn [orb].
{ intros Hin. destruct (IH Hin) as [H1 [H2 [H4 [H5 [b [Hb H6]]]]]].
  repeat (split; [assumption | ]). exists b. split; [now right | exact H6]. }
destruct (String.eqb (b_title basic) "") eqn:Ht.
{ intros Hin. destruct (IH Hin) as [H1 [H2 [H4 [H5 [b [Hb H6]]]]]].
  repeat (split; [assumption | ]). exists b. split; [now right | exact H6]. }
intros [<- | Hin].
2:{ destruct (IH Hin) as [H1 [H2 [H4 [H5 [b [Hb H6]]]]]].
    repeat (split; [assumption | ]). exists b. split; [now right | exact H6]. }
cbn [title url price description imageUrl externalId].
apply String.eqb_neq in Hu, Ht.
split; [exact Ht | ].
split.
{ destruct (prefix "http" (b_url basic)) eqn:Hp; [exact Hp | ].
  apply prefix_spec. eexists. reflexivity. }
split.
{ apply nonempty_not_empty. }
split.
{ destruct (nonempty (b_imageUrl basic)) eqn:Hi.
  - rewrite <- Hi. apply nonempty_not_empty.
  - apply nonempty_not_empty. }
exists basic. split; [now left | ]. split; [exact Hu | ].
split; [reflexivity | ]. split; [reflexivity | apply collect_priced].
Qed.

(** X10. Every listing a fetch returns is usable: its title is not empty,
  its URL is absolute (it starts with "http"), its description and primary
  image are null rather than empty, and it comes from a row of the results
  page: it has the title of the row, the external id of its link, and its
  price in cents.  The price is null exactly when the row has no price or
  a price of 0 or NaN, and for a whole number of dollars up to
  90,071,992,547,409 it is exactly 100 times that number (beyond, the
  product is rounded to a double). *)
Theorem fetched_listings_are_wellformed :
forall rt pw query zipcode options browserInstance listings l,
  fst (fetchCraigslistListings rt pw query zipcode options browserInstance)
  = Returned listings ->
  In l listings ->
  title l <> ""
  /\ prefix "http" (url l) = true
  /\ description l <> Some ""
  /\ imageUrl l <> Some ""
  /\ exists rows basic,
       search_rows pw results_selector = Returned rows
       /\ In basic rows
       /\ externalId l = extractListingId (b_url basic)
       /\ title l = b_title basic
       /\ (price l = None
           <-> b_price basic = None \/ b_price basic = Some NaN
               \/ exists q, b_price basic = Some (Fin q) /\ (q == 0)%Q)
       /\ (forall dollars : Z,
             b_price basic = Some (Fin (inject_Z dollars)) ->
             dollars <> 0%Z -> (Z.abs dollars <= 90071992547409)%Z ->
             price l = Some (Fin (inject_Z (dollars * 100)))).
Proof.
intros rt pw query zipcode options browserInstance listings l H Hin.
apply fetch_returns in H as [-> | [rows [Hrows ->]]]; [destruct Hin | ].
apply collect_wellformed
  in Hin as [H1 [H2 [H4 [H5 [basic [Hb [_ [H6 [H7 [H8 H9]]]]]]]]]].
repeat (split; [assumption | ]).
exists rows, basic. split; [exact Hrows | ].
split; [eapply In_firstn, In_firstn; exact Hb | ].
split; [exact H6 | ]. split; [exact H7 | ]. split; [exact H8 | exact H9].
Qed.

(** A page with one row priced 450 dollars. *)
Lemma fetched_listings_witness :
title {| externalId := "7701"; title := "Trek"; price := Some (Fin 45000);
         url := "https://sfbay.craigslist.org/bik/d/trek/7701.html";
         description := Some "As new"; imageUrl := None; imageUrls := [];
         location := Some "mission district"; postedAt := None |} <> ""
/\ prefix "http" "https://sfbay.craigslist.org/bik/d/trek/7701.html" = true.
Proof.
destruct (fetched_listings_are_wellformed Scenario.rt
            (Scenario.showing [Scenario.trek]) "road bike" "94110" None false
            _ _ eq_refl (or_introl eq_refl)) as [H1 [H2 _]].
split; [exact H1 | exact H2].
Defined.

(** *** Detail pages *)

Lemma collect_from_results_page pw pw' zipcode rows :
map from_results_page (collect pw zipcode rows)
= map from_results_page (collect pw' zipcode rows).
Proof.
induction rows as [ | basic rows IH]; cbn [collect]; [reflexivity | ].
destruct (String.eqb (b_url basic) "" || String.eqb (b_title basic) "");
  [exact IH | ].
cbn [map]. rewrite IH. reflexivity.
Qed.

Lemma collect_degraded pw zipcode rows l :
(forall u, throws (posting pw u)) ->
In l (collect pw zipcode rows) ->
description l = None /\ imageUrls l = [].
Proof.
intros Hall. induction rows as [ | basic rows IH]; cbn [collect]; [intros [] | ].
destruct (String.eqb (b_url basic) "" || String.eqb (b_title basic) "");
  [exact IH | ].
intros [<- | Hin]; [ | exact (IH Hin)].
cbn [description imageUrls]. unfold fetchListingDetails.
match goal with |- context [posting pw ?u] => destruct (Hall u) as [e He]; rewrite He end.
split; reflexivity.
Qed.

(** X11. A detail page that fails costs a listing nothing but its
  description and images: two browsers that answer alike except on detail
  pages give fetches with the same outcome, the same listings in the same
  order with the same external id, title, price, URL, location and date;
  and when every detail page fails, each listing is still returned, with
  a null description and no images. *)
Theorem detail_failures_are_not_fatal :
forall rt pw pw' query zipcode options browserInstance,
  same_results_page pw pw' ->
  outcome_map (map from_results_page)
    (fst (fetchCraigslistListings rt pw query zipcode options browserInstance))
  = outcome_map (map from_results_page)
      (fst (fetchCraigslistListings rt pw' query zipcode options browserInstance))
  /\ ((forall u, throws (posting pw u)) ->
      forall listings l,
        fst (fetchCraigslistListings rt pw query zipcode options browserInstance)
        = Returned listings ->
        In l listings ->
        description l = None /\ imageUrls l = []).
Proof.
intros rt pw pw' query zipcode options browserInstance
  [Hl [Hc [Hp [Hx [Hg [Hw Hr]]]]]].
split.
- unfold fetchCraigslistListings, getBrowser, try_fetch.
  rewrite Hl, Hc, Hp, Hx, Hg, Hw, Hr.
  destruct (negb browserInstance).
  + destruct (launch pw'); [ | reflexivity].
    destruct (newContext pw'); [ | reflexivity].
    destruct (newPage pw'); [ | reflexivity].
    destruct (context_close pw'); [ | reflexivity].
    destruct (goto pw' _); [ | reflexivity].
    destruct (waitForSelector pw' _); [ | reflexivity].
    destruct (search_rows pw' _); [ | reflexivity].
    cbn. f_equal. apply collect_from_results_page.
  + destruct (newContext pw'); [ | reflexivity].
    destruct (newPage pw'); [ | reflexivity].
    destruct (context_close pw'); [ | reflexivity].
    destruct (goto pw' _); [ | reflexivity].
    destruct (waitForSelector pw' _); [ | reflexivity].
    destruct (search_rows pw' _); [ | reflexivity].
    cbn. f_equal. apply collect_from_results_page.
- intros Hall listings l H Hin.
  apply fetch_returns in H as [-> | [rows [_ ->]]]; [destruct Hin | ].
  exact (collect_degraded pw zipcode _ l Hall Hin).
Qed.

(** The same results page, with detail pages that load and detail pages
  that all fail. *)
Lemma detail_failures_witness :
outcome_map (map from_results_page)
  (fst (fetchCraigslistListings Scenario.rt
          (Scenario.showing [Scenario.trek; Scenario.giant])
          "road bike" "94110" None false))
= outcome_map (map from_results_page)
    (fst (fetchCraigslistListings Scenario.rt
            (ScenarioMore.details_failing [Scenario.trek; Scenario.giant])
            "road bike" "94110" None false)).
Proof.
apply (detail_failures_are_not_fatal Scenario.rt
         (Scenario.showing [Scenario.trek; Scenario.giant])
         (ScenarioMore.details_failing [Scenario.trek; Scenario.giant])).
repeat split.
Defined.

Example listings_without_details :
fst (fetchCraigslistListings Scenario.rt (ScenarioMore.details_failing [Scenario.trek])
       "road bike" "94110" None false)
= Returned [ {| externalId := "7701"; title := "Trek"; price := Some (Fin 45000);
                url := "https://sfbay.craigslist.org/bik/d/trek/7701.html";
                description := None; imageUrl := None; imageUrls := [];
                location := Some "mission district"; postedAt := None |} ].
Proof. reflexivity. Qed.

(** *** The browser singleton *)

Lemma collect_unable_to_launch pw zipcode rows :
collect (unable_to_launch pw) zipcode rows = collect pw zipcode rows.
Proof.
induction rows as [ | basic rows IH]; cbn [collect]; [reflexivity | ].
rewrite IH. reflexivity.
Qed.

(** X12. The browser is a singleton with an explicit release.  A fetch
  never drops a browser that is held, and holds one whenever it returns;
  with a browser held it does not launch another one (it returns the same
  whatever a launch would answer).  [closeBrowser] is safe when no
  browser is held: it returns without calling the browser; and after a
  [closeBrowser] that returned none is held, so that closing twice is the
  same as closing once. *)
Theorem browser_singleton_lifecycle :
forall rt pw query zipcode options,
  snd (fetchCraigslistListings rt pw query zipcode options true) = true
  /\ (forall browserInstance listings,
        fst (fetchCraigslistListings rt pw query zipcode options browserInstance)
        = Returned listings ->
        snd (fetchCraigslistListings rt pw query zipcode options browserInstance)
        = true)
  /\ fetchCraigslistListings rt pw query zipcode options true
     = fetchCraigslistListings rt (unable_to_launch pw) query zipcode options true
  /\ closeBrowser pw false = (Returned tt, false)
  /\ (forall browserInstance,
        succeeds (fst (closeBrowser pw browserInstance)) ->
        snd (closeBrowser pw browserInstance) = false
        /\ closeBrowser pw (snd (closeBrowser pw browserInstance))
           = (Returned tt, false)).
Proof.
intros rt pw query zipcode options.
split; [ | split; [ | split; [ | split]]].
- unfold fetchCraigslistListings, getBrowser. cbn [negb].
  destruct (newContext pw); [ | reflexivity].
  destruct (newPage pw); [ | reflexivity].
  destruct (context_close pw); reflexivity.
- intros b listings. unfold fetchCraigslistListings, getBrowser.
  destruct b; cbn [negb].
  + destruct (newContext pw); [ | discriminate].
    destruct (newPage pw); [ | discriminate].
    destruct (context_close pw); [reflexivity | discriminate].
  + destruct (launch pw); [ | discriminate].
    destruct (newContext pw); [ | discriminate].
    destruct (newPage pw); [ | discriminate].
    destruct (context_close pw); [reflexivity | discriminate].
- unfold fetchCraigslistListings, getBrowser, try_fetch. cbn [negb].
  cbn [unable_to_launch newContext newPage context_close goto waitForSelector
       search_rows].
  destruct (newContext pw); [ | reflexivity].
  destruct (newPage pw); [ | reflexivity].
  destruct (context_close pw); [ | reflexivity].
  destruct (goto pw _); [ | reflexivity].
  destruct (waitForSelector pw _); [ | reflexivity].
  destruct (search_rows pw _) as [rows | e]; [ | reflexivity].
  rewrite collect_unable_to_launch. reflexivity.
- reflexivity.
- intros b [u Hu]. unfold closeBrowser in *.
  destruct b; [ | split; reflexivity].
  destruct (browser_close pw); [split; reflexivity | discriminate Hu].
Qed.

(** A browser held, closed, and closed again. *)
Lemma browser_singleton_witness :
snd (closeBrowser (Scenario.showing []) true) = false
/\ closeBrowser (Scenario.showing []) (snd (closeBrowser (Scenario.showing []) true))
   = (Returned tt, false).
Proof.
apply (browser_singleton_lifecycle Scenario.rt (Scenario.showing [])
         "road bike" "94110" None).
exists tt. reflexivity.
Defined.

(** *** The search URL *)

(** X13. The search URL always carries, once each, the query, the zipcode,
  the distance, the sort by date and the filter on today's postings,
  whatever price bounds are added; the distance is 25 whenever no radius
  (or a radius of 0) is given, and the options that a scan passes never
  hold a radius, so every scan searches within 25 miles. *)
Theorem search_url_parameters :
forall rt query zipcode (options : option Options) (search : Search.t),
  NoDup (map fst (searchParams rt query zipcode options))
  /\ lookup (searchParams rt query zipcode options) "query" = Some query
  /\ lookup (searchParams rt query zipcode options) "postal" = Some zipcode
  /\ lookup (searchParams rt query zipcode options) "sort" = Some "date"
  /\ lookup (searchParams rt query zipcode options) "postedToday" = Some "1"
  /\ ((options = None \/ exists o, options = Some o /\ given (radius o) = false) ->
      lookup (searchParams rt query zipcode options) "search_distance"
      = Some (NumberToString rt (Fin 25)))
  /\ lookup (searchParams rt (Search.query search) (Search.zipcode search)
               (Some (Scheduler.scan_options search))) "search_distance"
     = Some (NumberToString rt (Fin 25)).
Proof.
intros rt query zipcode options search.
set (dist := fun o : option Options =>
               match o with
               | Some {| radius := Some r |} => if truthy (Num r) then r else Fin 25
               | _ => Fin 25
               end).
assert (Hshape :
  forall q z o,
  exists tail,
    searchParams rt q z o
    = ([("query", q); ("postal", z); ("search_distance", NumberToString rt (dist o));
        ("sort", "date"); ("postedToday", "1")] ++ tail)%list
    /\ (tail = [] \/ (exists v, tail = [("min_price", v)])
        \/ (exists v, tail = [("max_price", v)])
        \/ (exists v w, tail = [("min_price", v); ("max_price", w)]))).
{ intros q z o. unfold searchParams.
  destruct o as [[lo hi r lim] | ].
  2:{ exists []. split; [reflexivity | now left]. }
  destruct lo as [lo | ]; [destruct (truthy (Num lo)) | ];
    (destruct hi as [hi | ]; [destruct (truthy (Num hi)) | ]);
    cbn [params_set String.eqb Ascii.eqb Bool.eqb andb filter fst negb];
    eexists; (split; [reflexivity | ]); eauto 7. }
destruct (Hshape query zipcode options) as [tail [Hp Htail]].
rewrite Hp.
split.
{ cbn [map fst app].
  destruct Htail as [-> | [[v ->] | [[v ->] | [v [w ->]]]]]; cbn [map fst];
    repeat (constructor; [cbn; intuition discriminate | ]); constructor. }
split; [reflexivity | ]. split; [reflexivity | ]. split; [reflexivity | ].
split; [reflexivity | ].
split.
- intros Hnone. cbn [app lookup find fst snd String.eqb Ascii.eqb Bool.eqb andb].
  replace (dist options) with (Fin 25); [reflexivity | ].
  destruct Hnone as [-> | [o [-> Hg]]]; [reflexivity | ].
  destruct o as [lo hi [r | ] lim]; [ | reflexivity].
  cbn in Hg |- *. now rewrite Hg.
- destruct (Hshape (Search.query search) (Search.zipcode search)
              (Some (Scheduler.scan_options search))) as [tail' [Hp' _]].
  rewrite Hp'. reflexivity.
Qed.

(** A call without options. *)
Lemma search_url_parameters_witness :
lookup (searchParams Scenario.rt "road bike" "94110" None) "search_distance"
= Some (NumberToString Scenario.rt (Fin 25)).
Proof.
destruct (search_url_parameters Scenario.rt "road bike" "94110" None Scenario.s1)
  as [_ [_ [_ [_ [_ [Hdistance _]]]]]].
apply Hdistance. left. reflexivity.
Defined.

End CraigslistMore.

(* ================================================================== *)
(** ** Further properties of the scan orchestrator *)
(* ================================================================== *)

Module SchedulerMore.
Import JS.
Import Scheduler.
Import Spec.
Import Notions.
Import SchedulerFacts.
#[local] Open Scope list_scope.

(** *** Counts *)

Lemma scan_new_count env search apiKey candidates :
forall acc st acc',
  result (scan env search apiKey candidates acc) st = Returned acc' ->
  (new_count acc' <= new_count acc + List.length candidates)%nat.
Proof.
unfold result.
induction candidates as [ | listing rest IH]; intros acc st acc'.
- rewrite scan_nil. intros H. injection H as <-. cbn. lia.
- rewrite scan_cons.
  destruct (prisma_fails env (calls st)); [discriminate | ].
  destruct (find _ (listings st)).
  { intros H. apply IH in H. cbn [List.length]. lia. }
  cbv zeta.
  destruct (prisma_fails env _); [discriminate | ].
  intros H. apply IH in H. cbn [List.length].
  unfold tally in H. destruct (Listing.isGoodDeal _); cbn [new_count] in H; lia.
Qed.

Lemma fetch_at_most_ten env query zipcode options st candidates :
result (fetchCraigslistListings env query zipcode options) st = Returned candidates ->
(List.length candidates <= 10)%nat.
Proof.
unfold result, fetchCraigslistListings.
destruct (Craigslist.fetchCraigslistListings _ _ _ _ _ _) as [r b] eqn:Hf.
cbn [fst]. intros ->.
apply (CraigslistMore.fetched_at_most_ten (builtins env) (playwright env (calls st))
         query zipcode options (browserInstance st)).
now rewrite Hf.
Qed.

Lemma processSearch_at_most_ten env sid st counts :
result (processSearch env sid) st = Returned counts ->
(newListings counts <= 10)%nat.
Proof.
unfold result. rewrite processSearch_run.
destruct (prisma_fails env (calls st)); [discriminate | ].
destruct (search_row sid st) as [search | ];
  [ | intros H; injection H as <-; cbn; lia].
destruct (negb (Search.isActive search));
  [intros H; injection H as <-; cbn; lia | ].
pose proof (fetch_at_most_ten env (Search.query search) (Search.zipcode search)
              (Some (scan_options search)) (tick st)) as Hten.
unfold result in Hten.
destruct (fetchCraigslistListings _ _ _ _ _) as [[candidates | e] st1];
  [ | discriminate].
specialize (Hten candidates eq_refl).
destruct (GEMINI_API_KEY env) as [apiKey | ];
  [ | intros H; injection H as <-; cbn; lia].
destruct (String.eqb apiKey ""); [intros H; injection H as <-; cbn; lia | ].
pose proof (scan_new_count env search apiKey candidates start st1) as Hnew.
unfold result in Hnew.
destruct (scan env search apiKey candidates start st1) as [[acc | e] st2];
  [ | discriminate].
specialize (Hnew acc eq_refl). cbn in Hnew.
intros H.
destruct (finish_effect env search acc st2) as [_ [_ Fr]].
unfold result in Fr. apply Fr in H as [H _]. lia.
Qed.

(** X14. The counts that a scan returns fit together: the good deals are
  among the new listings, of which there are at most ten; the alerts sent
  are either none or all the good deals; and the scan has inserted
  exactly [newListings] rows and sent exactly [newListings] listings to
  the model. *)
Theorem counts_of_a_scan :
forall env sid st counts,
  result (processSearch env sid) st = Returned counts ->
  (goodDeals counts <= newListings counts <= 10)%nat
  /\ (alertsSent counts = 0%nat \/ alertsSent counts = goodDeals counts)
  /\ List.length (listings (after (processSearch env sid) st))
     = (List.length (listings st) + newListings counts)%nat
  /\ List.length (evaluated (after (processSearch env sid) st))
     = (List.length (evaluated st) + newListings counts)%nat.
Proof.
intros env sid st counts Hrun.
pose proof (processSearch_at_most_ten env sid st counts Hrun) as Hten.
destruct (processSearch_scanned env sid st) as [created [sent H]].
destruct H as [Hl [He [_ [_ [_ [_ Hr]]]]]].
destruct (Hr counts Hrun) as [Hs [Hn [Hg [Ha _]]]].
split.
{ split; [ | exact Hten]. rewrite Hg, Hn. apply filter_length_le. }
split; [rewrite Hg; exact Ha | ].
split.
- destruct Hl as [Hl | Hl]; rewrite Hl, ?length_map, length_app, Hn; reflexivity.
- rewrite He, length_app, Hs, length_map, Hn. reflexivity.
Qed.

(** The later scan of the examples: one new listing, a good deal, alerted. *)
Lemma counts_of_a_scan_witness :
(1 <= 1 <= 10)%nat
/\ (1%nat = 0%nat \/ 1%nat = 1%nat)
/\ List.length (listings (after (processSearch Scenario.later_scan "s1")
                            Scenario.after_first_scan))
   = (List.length (listings Scenario.after_first_scan) + 1)%nat
/\ List.length (evaluated (after (processSearch Scenario.later_scan "s1")
                             Scenario.after_first_scan))
   = (List.length (evaluated Scenario.after_first_scan) + 1)%nat.
Proof.
assert (Hrun : result (processSearch Scenario.later_scan "s1") Scenario.after_first_scan
               = Returned {| newListings := 1; goodDeals := 1; alertsSent := 1 |})
  by (vm_compute; reflexivity).
exact (counts_of_a_scan Scenario.later_scan "s1" Scenario.after_first_scan _ Hrun).
Defined.

(** *** A search that is missing or paused *)

(** X15. A scan of a search that does not exist, or that is not active,
  only reads the Search table: it returns zero counts without launching
  the browser, calling the model, sending mail or writing anything. *)
Theorem nothing_happens_for_a_missing_or_paused_search :
forall env sid st,
  prisma_fails env (calls st) = false ->
  (search_row sid st = None
   \/ exists search, search_row sid st = Some search
                     /\ Search.isActive search = false) ->
  processSearch env sid st = (Returned no_counts, tick st).
Proof.
intros env sid st Hdb Hrow. rewrite processSearch_run, Hdb.
destruct Hrow as [-> | [search [-> ->]]]; reflexivity.
Qed.

(** An unknown id, and a paused search. *)
Lemma missing_or_paused_witness :
processSearch Scenario.later_scan "nope" (Scenario.store [Scenario.s1])
= (Returned no_counts, tick (Scenario.store [Scenario.s1]))
/\ processSearch Scenario.later_scan "s9" (Scenario.store [ScenarioMore.paused])
   = (Returned no_counts, tick (Scenario.store [ScenarioMore.paused])).
Proof.
split.
- apply nothing_happens_for_a_missing_or_paused_search; [reflexivity | ].
  left. reflexivity.
- apply nothing_happens_for_a_missing_or_paused_search; [reflexivity | ].
  right. exists ScenarioMore.paused. split; reflexivity.
Defined.

(** *** The Listing table *)

Lemma mark_alerted_cases sid l :
mark_alerted sid l = l
\/ (Listing.searchId l = sid /\ Listing.isGoodDeal l = true
    /\ Listing.alertSent l = false
    /\ mark_alerted sid l = Listing.set_alertSent true l).
Proof.
unfold mark_alerted, to_mark.
destruct (String.eqb (Listing.searchId l) sid) eqn:Hs; [ | now left].
destruct (Listing.isGoodDeal l) eqn:Hg; [ | now left].
destruct (Listing.alertSent l) eqn:Ha; [now left | ].
right. apply String.eqb_eq in Hs. repeat split; assumption.
Qed.

(** X16. The rows of the Listing table are immutable under a scan but for
  their alert flag: whatever a scan does (return or throw), a row that
  was in the table is still there, either unchanged or, if it was an
  unsent good deal of the scanned search, with only [alertSent] turned
  from false to true; no row is deleted and no flag goes back to false. *)
Theorem listings_are_immutable_but_for_the_alert_flag :
forall env sid st l,
  In l (listings st) ->
  In l (listings (after (processSearch env sid) st))
  \/ (Listing.searchId l = sid /\ Listing.isGoodDeal l = true
      /\ Listing.alertSent l = false
      /\ In (Listing.set_alertSent true l)
           (listings (after (processSearch env sid) st))).
Proof.
intros env sid st l Hin.
destruct (processSearch_scanned env sid st) as [created [sent H]].
destruct H as [[Hl | Hl] _]; rewrite Hl.
- left. apply in_or_app. left. exact Hin.
- assert (Hm : In (mark_alerted sid l) (map (mark_alerted sid) (listings st ++ created))).
  { apply in_map, in_or_app. left. exact Hin. }
  destruct (mark_alerted_cases sid l) as [Hsame | [Hs [Hg [Ha Hmark]]]].
  + left. rewrite Hsame in Hm. exact Hm.
  + right. rewrite Hmark in Hm. repeat split; assumption.
Qed.

(** The Trek of the first scan, flipped by the later scan. *)
Lemma listings_are_immutable_witness :
Forall (fun l =>
          In l (listings (after (processSearch Scenario.later_scan "s1")
                            Scenario.after_first_scan))
          \/ In (Listing.set_alertSent true l)
               (listings (after (processSearch Scenario.later_scan "s1")
                            Scenario.after_first_scan)))
  (listings Scenario.after_first_scan).
Proof.
apply Forall_forall. intros l Hin.
destruct (listings_are_immutable_but_for_the_alert_flag
            Scenario.later_scan "s1" Scenario.after_first_scan l Hin)
  as [H | [_ [_ [_ H]]]]; [left | right]; exact H.
Defined.

(** *** The Search table *)

Lemma finish_searches env search acc st :
searches (after (finish env search acc) st) = searches st
\/ (searches (after (finish env search acc) st)
    = map (touch (Search.id search) (Date_now env (calls st))
             (prisma_now env (calls st))) (searches st)
    /\ (calls st < calls (after (finish env search acc) st))%nat).
Proof.
unfold after. rewrite finish_run.
destruct (prisma_fails env (calls st)); [left; reflexivity | ].
destruct (existsb _ (searches st)); [ | left; reflexivity].
cbv zeta.
destruct (dealsToAlert acc); [right; split; [reflexivity | cbn; lia] | ].
destruct (Email.sendDealAlertEmail _ _); [ | right; split; [reflexivity | cbn; lia]].
destruct (prisma_fails env _); right; (split; [reflexivity | cbn; lia]).
Qed.

Lemma processSearch_searches env sid st :
searches (after (processSearch env sid) st) = searches st
\/ exists n,
     (calls st <= n < calls (after (processSearch env sid) st))%nat
     /\ searches (after (processSearch env sid) st)
        = map (touch sid (Date_now env n) (prisma_now env n)) (searches st).
Proof.
unfold after. rewrite processSearch_run.
destruct (prisma_fails env (calls st)); [left; reflexivity | ].
destruct (search_row sid st) as [search | ] eqn:Hrow; [ | left; reflexivity].
destruct (negb (Search.isActive search)); [left; reflexivity | ].
pose proof (fetch_frame env (Search.query search) (Search.zipcode search)
              (Some (scan_options search)) (tick st)) as Hf.
unfold after in Hf.
destruct (fetchCraigslistListings _ _ _ _ _) as [[candidates | e] st1];
  cbn in Hf; destruct Hf as [_ [Hs1 [_ [_ Hc1]]]]; [ | left; exact Hs1].
destruct (GEMINI_API_KEY env) as [apiKey | ]; [ | left; exact Hs1].
destruct (String.eqb apiKey ""); [left; exact Hs1 | ].
destruct (scan_grows env search apiKey candidates start st1)
  as [created [sent [Hg _]]].
pose proof (scan_calls env search apiKey candidates start st1) as Hcalls.
unfold after in Hg, Hcalls.
destruct (scan env search apiKey candidates start st1) as [[acc | e] st2];
  cbn [snd] in Hg, Hcalls |- *; destruct Hg as [_ [_ [Hs2 _]]].
2:{ left. rewrite Hs2. exact Hs1. }
apply search_row_id in Hrow.
destruct (finish_searches env search acc st2) as [H | [H Hc2]];
  unfold after in H.
- left. rewrite H, Hs2. exact Hs1.
- right. exists (calls st2). unfold after in Hc2. split; [lia | ].
  rewrite H, Hs2, Hs1, Hrow. reflexivity.
Qed.

(** X17. A scan writes nothing to the Search table but the checkpoint of
  the search it scans: after it (returned or thrown) the table holds the
  same searches in the same order, each either unchanged or, for the
  scanned search only, with [lastChecked] set to the time that the
  program read at one call of this scan and [updatedAt] stamped by the
  store at that call; so id, owner, query, zipcode, price bounds, active
  flag, preferences and creation time are never changed, and no other
  search is touched. *)
Theorem searches_are_untouched_but_for_the_checkpoint :
forall env sid st,
  exists f,
    searches (after (processSearch env sid) st) = map f (searches st)
    /\ forall s,
         f s = s
         \/ (Search.id s = sid
             /\ exists n,
                  (calls st <= n < calls (after (processSearch env sid) st))%nat
                  /\ f s = Search.set_updatedAt (prisma_now env n)
                             (Search.set_lastChecked (Date_now env n) s)).
Proof.
intros env sid st.
destruct (processSearch_searches env sid st) as [H | [n [Hn H]]].
- exists (fun s => s). split; [now rewrite map_id | ]. intros s. now left.
- exists (touch sid (Date_now env n) (prisma_now env n)). split; [exact H | ].
  intros s. unfold touch.
  destruct (String.eqb (Search.id s) sid) eqn:E; [ | now left].
  right. apply String.eqb_eq in E. split; [exact E | ].
  exists n. split; [exact Hn | reflexivity].
Qed.

(** *** A mail service that is down *)

Lemma finish_without_mail env search acc st :
(forall n params, Email.sendDealAlertEmail (resend env n) params = false) ->
listings (after (finish env search acc) st) = listings st
/\ outbox (after (finish env search acc) st) = outbox st
/\ forall counts,
     result (finish env search acc) st = Returned counts ->
     alertsSent counts = 0%nat.
Proof.
intros Hmail. unfold after, result. rewrite finish_run.
destruct (prisma_fails env (calls st)).
{ repeat split. intros c H; discriminate H. }
destruct (existsb _ (searches st)).
2:{ repeat split. intros c H; discriminate H. }
cbv zeta.
destruct (dealsToAlert acc).
{ repeat split. intros c H. now injection H as <-. }
rewrite Hmail. repeat split. intros c H. now injection H as <-.
Qed.

(** X18. When the notification cannot be sent (the mail credential is
  missing, the provider reports an error or the call throws), a scan
  reports zero alerts, hands nothing to the outbox, and flips no alert
  flag: the table is the earlier table followed by the rows the scan
  created, and these are all unsent. *)
Theorem no_flag_is_flipped_without_a_notification :
forall env sid st,
  (forall n params, Email.sendDealAlertEmail (resend env n) params = false) ->
  (exists created,
     listings (after (processSearch env sid) st) = listings st ++ created
     /\ Forall (fun l => Listing.alertSent l = false) created)
  /\ outbox (after (processSearch env sid) st) = outbox st
  /\ forall counts,
       result (processSearch env sid) st = Returned counts ->
       alertsSent counts = 0%nat.
Proof.
intros env sid st Hmail. unfold after, result. rewrite processSearch_run.
assert (Hnil : forall (r : outcome Counts) st',
           listings st' = listings st -> outcome_is_zero r ->
           outbox st' = outbox st ->
           (exists created,
              listings st' = listings st ++ created
              /\ Forall (fun l => Listing.alertSent l = false) created)
           /\ outbox st' = outbox st
           /\ forall counts, r = Returned counts -> alertsSent counts = 0%nat).
{ intros r st' Hl Hz Ho. split; [exists []; rewrite app_nil_r; split; [exact Hl | constructor] | ].
  split; [exact Ho | ]. intros counts ->. exact Hz. }
destruct (prisma_fails env (calls st)); [now apply Hnil | ].
destruct (search_row sid st) as [search | ]; [ | now apply Hnil].
destruct (negb (Search.isActive search)); [now apply Hnil | ].
pose proof (fetch_frame env (Search.query search) (Search.zipcode search)
              (Some (scan_options search)) (tick st)) as Hf.
unfold after in Hf.
destruct (fetchCraigslistListings _ _ _ _ _) as [[candidates | e] st1];
  cbn in Hf; destruct Hf as [Hl1 [_ [_ [Ho1 _]]]]; [ | now apply Hnil].
destruct (GEMINI_API_KEY env) as [apiKey | ]; [ | now apply Hnil].
destruct (String.eqb apiKey ""); [now apply Hnil | ].
destruct (scan_grows env search apiKey candidates start st1)
  as [created [sent [Hg _]]].
unfold after in Hg.
destruct (scan env search apiKey candidates start st1) as [[acc | e] st2];
  cbn [snd] in Hg; destruct Hg as [Hl2 [_ [_ [Ho2 [_ [Hc _]]]]]].
2:{ cbn [fst snd]. split.
    - exists created. split; [rewrite Hl2, Hl1; reflexivity | ].
      eapply Forall_impl; [ | exact Hc]. intros l [_ H]. exact H.
    - split; [rewrite Ho2; exact Ho1 | intros c H; discriminate H]. }
destruct (finish_without_mail env search acc st2 Hmail) as [Fl [Fo Fr]].
unfold after, result in Fl, Fo, Fr.
split.
- exists created. split; [rewrite Fl, Hl2, Hl1; reflexivity | ].
  eapply Forall_impl; [ | exact Hc]. intros l [_ H]. exact H.
- split; [rewrite Fo, Ho2; exact Ho1 | exact Fr].
Qed.

(** The first scan of the examples: the mail credential is not set. *)
Lemma no_flag_is_flipped_witness :
outbox (after (processSearch Scenario.first_scan "s1") (Scenario.store [Scenario.s1]))
= outbox (Scenario.store [Scenario.s1]).
Proof.
apply (no_flag_is_flipped_without_a_notification Scenario.first_scan "s1"
         (Scenario.store [Scenario.s1])).
intros n params. reflexivity.
Defined.

(** *** Scanning again *)

Lemma key_found (sid ext : string) (ls : list Listing.t) :
In (sid, ext) (map Listing.key ls) ->
exists l, find (Listing.has_key sid ext) ls = Some l.
Proof.
intros Hin.
destruct (find (Listing.has_key sid ext) ls) as [l | ] eqn:Hfind; [now exists l | ].
now apply key_absent in Hfind.
Qed.

Lemma scan_keeps_keys env search apiKey candidates acc st k :
In k (keys st) -> In k (keys (after (scan env search apiKey candidates acc) st)).
Proof.
intros Hin.
destruct (scan_grows env search apiKey candidates acc st) as [created [sent [Hg _]]].
destruct Hg as [Hl _]. unfold keys. rewrite Hl, map_app.
apply in_or_app. left. exact Hin.
Qed.

Lemma scan_covers env search apiKey candidates :
forall acc st acc',
  result (scan env search apiKey candidates acc) st = Returned acc' ->
  forall c, In c candidates ->
    In (Search.id search, Craigslist.externalId c)
      (keys (after (scan env search apiKey candidates acc) st)).
Proof.
unfold result, after.
induction candidates as [ | listing rest IH]; intros acc st acc' Hrun c Hin;
  [destruct Hin | ].
rewrite scan_cons in Hrun |- *.
destruct (prisma_fails env (calls st)); [discriminate Hrun | ].
destruct (find _ (listings st)) as [existing | ] eqn:Hfind.
- destruct Hin as [<- | Hin]; [ | exact (IH _ _ _ Hrun c Hin)].
  apply (scan_keeps_keys env search apiKey rest acc (tick st)).
  unfold keys. cbn [listings tick].
  apply find_some in Hfind as [Hin Hk].
  unfold Listing.has_key in Hk. apply andb_true_iff in Hk as [Hs He].
  apply String.eqb_eq in Hs, He. rewrite <- Hs, <- He.
  exact (in_map Listing.key _ _ Hin).
- cbv zeta in Hrun |- *.
  destruct (prisma_fails env _); [discriminate Hrun | ].
  destruct Hin as [<- | Hin]; [ | exact (IH _ _ _ Hrun c Hin)].
  match goal with
  | |- In _ (keys (snd (scan _ _ _ _ ?a ?s))) =>
      apply (scan_keeps_keys env search apiKey rest a s)
  end.
  unfold keys. cbn [listings with_listings]. rewrite map_app.
  apply in_or_app. right. left. reflexivity.
Qed.

Lemma scan_skips env search apiKey candidates :
forall acc st,
  (forall c, In c candidates ->
     In (Search.id search, Craigslist.externalId c) (keys st)) ->
  listings (after (scan env search apiKey candidates acc) st) = listings st
  /\ evaluated (after (scan env search apiKey candidates acc) st) = evaluated st
  /\ forall acc',
       result (scan env search apiKey candidates acc) st = Returned acc' ->
       acc' = acc.
Proof.
unfold result, after.
induction candidates as [ | listing rest IH]; intros acc st Hknown.
- rewrite scan_nil. repeat split. intros acc' H. now injection H.
- rewrite scan_cons.
  destruct (prisma_fails env (calls st)).
  { repeat split. intros acc' H; discriminate H. }
  destruct (key_found _ _ _ (Hknown listing (or_introl eq_refl))) as [l Hl].
  rewrite Hl.
  apply (IH acc (tick st)). intros c Hin. apply Hknown. now right.
Qed.

(** X19. Scanning again is idempotent, in any order: once the loop over
  the candidates has run to its end, a second loop (in any world, with
  any credential) over candidates whose external ids were all among those
  of the first loop, in whatever order and number, inserts nothing, sends
  nothing to the model and counts nothing. *)
Theorem rescan_of_known_candidates_does_nothing :
forall env env' search apiKey apiKey' first again acc acc' acc1 st,
  result (scan env search apiKey first acc) st = Returned acc1 ->
  (forall c, In c again ->
     In (Craigslist.externalId c) (map Craigslist.externalId first)) ->
  let st1 := after (scan env search apiKey first acc) st in
  listings (after (scan env' search apiKey' again acc') st1) = listings st1
  /\ evaluated (after (scan env' search apiKey' again acc') st1) = evaluated st1
  /\ forall acc2,
       result (scan env' search apiKey' again acc') st1 = Returned acc2 ->
       acc2 = acc'.
Proof.
intros env env' search apiKey apiKey' first again acc acc' acc1 st Hrun Hsame st1.
apply scan_skips. intros c Hin.
apply Hsame in Hin. apply in_map_iff in Hin as [c0 [Hid Hin0]].
rewrite <- Hid.
exact (scan_covers env search apiKey first acc st acc1 Hrun c0 Hin0).
Qed.

(** Two candidates, then the same two in another order, one of them twice. *)
Lemma rescan_witness :
listings (after (scan Scenario.later_scan Scenario.s1 "other key"
                   ScenarioMore.second_pass start)
            (after (scan Scenario.first_scan Scenario.s1 "key"
                      ScenarioMore.first_pass start)
               (Scenario.store [Scenario.s1])))
= listings (after (scan Scenario.first_scan Scenario.s1 "key"
                     ScenarioMore.first_pass start)
              (Scenario.store [Scenario.s1])).
Proof.
assert (Hrun : result (scan Scenario.first_scan Scenario.s1 "key"
                         ScenarioMore.first_pass start)
                 (Scenario.store [Scenario.s1])
               = Returned
                   match result (scan Scenario.first_scan Scenario.s1 "key"
                                   ScenarioMore.first_pass start)
                           (Scenario.store [Scenario.s1]) with
                   | Returned acc => acc
                   | Threw _ => start
                   end)
  by (vm_compute; reflexivity).
apply (rescan_of_known_candidates_does_nothing
         Scenario.first_scan Scenario.later_scan Scenario.s1 "key" "other key"
         ScenarioMore.first_pass ScenarioMore.second_pass start start _
         (Scenario.store [Scenario.s1]) Hrun).
intros c Hin. vm_compute in Hin |- *.
destruct Hin as [<- | [<- | [<- | []]]]; tauto.
Defined.

(** *** The flag and the score of the stored rows *)

Lemma scan_preserves (P : Listing.t -> Prop) env search apiKey candidates :
(forall n c ai,
   P (Listing.set_id n
        (listing_data env search c
           (assessment ai (for_evaluation search c) apiKey)))) ->
forall acc st,
  Forall P (listings st) ->
  Forall P (listings (after (scan env search apiKey candidates acc) st)).
Proof.
intros Hnew. unfold after.
induction candidates as [ | listing rest IH]; intros acc st HP.
- rewrite scan_nil. exact HP.
- rewrite scan_cons.
  destruct (prisma_fails env (calls st)); [exact HP | ].
  destruct (find _ (listings st)); [exact (IH acc (tick st) HP) | ].
  cbv zeta.
  destruct (prisma_fails env _); [exact HP | ].
  apply IH. cbn [listings with_listings].
  apply Forall_app. split; [exact HP | ].
  constructor; [apply Hnew | constructor].
Qed.

Lemma finish_preserves (P : Listing.t -> Prop) env search acc st :
(forall l, P l -> P (Listing.set_alertSent true l)) ->
Forall P (listings st) ->
Forall P (listings (after (finish env search acc) st)).
Proof.
intros Hflag HP.
destruct (finish_effect env search acc st) as [_ [[Hl | Hl] _]]; rewrite Hl;
  [exact HP | ].
apply Forall_map. eapply Forall_impl; [ | exact HP].
intros l Hl'. unfold mark_alerted. destruct (to_mark _ l); [now apply Hflag | exact Hl'].
Qed.

(** X20. The flag and the score of the stored listings agree, and scans
  keep it so: if every row of the table is flagged as a good deal exactly
  when its score is an integer between 70 and 100, the same holds after
  any scan, for the rows it created and for those whose alert flag it
  flipped (a row with score NaN is stored unflagged). *)
Theorem stored_flag_matches_stored_score :
forall env sid st,
  Forall flag_matches_score (listings st) ->
  Forall flag_matches_score (listings (after (processSearch env sid) st)).
Proof.
intros env sid st HP. unfold after. rewrite processSearch_run.
destruct (prisma_fails env (calls st)); [exact HP | ].
destruct (search_row sid st) as [search | ]; [ | exact HP].
destruct (negb (Search.isActive search)); [exact HP | ].
pose proof (fetch_frame env (Search.query search) (Search.zipcode search)
              (Some (scan_options search)) (tick st)) as Hf.
unfold after in Hf.
destruct (fetchCraigslistListings _ _ _ _ _) as [[candidates | e] st1];
  cbn in Hf; destruct Hf as [Hl1 _]; [ | cbn [snd]; now rewrite Hl1].
destruct (GEMINI_API_KEY env) as [apiKey | ]; [ | cbn [snd]; now rewrite Hl1].
destruct (String.eqb apiKey ""); [cbn [snd]; now rewrite Hl1 | ].
assert (HP1 : Forall flag_matches_score (listings st1)) by now rewrite Hl1.
pose proof (scan_preserves flag_matches_score env search apiKey candidates) as Hscan.
specialize (Hscan (fun n c ai =>
                     EvaluatorMore.assessment_flag ai (for_evaluation search c) apiKey)
              start st1 HP1).
unfold after in Hscan.
destruct (scan env search apiKey candidates start st1) as [[acc | e] st2];
  cbn [snd] in Hscan |- *; [ | exact Hscan].
apply (finish_preserves flag_matches_score env search acc st2); [ | exact Hscan].
intros l Hl. exact Hl.
Qed.

(** The tables of the examples. *)
Lemma stored_flag_witness :
Forall flag_matches_score
  (listings (after (processSearch Scenario.later_scan "s1")
               (Scenario.store [Scenario.s1]))).
Proof.
apply (stored_flag_matches_stored_score Scenario.later_scan "s1"
         (Scenario.store [Scenario.s1])).
constructor.
Defined.

(** *** The sweep *)

(** X21. A sweep that returns has released the browser: whatever the
  single scans did, after [processAllSearches] has returned no browser is
  held, so the next sweep launches a fresh one. *)
Theorem sweep_releases_the_browser :
forall env st summary st',
  processAllSearches env st = (Returned summary, st') ->
  browserInstance st' = false.
Proof.
intros env st summary st'. unfold processAllSearches. unfold bind at 1.
unfold search_findMany_active, prisma.
destruct (prisma_fails env (calls st)); [discriminate | ].
rewrite sweep_attempts.
unfold closeBrowser, Craigslist.closeBrowser.
destruct (browserInstance (snd (attempts env _ _))) eqn:Hb.
- destruct (Craigslist.browser_close _); [ | discriminate].
  intros H. injection H as _ <-. reflexivity.
- intros H. injection H as _ <-. reflexivity.
Qed.

(** The sweep of the examples, in which one scan throws. *)
Lemma sweep_releases_witness :
browserInstance
  (snd (processAllSearches Scenario.sweep_with_a_failure
          (Scenario.store [Scenario.s1; Scenario.s2; Scenario.s3])))
= false.
Proof.
assert (Hrun : processAllSearches Scenario.sweep_with_a_failure
                 (Scenario.store [Scenario.s1; Scenario.s2; Scenario.s3])
               = (Returned {| searchesProcessed := 3; totalNewListings := 4;
                              totalGoodDeals := 2; totalAlertsSent := 2 |},
                  snd (processAllSearches Scenario.sweep_with_a_failure
                         (Scenario.store [Scenario.s1; Scenario.s2; Scenario.s3]))))
  by (vm_compute; reflexivity).
exact (sweep_releases_the_browser _ _ _ _ Hrun).
Defined.

Lemma processSearch_touches_its_search_only env sid st l :
In l (listings (after (processSearch env sid) st)) ->
In l (listings st) \/ Listing.searchId l = sid.
Proof.
destruct (processSearch_scanned env sid st) as [created [sent H]].
destruct H as [Hl [_ [Hc _]]]. rewrite Forall_forall in Hc.
destruct Hl as [Hl | Hl]; rewrite Hl.
- intros Hin. apply in_app_or in Hin as [Hin | Hin]; [now left | ].
  right. now apply Hc.
- intros Hin. apply in_map_iff in Hin as [l0 [Hm Hin]].
  destruct (mark_alerted_cases sid l0) as [Hsame | [Hs [_ [_ Hmark]]]].
  + rewrite Hsame in Hm. subst l0.
    apply in_app_or in Hin as [Hin | Hin]; [now left | right; now apply Hc].
  + right. rewrite Hmark in Hm. subst l. exact Hs.
Qed.

Lemma attempts_touch_their_searches_only env ids :
forall st l,
  In l (listings (snd (attempts env ids st))) ->
  In l (listings st) \/ In (Listing.searchId l) ids.
Proof.
induction ids as [ | id rest IH]; intros st l; cbn [attempts]; [now left | ].
pose proof (processSearch_touches_its_search_only env id st l) as Hone.
unfold after in Hone.
destruct (processSearch env id st) as [r st1]. cbn [snd] in Hone.
specialize (IH st1 l).
destruct (attempts env rest st1) as [rs st2]. cbn [snd] in IH |- *.
intros Hin. destruct (IH Hin) as [H | H].
- destruct (Hone H) as [H0 | H0]; [now left | right; left; now symmetry].
- right. right. exact H.
Qed.

(** X22. A sweep leaves the listings of searches that are not active alone:
  every row of the Listing table after [processAllSearches] either was
  there before, unchanged, or belongs to a search that was active when
  the sweep started; nothing is inserted for a paused search, and none of
  its alert flags is flipped. *)
Theorem sweep_touches_active_searches_only :
forall env st l,
  In l (listings (after (processAllSearches env) st)) ->
  In l (listings st)
  \/ In (Listing.searchId l) (map Search.id (filter Search.isActive (searches st))).
Proof.
intros env st l. unfold after, processAllSearches. unfold bind at 1.
unfold search_findMany_active, prisma.
destruct (prisma_fails env (calls st)); [now left | ].
rewrite sweep_attempts. cbn [searches tick].
pose proof (attempts_touch_their_searches_only env
              (map Search.id (filter Search.isActive (searches st))) (tick st) l) as H.
unfold closeBrowser.
destruct (Craigslist.closeBrowser _ _) as [[u | e] b]; cbn [snd listings with_browser tick];
  exact H.
Qed.

(** A sweep over a store with an active and a paused search. *)
Lemma sweep_touches_witness :
Forall (fun l =>
          In l (listings (Scenario.store [Scenario.s1; ScenarioMore.paused]))
          \/ In (Listing.searchId l) ["s1"])
  (listings (after (processAllSearches Scenario.later_scan)
               (Scenario.store [Scenario.s1; ScenarioMore.paused]))).
Proof.
apply Forall_forall. intros l Hin.
exact (sweep_touches_active_searches_only Scenario.later_scan
         (Scenario.store [Scenario.s1; ScenarioMore.paused]) l Hin).
Defined.

End SchedulerMore.

(* ================================================================== *)
(** ** The rate limiter and the request checks *)
(* ================================================================== *)

Module SecurityFacts.
Import Security.
Import Notions.
#[local] Open Scope Z_scope.

(** *** The Map *)

Lemma get_set_same store k v : Map_get (Map_set store k v) k = Some v.
Proof.
induction store as [ | [k' v'] rest IH]; cbn.
- now rewrite String.eqb_refl.
- destruct (String.eqb k' k) eqn:E; cbn.
  + now rewrite String.eqb_refl.
  + now rewrite E.
Qed.

Lemma get_set_other store k k' v :
k <> k' -> Map_get (Map_set store k v) k' = Map_get store k'.
Proof.
intros Hne. induction store as [ | [k0 v0] rest IH]; cbn.
- apply String.eqb_neq in Hne. now rewrite Hne.
- destruct (String.eqb k0 k) eqn:E; cbn.
  + apply String.eqb_eq in E. subst k0.
    apply String.eqb_neq in Hne. now rewrite Hne.
  + destruct (String.eqb k0 k'); [reflexivity | exact IH].
Qed.

Lemma keys_set store k v :
In k (map fst store) -> map fst (Map_set store k v) = map fst store.
Proof.
induction store as [ | [k0 v0] rest IH]; cbn; [intros [] | ].
destruct (String.eqb k0 k) eqn:E; cbn.
- apply String.eqb_eq in E. now subst k0.
- intros [H | H]; [subst k0; now rewrite String.eqb_refl in E | ].
  now rewrite IH.
Qed.

Lemma keys_set_new store k v :
~ In k (map fst store) ->
map fst (Map_set store k v) = (map fst store ++ [k])%list.
Proof.
induction store as [ | [k0 v0] rest IH]; cbn; [reflexivity | ].
intros Hnot. destruct (String.eqb k0 k) eqn:E.
- apply String.eqb_eq in E. elim Hnot. now left.
- cbn. rewrite IH; [reflexivity | tauto].
Qed.

Lemma get_absent store k : ~ In k (map fst store) -> Map_get store k = None.
Proof.
induction store as [ | [k0 v0] rest IH]; cbn; [reflexivity | ].
intros Hnot. destruct (String.eqb k0 k) eqn:E.
- apply String.eqb_eq in E. elim Hnot. now left.
- apply IH. tauto.
Qed.

Lemma set_keeps_NoDup store k v :
NoDup (map fst store) -> NoDup (map fst (Map_set store k v)).
Proof.
intros Hn. destruct (in_dec string_dec k (map fst store)) as [Hin | Hnot].
- now rewrite keys_set.
- rewrite keys_set_new by exact Hnot.
  apply NoDup_app; [exact Hn | constructor; [intros [] | constructor] | ].
  intros a Ha [<- | []]. exact (Hnot Ha).
Qed.

(** *** One window *)

Lemma requests_in_window config identifier times :
forall store c R,
  Map_get store identifier = Some {| count := c; resetTime := R |} ->
  (forall t, In t times -> t <= R) ->
  fst (requests config identifier times store)
  = (repeat true (Nat.min (List.length times) (Z.to_nat (maxRequests config - c)))
     ++ repeat false (List.length times - Z.to_nat (maxRequests config - c)))%list.
Proof.
induction times as [ | t rest IH]; intros store c R Hget Hin; [reflexivity | ].
cbn [requests]. unfold checkRateLimit. rewrite Hget. cbn [resetTime count].
assert (Ht : (R <? t) = false) by (apply Z.ltb_ge, Hin; now left).
rewrite Ht.
destruct (Z.leb_spec (maxRequests config) c) as [Hfull | Hroom].
- specialize (IH store c R Hget (fun t' H => Hin t' (or_intror H))).
  destruct (requests config identifier rest store) as [rs store2].
  cbn [fst allowed] in IH |- *. rewrite IH.
  replace (Z.to_nat (maxRequests config - c)) with 0%nat by lia.
  cbn. rewrite Nat.min_0_r, Nat.sub_0_r. reflexivity.
- cbv zeta.
  specialize (IH (Map_set store identifier {| count := c + 1; resetTime := R |})
                (c + 1) R (get_set_same _ _ _) (fun t' H => Hin t' (or_intror H))).
  destruct (requests config identifier rest _) as [rs store2].
  cbn [fst allowed] in IH |- *. rewrite IH.
  replace (Z.to_nat (maxRequests config - c))
    with (S (Z.to_nat (maxRequests config - (c + 1)))) by lia.
  cbn [List.length Nat.min Nat.sub repeat app]. reflexivity.
Qed.

(** X23. Within one window the limiter grants exactly the first
  [maxRequests] requests of an identifier (the first one always, also
  when [maxRequests] is below 1) and refuses all the later ones: for an
  identifier without an open window at [t0], and requests at [t0] and at
  any later times up to [t0 + windowMs], the answers are [true] for the
  first max(1, maxRequests) requests and [false] for the rest. *)
Theorem at_most_max_requests_per_window :
forall config identifier t0 times store,
  no_open_window store identifier t0 ->
  (forall t, In t times -> t <= t0 + windowMs config) ->
  fst (requests config identifier (t0 :: times) store)
  = (repeat true (Nat.min (S (List.length times))
                    (Z.to_nat (Z.max 1 (maxRequests config))))
     ++ repeat false (S (List.length times)
                      - Z.to_nat (Z.max 1 (maxRequests config))))%list.
Proof.
intros config identifier t0 times store Hopen Hin.
cbn [requests].
assert (Hfirst : checkRateLimit t0 identifier config store
                 = ({| allowed := true; remaining := maxRequests config - 1;
                       resetIn := ceil_seconds (windowMs config) |},
                    Map_set store identifier
                      {| count := 1; resetTime := t0 + windowMs config |})).
{ unfold checkRateLimit. unfold no_open_window in Hopen.
  destruct (Map_get store identifier) as [entry | ]; [ | reflexivity].
  apply Z.ltb_lt in Hopen. now rewrite Hopen. }
rewrite Hfirst.
pose proof (requests_in_window config identifier times
              (Map_set store identifier
                 {| count := 1; resetTime := t0 + windowMs config |})
              1 (t0 + windowMs config) (get_set_same _ _ _) Hin) as Hrest.
destruct (requests config identifier times _) as [rs store2].
cbn [fst allowed] in Hrest |- *. rewrite Hrest.
replace (Z.to_nat (Z.max 1 (maxRequests config)))
  with (S (Z.to_nat (maxRequests config - 1))) by lia.
reflexivity.
Qed.

(** Seven manual scans within one hour: five pass. *)
Lemma at_most_max_requests_witness :
fst (requests RATE_LIMITS_scan "scan:203.0.113.7"
       [1000; 2000; 3000; 4000; 5000; 6000; 3601000] [])
= [true; true; true; true; true; false; false].
Proof.
apply (at_most_max_requests_per_window RATE_LIMITS_scan "scan:203.0.113.7" 1000
         [2000; 3000; 4000; 5000; 6000; 3601000] []).
- exact I.
- intros t Hin. cbn in Hin |- *.
  repeat (destruct Hin as [<- | Hin]; [lia | ]). destruct Hin.
Defined.

Example window_reopens_after_it_expires :
fst (requests RATE_LIMITS_scan "scan:203.0.113.7"
       [1000; 2000; 3000; 4000; 5000; 6000; 3601001] [])
= [true; true; true; true; true; false; true].
Proof. reflexivity. Qed.

(** X24. A request is refused exactly when the identifier has an open
  window (one whose reset time is not yet past) that has already counted
  [maxRequests] requests; a refused request leaves the store as it was
  (it is not counted), reports 0 remaining and a waiting time that is not
  negative. *)
Theorem refusal_of_a_request :
forall now identifier config store,
  (allowed (fst (checkRateLimit now identifier config store)) = false
   <-> exists entry,
         Map_get store identifier = Some entry
         /\ now <= resetTime entry
         /\ maxRequests config <= count entry)
  /\ (allowed (fst (checkRateLimit now identifier config store)) = false ->
      snd (checkRateLimit now identifier config store) = store
      /\ remaining (fst (checkRateLimit now identifier config store)) = 0
      /\ 0 <= resetIn (fst (checkRateLimit now identifier config store))).
Proof.
intros now identifier config store. unfold checkRateLimit.
destruct (Map_get store identifier) as [entry | ] eqn:Hget.
2:{ cbn. split; [ | discriminate].
    split; [discriminate | intros [entry [H _]]; discriminate H]. }
destruct (Z.ltb_spec (resetTime entry) now) as [Hexp | Hopen].
{ cbn. split; [ | discriminate].
  split; [discriminate | ].
  intros [entry' [H [Hle _]]]. injection H as <-. lia. }
destruct (Z.leb_spec (maxRequests config) (count entry)) as [Hfull | Hroom].
- cbn. split.
  + split; [intros _; exists entry; repeat split; assumption | reflexivity].
  + intros _. split; [reflexivity | ]. split; [reflexivity | ].
    unfold ceil_seconds.
    assert (- (resetTime entry - now) / 1000 <= 0); [ | lia].
    apply Z.div_le_upper_bound; lia.
- cbn. split; [ | discriminate].
  split; [discriminate | ].
  intros [entry' [H [_ Hle]]]. injection H as <-. lia.
Qed.

(** The sixth scan of the hour. *)
Lemma refusal_witness :
snd (checkRateLimit 6000 "scan:203.0.113.7" RATE_LIMITS_scan
       [("scan:203.0.113.7", {| count := 5; resetTime := 3601000 |})])
= [("scan:203.0.113.7", {| count := 5; resetTime := 3601000 |})].
Proof.
apply (refusal_of_a_request 6000 "scan:203.0.113.7" RATE_LIMITS_scan
         [("scan:203.0.113.7", {| count := 5; resetTime := 3601000 |})]).
reflexivity.
Defined.

(** X25. Identifiers are limited independently: a request of one
  identifier, granted or refused, leaves the entry of every other
  identifier as it was, and keeps the keys of the store distinct. *)
Theorem identifiers_are_independent :
forall now identifier other config store,
  identifier <> other ->
  Map_get (snd (checkRateLimit now identifier config store)) other
  = Map_get store other
  /\ (NoDup (map fst store) ->
      NoDup (map fst (snd (checkRateLimit now identifier config store)))).
Proof.
intros now identifier other config store Hne. unfold checkRateLimit.
destruct (Map_get store identifier) as [entry | ].
2:{ cbn. split; [now apply get_set_other | apply set_keeps_NoDup]. }
destruct (resetTime entry <? now).
{ cbn. split; [now apply get_set_other | apply set_keeps_NoDup]. }
destruct (maxRequests config <=? count entry).
- cbn. split; [reflexivity | tauto].
- cbn. split; [now apply get_set_other | apply set_keeps_NoDup].
Qed.

(** A scan request by IP and the limit of an account. *)
Lemma identifiers_witness :
Map_get (snd (checkRateLimit 6000 "scan:203.0.113.7" RATE_LIMITS_scan
                [("scan:alice@example.com", {| count := 5; resetTime := 3601000 |})]))
  "scan:alice@example.com"
= Some {| count := 5; resetTime := 3601000 |}.
Proof.
apply (identifiers_are_independent 6000 "scan:203.0.113.7" "scan:alice@example.com"
         RATE_LIMITS_scan
         [("scan:alice@example.com", {| count := 5; resetTime := 3601000 |})]).
discriminate.
Defined.

(** *** The periodic cleanup *)

Lemma get_cleanup t store k :
NoDup (map fst store) ->
Map_get (cleanup t store) k
= match Map_get store k with
  | Some entry => if resetTime entry <? t then None else Some entry
  | None => None
  end.
Proof.
induction store as [ | [k0 v0] rest IH]; cbn [cleanup filter Map_get map fst];
  [reflexivity | ].
intros Hn. inversion Hn as [ | ? ? Hnot Hrest]; subst.
cbn [snd]. destruct (String.eqb k0 k) eqn:E.
- apply String.eqb_eq in E. subst k0.
  destruct (resetTime v0 <? t); cbn [negb Map_get].
  + fold (cleanup t rest). apply get_absent.
    intros Hin. apply Hnot. unfold cleanup in Hin.
    apply in_map_iff in Hin as [kv [Hk Hin]]. apply filter_In in Hin as [Hin _].
    apply in_map_iff. now exists kv.
  + now rewrite String.eqb_refl.
- destruct (resetTime v0 <? t); cbn [negb Map_get].
  + fold (cleanup t rest). exact (IH Hrest).
  + rewrite E. fold (cleanup t rest). exact (IH Hrest).
Qed.

(** X26. The periodic cleanup is invisible to the callers: deleting at
  some time [t] the entries whose window was over does not change what
  any request made at [t] or later is answered. *)
Theorem cleanup_is_transparent :
forall t now identifier config store,
  NoDup (map fst store) ->
  t <= now ->
  fst (checkRateLimit now identifier config (cleanup t store))
  = fst (checkRateLimit now identifier config store).
Proof.
intros t now identifier config store Hn Hle. unfold checkRateLimit.
rewrite (get_cleanup t store identifier Hn).
destruct (Map_get store identifier) as [entry | ]; [ | reflexivity].
destruct (Z.ltb_spec (resetTime entry) t) as [Hexp | Hopen].
- assert (Hnow : (resetTime entry <? now) = true) by (apply Z.ltb_lt; lia).
  rewrite Hnow. reflexivity.
- destruct (resetTime entry <? now); [reflexivity | ].
  destruct (maxRequests config <=? count entry); reflexivity.
Qed.

(** A store with an expired and an open window, cleaned five minutes before
  the request. *)
Lemma cleanup_witness :
fst (checkRateLimit 900000 "chat:203.0.113.7" RATE_LIMITS_chat
       (cleanup 600000
          [("chat:203.0.113.7", {| count := 30; resetTime := 500000 |});
           ("chat:198.51.100.2", {| count := 3; resetTime := 950000 |})]))
= fst (checkRateLimit 900000 "chat:203.0.113.7" RATE_LIMITS_chat
         [("chat:203.0.113.7", {| count := 30; resetTime := 500000 |});
          ("chat:198.51.100.2", {| count := 3; resetTime := 950000 |})]).
Proof.
apply cleanup_is_transparent.
- repeat constructor; cbn; intuition discriminate.
- lia.
Defined.

(** *** The checks on a request *)

#[local] Close Scope Z_scope.
#[local] Open Scope nat_scope.

Lemma existsb_pattern (ua p : string) :
In p botPatterns ->
Craigslist.includes (JS.fold_case ua) p = true ->
existsb (fun p => Craigslist.includes (JS.fold_case ua) p) botPatterns = true.
Proof.
intros Hin Hp. apply existsb_exists. now exists p.
Qed.

(** X27. What the bot filter lets through and what it stops: a request
  without a user agent, or with one shorter than ten characters, is
  stopped; a user agent of ten characters or more that contains one of
  the seven patterns, in any case, is stopped unless it also contains
  "Googlebot"; and a user agent that contains "Googlebot" is never
  stopped once it has ten characters, whatever else it says. *)
Theorem bot_filter :
forall ua : string,
  isSuspiciousRequest None = true
  /\ ((String.length ua < 10)%nat -> isSuspiciousRequest (Some ua) = true)
  /\ ((10 <= String.length ua)%nat ->
      Craigslist.includes ua "Googlebot" = true ->
      isSuspiciousRequest (Some ua) = false)
  /\ ((10 <= String.length ua)%nat ->
      Craigslist.includes ua "Googlebot" = false ->
      (isSuspiciousRequest (Some ua) = true
       <-> exists p, In p botPatterns
                     /\ Craigslist.includes (JS.fold_case ua) p = true)).
Proof.
intros ua. split; [reflexivity | ]. unfold isSuspiciousRequest.
split; [ | split].
- intros Hshort. apply Nat.ltb_lt in Hshort. rewrite Hshort.
  now rewrite orb_true_r.
- intros Hlong Hg.
  assert (Hne : String.eqb ua "" = false).
  { apply String.eqb_neq. intros ->. cbn in Hlong. lia. }
  apply Nat.ltb_ge in Hlong. rewrite Hne, Hlong, Hg. cbn [orb negb].
  now rewrite andb_false_r.
- intros Hlong Hg.
  assert (Hne : String.eqb ua "" = false).
  { apply String.eqb_neq. intros ->. cbn in Hlong. lia. }
  apply Nat.ltb_ge in Hlong. rewrite Hne, Hlong, Hg. cbn [orb negb].
  rewrite andb_true_r.
  destruct (existsb _ botPatterns) eqn:He.
  + split; [intros _ | reflexivity].
    apply existsb_exists in He. exact He.
  + split; [discriminate | ].
    intros [p [Hin Hp]]. rewrite (existsb_pattern ua p Hin Hp) in He. discriminate He.
Qed.

(** A scripted client, alone and dressed up as Googlebot. *)
Lemma bot_filter_witness :
isSuspiciousRequest (Some "curl/8.4.0 (Googlebot)") = false
/\ isSuspiciousRequest (Some "curl") = true.
Proof.
destruct (bot_filter "curl/8.4.0 (Googlebot)") as [_ [_ [Hgoogle _]]].
destruct (bot_filter "curl") as [_ [Hshort _]].
split.
- apply Hgoogle; [cbn; lia | reflexivity].
- apply Hshort. cbn. lia.
Defined.

Example plain_curl_is_stopped :
isSuspiciousRequest (Some "Mozilla/5.0 compatible; CURL/8") = true.
Proof. reflexivity. Qed.

Lemma substring_length (n m : nat) (s : string) :
String.length (substring n m s) = Nat.min m (String.length s - n).
Proof.
revert n m. induction s as [ | c s IH]; intros n m.
- destruct n, m; reflexivity.
- destruct n as [ | n].
  + destruct m as [ | m]; cbn; [reflexivity | ].
    rewrite IH. now rewrite Nat.sub_0_r.
  + cbn. apply IH.
Qed.

Lemma digits_only_shorter (n : nat) (s : string) :
digits_only (substring 0 (S n) s) = true -> digits_only (substring 0 n s) = true.
Proof.
revert s. induction n as [ | n IH]; intros s.
- intros _. destruct s; reflexivity.
- destruct s as [ | c s]; [reflexivity | ].
  cbn [substring digits_only].
  intros H. apply andb_true_iff in H as [Hc H].
  rewrite Hc. exact (IH s H).
Qed.

(** X28. A zipcode that passes the format check has five characters, or
  ten (ZIP+4); its first five characters are digits; and so the region
  lookup, which reads the first three characters, is always made on three
  digits. *)
Theorem valid_zipcode_shape :
forall zipcode : string,
  isValidZipcode zipcode = true ->
  (String.length zipcode = 5 \/ String.length zipcode = 10)
  /\ digits_only (substring 0 5 zipcode) = true
  /\ String.length (substring 0 3 zipcode) = 3
  /\ digits_only (substring 0 3 zipcode) = true.
Proof.
intros zipcode H. unfold isValidZipcode in H.
apply andb_true_iff in H as [H Hrest]. apply andb_true_iff in H as [Hlen Hdigits].
apply Nat.eqb_eq in Hlen. rewrite substring_length in Hlen.
split.
- apply orb_true_iff in Hrest as [Hrest | Hrest].
  + apply String.eqb_eq in Hrest.
    apply (f_equal String.length) in Hrest. rewrite substring_length in Hrest.
    cbn in Hrest. lia.
  + apply andb_true_iff in Hrest as [Hrest _].
    apply andb_true_iff in Hrest as [_ Hrest].
    apply Nat.eqb_eq in Hrest. rewrite substring_length in Hrest. lia.
- split; [exact Hdigits | ]. split.
  + rewrite substring_length. lia.
  + now apply digits_only_shorter, digits_only_shorter.
Qed.

(** The zipcodes 94110 and 94110-1234. *)
Lemma valid_zipcode_witness :
(String.length "94110" = 5 \/ String.length "94110" = 10)
/\ digits_only (substring 0 3 "94110-1234") = true.
Proof.
destruct (valid_zipcode_shape "94110" eq_refl) as [H5 _].
destruct (valid_zipcode_shape "94110-1234" eq_refl) as [_ [_ [_ H3]]].
split; [exact H5 | exact H3].
Defined.

Example malformed_zipcodes :
isValidZipcode "9411" = false /\ isValidZipcode "94110-12" = false
/\ isValidZipcode "9411O" = false /\ isValidZipcode "94110 " = false.
Proof. repeat split. Qed.

End SecurityFacts.

(* ================================================================== *)
(** ** The cron endpoint *)
(* ================================================================== *)

Module CronFacts.
Import Scheduler.
Import Spec.
Import Notions.
Import Cron.

(** X29. With a cron secret configured, the sweep runs only for a request
  whose Authorization header is exactly "Bearer " followed by the secret:
  any other request (no header, a wrong token, or just the header that the
  hosting platform sets) gets 401 and the state is not touched, while the
  right header gets the sweep, whatever the other header says. *)
Theorem cron_secret_guards_the_sweep :
forall vars env request st secret,
  CRON_SECRET vars = Some secret ->
  secret <> "" ->
  (authorization request <> Some ("Bearer " ++ secret) ->
   GET vars env request st = (Returned Unauthorized, st))
  /\ (authorization request = Some ("Bearer " ++ secret) ->
      GET vars env request st = sweep_response env st).
Proof.
intros vars env request st secret Hsecret Hne.
apply String.eqb_neq in Hne.
unfold GET, set. rewrite Hsecret, Hne. cbn [negb andb].
split.
- intros Hauth.
  destruct (authorization request) as [h | ]; [ | reflexivity].
  destruct (String.eqb h ("Bearer " ++ secret)) eqn:E; [ | reflexivity].
  apply String.eqb_eq in E. subst h. now elim Hauth.
- intros ->. rewrite String.eqb_refl. reflexivity.
Qed.

(** A forged request and the scheduled one. *)
Lemma cron_secret_witness :
GET ScenarioMore.with_secret Scenario.later_scan ScenarioMore.forged
  (Scenario.store [Scenario.s1])
= (Returned Unauthorized, Scenario.store [Scenario.s1])
/\ GET ScenarioMore.with_secret Scenario.later_scan ScenarioMore.scheduled
     (Scenario.store [Scenario.s1])
   = sweep_response Scenario.later_scan (Scenario.store [Scenario.s1]).
Proof.
destruct (cron_secret_guards_the_sweep ScenarioMore.with_secret Scenario.later_scan
            ScenarioMore.forged (Scenario.store [Scenario.s1]) "s3cret" eq_refl
            ltac:(discriminate)) as [Hforged _].
destruct (cron_secret_guards_the_sweep ScenarioMore.with_secret Scenario.later_scan
            ScenarioMore.scheduled (Scenario.store [Scenario.s1]) "s3cret" eq_refl
            ltac:(discriminate)) as [_ Hscheduled].
split.
- apply Hforged. discriminate.
- apply Hscheduled. reflexivity.
Defined.

(** X30. The cron endpoint never throws: every request gets a response.
  The response is 200 with the summary exactly when the sweep returned it,
  and then the browser has been released; it is 500 exactly when the sweep
  threw, for instance when the store could not list the active searches;
  and a 401 leaves the state untouched. *)
Theorem cron_always_answers :
forall vars env request st,
  exists response,
    result (GET vars env request) st = Returned response
    /\ match response with
       | Unauthorized => after (GET vars env request) st = st
       | Success summary =>
           processAllSearches env st
           = (Returned summary, after (GET vars env request) st)
           /\ browserInstance (after (GET vars env request) st) = false
       | ScanFailed message =>
           processAllSearches env st
           = (Threw message, after (GET vars env request) st)
       end.
Proof.
intros vars env request st. unfold result, after, GET.
destruct (set (CRON_SECRET vars) && negb _).
{ exists Unauthorized. split; reflexivity. }
destruct (negb (set (CRON_SECRET vars)) && negb (set (x_vercel_cron request)) && _).
{ exists Unauthorized. split; reflexivity. }
destruct (processAllSearches env st) as [[summary | e] st'] eqn:Hsweep.
- exists (Success summary). split; [reflexivity | ]. split; [reflexivity | ].
  cbn [snd]. revert Hsweep.
  unfold processAllSearches. unfold bind at 1.
  unfold search_findMany_active, prisma.
  destruct (prisma_fails env (calls st)); [discriminate | ].
  rewrite SchedulerFacts.sweep_attempts.
  unfold closeBrowser, Craigslist.closeBrowser.
  destruct (browserInstance (snd (attempts env _ _))) eqn:Hb.
  + destruct (Craigslist.browser_close _); [ | discriminate].
    intros H. injection H as _ <-. reflexivity.
  + intros H. injection H as _ <-. reflexivity.
- exists (ScanFailed e). split; reflexivity.
Qed.

End CronFacts.

